(** * spimio: remote path algebra, glob selectors and slab metadata

    A shallow embedding of [spimio/dandi.py] (the [RemotePath] / [DandiPath]
    classes and the glob selector chain) and of [slab_info] from
    [spimio/spiminfo.py], with the properties stated about them.

    [RemotePath] derives from [pathlib.PurePosixPath]; the inherited pieces
    of pathlib that the module relies on (the posix flavour, [parent],
    [__eq__], [__hash__], [__str__]) are transcribed from CPython 3.8, the
    last series on which the module imports ([collections.Sequence],
    [PurePath._init]). *)

From Stdlib Require Import Ascii ZArith Lia.
From stdpp Require Import base option list strings gmap.

(** ** Python values and exceptions *)

Module Py.

(** The exceptions raised (or caught) by the modelled code.  Messages
    built with [str.format] keep their arguments. *)
Inductive Error : Type :=
| TypeError (msg : string)
| ValueError (msg : string)
| ValueError_does_not_start_with (self_str formatted : string)
    (* "{!r} does not start with {!r}".format(str(self), str(formatted)) *)
| ValueError_unacceptable_pattern (pattern : string)
    (* "Unacceptable pattern: {!r}".format(pattern) *)
| IndexError (idx : Z)
| IndexError_list_index
| NotImplementedError (msg : string)
| NotADirectoryError
| PermissionError
| AttributeError (msg : string)
| KeyError (key : string)
| NotFoundError (path : string)
| re_error (msg : string).

Inductive Result (A : Type) : Type :=
| Ok (a : A)
| Raise (e : Error).
Arguments Ok {A} a.
Arguments Raise {A} e.

Definition bind {A B} (r : Result A) (k : A -> Result B) : Result B :=
  match r with
  | Ok a => k a
  | Raise e => Raise e
  end.

(** [x or y] on optional objects: [None] is falsy, any object is truthy. *)
Definition or_else {A} (x y : option A) : option A :=
  match x with
  | Some _ => x
  | None => y
  end.

(** Truthiness of [str]. *)
Definition truthy (s : string) : bool := negb (String.eqb s "").

(** [c in s] for a one-character [c]. *)
Fixpoint has_char (c : ascii) (s : string) : bool :=
  match s with
  | EmptyString => false
  | String a s' => Ascii.eqb a c || has_char c s'
  end.

(** [sub in s]. *)
Fixpoint contains (sub s : string) : bool :=
  String.prefix sub s ||
  match s with
  | EmptyString => false
  | String _ s' => contains sub s'
  end.

(** [s.split(sep)] for a one-character separator. *)
Fixpoint split (sep : ascii) (s : string) : list string :=
  match s with
  | EmptyString => [EmptyString]
  | String a s' =>
      if Ascii.eqb a sep then EmptyString :: split sep s'
      else match split sep s' with
           | [] => [String a EmptyString]
           | h :: t => String a h :: t
           end
  end.

(** [s.lstrip(c)]. *)
Fixpoint lstrip (c : ascii) (s : string) : string :=
  match s with
  | EmptyString => EmptyString
  | String a s' => if Ascii.eqb a c then lstrip c s' else s
  end.

(** [sep.join(l)]. *)
Definition join (sep : string) (l : list string) : string :=
  String.concat sep l.

(** [l[:stop]] with Python's treatment of a negative or too large stop. *)
Definition slice_to {A} (l : list A) (stop : Z) : list A :=
  if (stop <? 0)%Z then take (Z.to_nat (Z.of_nat (length l) + stop)) l
  else take (Z.to_nat stop) l.

(** [l[start:]] for a non-negative start. *)
Definition slice_from {A} (l : list A) (start : nat) : list A :=
  drop start l.

End Py.

Import Py.

#[global] Instance Result_ret : MRet Result := @Ok.
#[global] Instance Result_bind : MBind Result := fun A B k r => Py.bind r k.
#[global] Instance Result_fmap : FMap Result := fun A B f r => Py.bind r (fun a => Ok (f a)).

(** ** More of [str]: searching and slicing *)

Module Str.

(** [s.rfind(c)] for a one-character [c]: the highest index at which [c]
    stands, or [-1]. *)
Fixpoint rfind (c : ascii) (s : string) : Z :=
  match s with
  | EmptyString => (-1)%Z
  | String a s' =>
      let r := rfind c s' in
      if (0 <=? r)%Z then (r + 1)%Z
      else if Ascii.eqb a c then 0%Z else (-1)%Z
  end.

(** [s.index(c)]: the lowest index at which [c] stands. *)
Fixpoint index (c : ascii) (s : string) : Result nat :=
  match s with
  | EmptyString => Raise (ValueError "substring not found")
  | String a s' => if Ascii.eqb a c then Ok 0 else S <$> index c s'
  end.

Fixpoint take (n : nat) (s : string) : string :=
  match n, s with
  | S n, String a s' => String a (take n s')
  | _, _ => EmptyString
  end.

Fixpoint drop (n : nat) (s : string) : string :=
  match n, s with
  | S n, String _ s' => drop n s'
  | _, _ => s
  end.

(** [s[:stop]], with Python's treatment of a negative stop. *)
Definition slice_to (s : string) (stop : Z) : string :=
  if (stop <? 0)%Z then take (Z.to_nat (Z.of_nat (String.length s) + stop)) s
  else take (Z.to_nat stop) s.

(** [s[start:]], with Python's treatment of a negative start. *)
Definition slice_from (s : string) (start : Z) : string :=
  if (start <? 0)%Z then drop (Z.to_nat (Z.of_nat (String.length s) + start)) s
  else drop (Z.to_nat start) s.

(** [s[-1]] of a non-empty string. *)
Fixpoint last_char (s : string) : option ascii :=
  match s with
  | EmptyString => None
  | String a EmptyString => Some a
  | String _ s' => last_char s'
  end.

(** [s.startswith(prefix)]. *)
Definition startswith (prefix s : string) : bool := String.prefix prefix s.

End Str.

(** ** The posix flavour ([pathlib._PosixFlavour]) *)

Module Flavour.

Definition sep_char : ascii := "/"%char.
Definition sep : string := "/".
Definition altsep : string := "".

Definition splitroot (part : string) : string * string * string :=
  match part with
  | String a _ =>
      if Ascii.eqb a sep_char then
        let stripped_part := lstrip sep_char part in
        if String.length part - String.length stripped_part =? 2
        then ("", sep +:+ sep, stripped_part)
        else ("", sep, stripped_part)
      else ("", "", part)
  | EmptyString => ("", "", part)
  end.

Definition keep_name (x : string) : bool :=
  truthy x && negb (String.eqb x ".").

(** The names one part contributes to [parsed], in the order in which
    they are appended. *)
Definition append_names (rel : string) : list string :=
  if has_char sep_char rel then filter (fun x => keep_name x = true) (reverse (split sep_char rel))
  else if keep_name rel then [rel] else [].

(** The inner [for part in it] loop, looking for a drive in the parts
    that precede a rooted one. *)
Fixpoint find_drive (drv : string) (it : list string) : string :=
  match it with
  | [] => drv
  | part :: it' =>
      if truthy part then
        let drv := (splitroot part).1.1 in
        if truthy drv then drv else find_drive drv it'
      else find_drive drv it'
  end.

(** The main loop over [reversed(parts)]; [drv] and [root] are those of
    the last part split so far.  The posix [altsep] is empty, so no part
    has its separators replaced. *)
Fixpoint parse_loop (it : list string) (drv root : string) (parsed : list string)
  : string * string * list string :=
  match it with
  | [] => (drv, root, parsed)
  | part :: it' =>
      if truthy part then
        let '(drv, root, rel) := splitroot part in
        let parsed := parsed ++ append_names rel in
        if truthy drv || truthy root then
          let drv := if truthy drv then drv else find_drive drv it' in
          (drv, root, parsed)
        else parse_loop it' drv root parsed
      else parse_loop it' drv root parsed
  end.

Definition parse_parts (parts : list string) : string * string * list string :=
  let '(drv, root, parsed) := parse_loop (reverse parts) "" "" [] in
  let parsed := if truthy drv || truthy root then parsed ++ [drv +:+ root] else parsed in
  (drv, root, reverse parsed).

Definition casefold (s : string) : string := s.
Definition casefold_parts (parts : list string) : list string := parts.

Definition join_parsed_parts (drv root : string) (parts : list string)
    (drv2 root2 : string) (parts2 : list string) : string * string * list string :=
  if truthy root2 then
    if negb (truthy drv2) && truthy drv
    then (drv, root2, (drv +:+ root2) :: drop 1 parts2)
    else (drv2, root2, parts2)
  else if truthy drv2 then
    if String.eqb drv2 drv || String.eqb (casefold drv2) (casefold drv)
    then (drv, root, parts ++ drop 1 parts2)
    else (drv2, root2, parts2)
  else (drv, root, parts ++ parts2).

(** [flavour.join] is [sep.join]. *)
Definition join (parts : list string) : string := Py.join sep parts.

End Flavour.

(** ** Remote handles and path values *)

(** The archive session a path is bound to ([dandi.dandiapi.RemoteDandiset]):
    an identifier, an optional version, and the flat, ordered store of asset
    paths that the two listing calls of the interface answer from. *)
Record Dandiset : Type := mkDandiset {
  identifier : string;
  version_id : option string;
  assets : list string
}.

Inductive PathClass : Type := ClsRemotePath | ClsDandiPath.

(** [RemotePath._flavour] and [DandiPath._flavour] are two deep copies of the
    posix flavour: equal in behaviour, distinct as objects. *)
Inductive FlavourId : Type := RemoteFlavour | DandiFlavour.

Definition _flavour (cls : PathClass) : FlavourId :=
  match cls with
  | ClsRemotePath => RemoteFlavour
  | ClsDandiPath => DandiFlavour
  end.

#[global] Instance PathClass_eq_dec : EqDecision PathClass.
Proof. solve_decision. Defined.
#[global] Instance FlavourId_eq_dec : EqDecision FlavourId.
Proof. solve_decision. Defined.

Record RemotePath : Type := mkPath {
  pathcls : PathClass;
  _drv : string;
  _root : string;
  _parts : list string;
  remote : option Dandiset
}.

(** A constructor argument: a [str], a path object, or anything else. *)
Inductive Arg : Type :=
| ArgStr (s : string)
| ArgPath (p : RemotePath)
| ArgOther.

Definition anchored (drv root : string) : bool := truthy drv || truthy root.

Definition _cparts (p : RemotePath) : list string :=
  Flavour.casefold_parts (_parts p).

(** [PurePath.__eq__]. *)
Definition path_eq (p q : RemotePath) : bool :=
  bool_decide (_cparts p = _cparts q) &&
  bool_decide (_flavour (pathcls p) = _flavour (pathcls q)).

Section Hash.
(** The interpreter's [hash] of a tuple of strings. *)
Variable hash_tuple : list string -> Z.

(** [PurePath.__hash__]. *)
Definition path_hash (p : RemotePath) : Z := hash_tuple (_cparts p).
End Hash.

(** [PurePath._format_parsed_parts] and [PurePath.__str__]. *)
Definition _format_parsed_parts (drv root : string) (parts : list string) : string :=
  if anchored drv root then drv +:+ root +:+ Flavour.join (drop 1 parts)
  else Flavour.join parts.

Definition path_str (p : RemotePath) : string :=
  let s := _format_parsed_parts (_drv p) (_root p) (_parts p) in
  if truthy s then s else ".".

(** [PurePath.name]. *)
Definition name (p : RemotePath) : string :=
  let parts := _parts p in
  if length parts =? (if anchored (_drv p) (_root p) then 1 else 0) then ""
  else default "" (last parts).

(** ** Constructors ([RemotePath] lines 212-279) *)

Fixpoint collect_args (args : list Arg) (rem : option Dandiset) (parts : list string)
  : Result (option Dandiset * list string) :=
  match args with
  | [] => Ok (rem, parts)
  | ArgPath a :: args' => collect_args args' (or_else rem (remote a)) (parts ++ _parts a)
  | ArgStr a :: args' => collect_args args' rem (parts ++ [a])
  | ArgOther :: _ =>
      Raise (TypeError "argument should be a str object or an os.PathLike object returning str")
  end.

Definition _parse_args_with_remote (args : list Arg)
  : Result (option Dandiset * string * string * list string) :=
  '(rem, parts) ← collect_args args None [];
  let '(drv, root, parts) := Flavour.parse_parts parts in
  Ok (rem, drv, root, parts).

(** [PurePath._parse_args], which [relative_to] still calls. *)
Definition _parse_args (args : list Arg) : Result (string * string * list string) :=
  '(_, parts) ← collect_args args None [];
  Ok (Flavour.parse_parts parts).

Definition _from_parts (cls : PathClass) (args : list Arg) (remote : option Dandiset)
  : Result RemotePath :=
  '(rem, drv, root, parts) ← _parse_args_with_remote args;
  Ok (mkPath cls drv root parts (or_else remote rem)).

Definition _from_parsed_parts (cls : PathClass) (drv root : string) (parts : list string)
    (remote : option Dandiset) : RemotePath :=
  mkPath cls drv root parts remote.

Definition set_remote (p : RemotePath) (r : option Dandiset) : RemotePath :=
  mkPath (pathcls p) (_drv p) (_root p) (_parts p) r.

(** [RemotePath.__new__(cls, *args, remote=None)]:
    [PurePosixPath.__new__(DandiPath, *args)] is [DandiPath._from_parts(args)],
    after which the [remote] attribute is overwritten. *)
Definition RemotePath__new__ (cls : PathClass) (args : list Arg) (remote : option Dandiset)
  : Result RemotePath :=
  self ← _from_parts ClsDandiPath args None;
  Ok (set_remote self remote).

(** [DandiPath.__new__(cls, *args, client=None, dandiset=None)], for the call
    forms without [dandiset_id] and [version_id] (the ones of this module;
    resolving an identifier goes through the network client). *)
Definition DandiPath__new__ (cls : PathClass) (args : list Arg)
    (client_given : bool) (dandiset : option Dandiset) : Result RemotePath :=
  match dandiset with
  | Some d =>
      if client_given
      then Raise (ValueError "If `dandiset` is used, it must be the only keyword argument")
      else RemotePath__new__ ClsDandiPath args (Some d)
  | None => RemotePath__new__ ClsDandiPath args None
  end.

(** Calling the class [cls] with positional arguments only. *)
Definition construct (cls : PathClass) (args : list Arg) : Result RemotePath :=
  match cls with
  | ClsRemotePath => RemotePath__new__ ClsRemotePath args None
  | ClsDandiPath => DandiPath__new__ ClsDandiPath args false None
  end.

Definition _make_child (self : RemotePath) (args : list Arg) : Result RemotePath :=
  '(rem, drv, root, parts) ← _parse_args_with_remote args;
  let '(drv, root, parts) :=
    Flavour.join_parsed_parts (_drv self) (_root self) (_parts self) drv root parts in
  Ok (_from_parsed_parts (pathcls self) drv root parts (or_else (remote self) rem)).

Definition _make_child_relpath (self : RemotePath) (part : string) : RemotePath :=
  let parts := _parts self ++ [part] in
  _from_parsed_parts (pathcls self) (_drv self) (_root self) parts (remote self).

(** [PurePath.joinpath]. *)
Definition joinpath (self : RemotePath) (args : list Arg) : Result RemotePath :=
  _make_child self args.

(** ** [relative_to], [parent], [parents] *)

Definition abs_parts_of (drv root : string) (parts : list string) : list string :=
  if truthy root then [drv; root] ++ drop 1 parts else parts.

Definition relative_to (self : RemotePath) (other : list Arg) : Result RemotePath :=
  match other with
  | [] => Raise (TypeError "need at least one argument")
  | _ =>
      let parts := _parts self in
      let drv := _drv self in
      let root := _root self in
      let abs_parts := abs_parts_of drv root parts in
      '(to_drv, to_root, to_parts) ← _parse_args other;
      let to_abs_parts := abs_parts_of to_drv to_root to_parts in
      let n := length to_abs_parts in
      let cf := Flavour.casefold_parts in
      if (if n =? 0 then truthy root || truthy drv
          else negb (bool_decide (cf (take n abs_parts) = cf to_abs_parts)))
      then
        let formatted := _format_parsed_parts to_drv to_root to_parts in
        Raise (ValueError_does_not_start_with (path_str self) formatted)
      else
        Ok (_from_parsed_parts (pathcls self) "" (if n =? 1 then root else "")
              (Py.slice_from abs_parts n) (remote self))
  end.

Definition parent (self : RemotePath) : RemotePath :=
  let drv := _drv self in
  let root := _root self in
  let parts := _parts self in
  if (length parts =? 1) && (truthy drv || truthy root) then self
  else _from_parsed_parts (pathcls self) drv root (Py.slice_to parts (-1)) (remote self).

(** [_RemotePathParents].  The class declares [__slots__], and so does
    every class above it ([Sequence] and the abstract classes it derives
    from declare the empty one): an object of the class holds the four
    attributes named there and has no [__dict__]. *)
Record RemotePathParents : Type := mkParents {
  pp_pathcls : PathClass;
  pp_drv : string;
  pp_root : string;
  pp_parts : list string
}.

Definition RemotePathParents__slots__ : list string :=
  ["_pathcls"; "_drv"; "_root"; "_parts"].

Definition no_attribute (attr : string) : Error :=
  AttributeError ("'_RemotePathParents' object has no attribute '" +:+ attr +:+ "'").

(** [self.attr = value]: refused for an attribute that is no slot. *)
Definition setattr (attr : string) : Result unit :=
  if bool_decide (attr ∈ RemotePathParents__slots__) then Ok ()
  else Raise (no_attribute attr).

(** [self._remote], read: the object has no such slot. *)
Definition pp_remote (ps : RemotePathParents) : Result (option Dandiset) :=
  Raise (no_attribute "_remote").

(** [_RemotePathParents.__init__]: its five assignments, in order. *)
Definition RemotePathParents__init__ (path : RemotePath) : Result RemotePathParents :=
  _ ← setattr "_pathcls";
  _ ← setattr "_drv";
  _ ← setattr "_root";
  _ ← setattr "_parts";
  _ ← setattr "_remote";
  Ok (mkParents (pathcls path) (_drv path) (_root path) (_parts path)).

Definition parents (self : RemotePath) : Result RemotePathParents :=
  RemotePathParents__init__ self.

Definition parents_len (ps : RemotePathParents) : Z :=
  if truthy (pp_drv ps) || truthy (pp_root ps)
  then (Z.of_nat (length (pp_parts ps)) - 1)%Z
  else Z.of_nat (length (pp_parts ps)).

Definition parents_getitem (ps : RemotePathParents) (idx : Z) : Result RemotePath :=
  if (idx <? 0)%Z || (idx >=? parents_len ps)%Z then Raise (IndexError idx)
  else
    rem ← pp_remote ps;
    Ok (_from_parsed_parts (pp_pathcls ps) (pp_drv ps) (pp_root ps)
          (Py.slice_to (pp_parts ps) (- idx - 1)) rem).

(** ** [suffix], [stem], [with_name], [with_suffix] and the division operator *)

(** [PurePath.suffix] and [PurePath.stem]. *)
Definition suffix (p : RemotePath) : string :=
  let name := name p in
  let i := Str.rfind "." name in
  if (0 <? i)%Z && (i <? Z.of_nat (String.length name) - 1)%Z
  then Str.slice_from name i
  else "".

Definition stem (p : RemotePath) : string :=
  let name := name p in
  let i := Str.rfind "." name in
  if (0 <? i)%Z && (i <? Z.of_nat (String.length name) - 1)%Z
  then Str.slice_to name i
  else name.

(** [name[-1] in [sep, altsep]]: the posix [altsep] is the empty string,
    which no character equals. *)
Definition ends_with_sep (name : string) : bool :=
  match Str.last_char name with
  | Some c => String.eqb (String c "") Flavour.sep || String.eqb (String c "") Flavour.altsep
  | None => false
  end.

(** [with_name] (lines 281-291).  The messages are the format strings;
    their arguments are the path and the name. *)
Definition with_name (self : RemotePath) (name' : string) : Result RemotePath :=
  if negb (truthy (name self)) then Raise (ValueError "%r has an empty name")
  else
    let '(drv, root, parts) := Flavour.parse_parts [name'] in
    if negb (truthy name') || ends_with_sep name' || truthy drv || truthy root
       || negb (length parts =? 1)
    then Raise (ValueError "Invalid name %r")
    else Ok (_from_parsed_parts (pathcls self) (_drv self) (_root self)
               (Py.slice_to (_parts self) (-1) ++ [name']) (remote self)).

(** [with_suffix] (lines 293-313). *)
Definition with_suffix (self : RemotePath) (suffix' : string) : Result RemotePath :=
  if contains Flavour.sep suffix' || (truthy Flavour.altsep && contains Flavour.altsep suffix')
  then Raise (ValueError "Invalid suffix %r")
  else if (truthy suffix' && negb (Str.startswith "." suffix')) || String.eqb suffix' "."
  then Raise (ValueError "Invalid suffix %r")
  else
    let name := name self in
    if negb (truthy name) then Raise (ValueError "%r has an empty name")
    else
      let old_suffix := suffix self in
      let name :=
        if negb (truthy old_suffix) then name +:+ suffix'
        else Str.slice_to name (- Z.of_nat (String.length old_suffix)) +:+ suffix' in
      Ok (_from_parsed_parts (pathcls self) (_drv self) (_root self)
            (Py.slice_to (_parts self) (-1) ++ [name]) (remote self)).

(** What a binary operator method hands back: a value, or [NotImplemented]. *)
Inductive Operand (A : Type) : Type :=
| Value (a : A)
| NotImplemented.
Arguments Value {A} a.
Arguments NotImplemented {A}.

(** [PurePath.__truediv__]: [self / key]. *)
Definition __truediv__ (self : RemotePath) (key : Arg) : Result (Operand RemotePath) :=
  match _make_child self [key] with
  | Ok p => Ok (Value p)
  | Raise (TypeError _) => Ok NotImplemented
  | Raise e => Raise e
  end.

(** [__rtruediv__] (lines 347-351): [key / self]. *)
Definition __rtruediv__ (self : RemotePath) (key : Arg) : Result (Operand RemotePath) :=
  match _from_parts (pathcls self) (key :: (ArgStr <$> _parts self)) (remote self) with
  | Ok p => Ok (Value p)
  | Raise (TypeError _) => Ok NotImplemented
  | Raise e => Raise e
  end.

(** ** Generators

    What a generator does when it is run to its end: the values it yields,
    in order, and how it stops.  [Unfinished] is not a Python outcome; it
    marks a bounded unfolding of a recursive generator that was cut off. *)

Inductive Outcome : Type :=
| Returned
| Raised (e : Error)
| Unfinished.

Definition Gen (A : Type) : Type := (list A * Outcome)%type.

Module Gen.

Definition stop {A} : Gen A := ([], Returned).
Definition raise {A} (e : Error) : Gen A := ([], Raised e).
Definition yield {A} (x : A) (rest : Gen A) : Gen A := (x :: rest.1, rest.2).

(** Run [g], then [rest] if [g] returned. *)
Definition seq {A} (g : Gen A) (rest : Gen A) : Gen A :=
  match g.2 with
  | Returned => (g.1 ++ rest.1, rest.2)
  | _ => g
  end.

(** A value computed by plain code inside a generator body. *)
Definition lift {A B} (r : Result B) (k : B -> Gen A) : Gen A :=
  match r with
  | Ok b => k b
  | Raise e => raise e
  end.

(** [for x in items: body(x)] over a list. *)
Fixpoint for_list {A B} (items : list B) (body : B -> Gen A) : Gen A :=
  match items with
  | [] => stop
  | x :: items' => seq (body x) (for_list items' body)
  end.

(** [for x in g: body(x)] over a generator: the body runs on every value
    [g] yields, then [g]'s own outcome takes effect. *)
Definition for_gen {A B} (g : Gen B) (body : B -> Gen A) : Gen A :=
  seq (for_list g.1 body) ([], g.2).

(** [list(g)]; a cut-off unfolding keeps what it yielded. *)
Definition to_list {A} (g : Gen A) : Result (list A) :=
  match g.2 with
  | Returned => Ok g.1
  | Raised e => Raise e
  | Unfinished => Ok g.1
  end.

(** [try: g except PermissionError: return]. *)
Definition except_PermissionError {A} (g : Gen A) : Gen A :=
  match g.2 with
  | Raised PermissionError => (g.1, Returned)
  | _ => g
  end.

Definition map {A B} (f : A -> B) (g : Gen A) : Gen B := (f <$> g.1, g.2).

End Gen.

(** ** The archive session interface *)

Definition get_assets_with_path_prefix (ds : Dandiset) (path : string) : list string :=
  filter (fun a => String.prefix path a = true) (assets ds).

Definition get_asset_by_path (ds : Dandiset) (path : string) : Result string :=
  if bool_decide (path ∈ assets ds) then Ok path else Raise (NotFoundError path).

(** ** [DandiPath]: the remote directory adapter (lines 477-561) *)

Definition is_relative_to (self : RemotePath) (other : list Arg) : Result bool :=
  match relative_to self other with
  | Ok rel =>
      dot ← construct (pathcls self) [ArgStr "."];
      Ok (negb (path_eq rel dot))
  | Raise (ValueError _) | Raise (ValueError_does_not_start_with _ _)
  | Raise (ValueError_unacceptable_pattern _) => Ok false
  | Raise e => Raise e
  end.

Fixpoint exists_loop (self : RemotePath) (listing : list string) : Result bool :=
  match listing with
  | [] => Ok false
  | asset :: listing' =>
      asset_path ← DandiPath__new__ ClsDandiPath [ArgStr asset] true None;
      if path_eq asset_path self then Ok true
      else
        rel ← is_relative_to asset_path [ArgPath self];
        if rel : bool then Ok true else exists_loop self listing'
  end.

Definition exists_ (self : RemotePath) : Result bool :=
  match remote self with
  | None => Ok false
  | Some ds => exists_loop self (get_assets_with_path_prefix ds (path_str self))
  end.

Fixpoint is_dir_loop (self : RemotePath) (listing : list string) : Result bool :=
  match listing with
  | [] => Ok false
  | asset :: listing' =>
      asset_path ← DandiPath__new__ ClsDandiPath [ArgStr asset] false None;
      rel ← is_relative_to asset_path [ArgPath self];
      if rel : bool then Ok true else is_dir_loop self listing'
  end.

Definition is_dir (self : RemotePath) : Result bool :=
  match remote self with
  | None => Ok false
  | Some ds => is_dir_loop self (get_assets_with_path_prefix ds (path_str self))
  end.

Definition NoneType_has_no (attr : string) : Error :=
  AttributeError ("'NoneType' object has no attribute '" +:+ attr +:+ "'").

Definition is_file (self : RemotePath) : Result bool :=
  match remote self with
  | None => Raise (NoneType_has_no "get_asset_by_path")
  | Some ds =>
      match get_asset_by_path ds (path_str self) with
      | Ok _ => Ok true
      | Raise (NotFoundError _) => Ok false
      | Raise e => Raise e
      end
  end.

(** [t[-1]] and [t[0]] on a tuple. *)
Definition item_last (t : list string) : Result string :=
  match last t with
  | Some x => Ok x
  | None => Raise IndexError_list_index
  end.

Definition item_first (t : list string) : Result string :=
  match t with
  | x :: _ => Ok x
  | [] => Raise IndexError_list_index
  end.

Fixpoint iterdir_loop (self : RemotePath) (listing : list string) (subdirs : list string)
  : Gen string :=
  match listing with
  | [] => Gen.stop
  | asset :: listing' =>
      Gen.lift (DandiPath__new__ ClsDandiPath [ArgStr asset] false None) (fun asset_path =>
      if path_eq self (parent asset_path) then
        Gen.lift (item_last (_parts asset_path)) (fun nm =>
        Gen.yield nm (iterdir_loop self listing' subdirs))
      else
        Gen.lift (is_relative_to asset_path [ArgPath self]) (fun rel =>
        if rel : bool then
          Gen.lift (relative_to asset_path [ArgPath self]) (fun r =>
          Gen.lift (item_first (_parts r)) (fun base =>
          if bool_decide (base ∈ subdirs) then iterdir_loop self listing' subdirs
          else Gen.yield base (iterdir_loop self listing' (subdirs ++ [base]))))
        else iterdir_loop self listing' subdirs))
  end.

Definition iterdir (self : RemotePath) : Gen string :=
  Gen.lift (is_dir self) (fun d =>
  if negb d then Gen.raise NotADirectoryError
  else
    match remote self with
    | None => Gen.raise (NoneType_has_no "get_assets_with_path_prefix")
    | Some ds => iterdir_loop self (get_assets_with_path_prefix ds (path_str self)) []
    end).

Fixpoint scandir_loop (self : RemotePath) (listing : list string) (subdirs : list RemotePath)
  : Gen RemotePath :=
  match listing with
  | [] => Gen.stop
  | asset :: listing' =>
      Gen.lift (DandiPath__new__ ClsDandiPath [ArgStr asset] false (remote self)) (fun asset_path =>
      if path_eq self (parent asset_path) then
        Gen.yield asset_path (scandir_loop self listing' subdirs)
      else
        Gen.lift (is_relative_to asset_path [ArgPath self]) (fun rel =>
        if rel : bool then
          Gen.lift (relative_to asset_path [ArgPath self]) (fun r =>
          Gen.lift (item_first (_parts r)) (fun base =>
          Gen.lift (joinpath self [ArgStr base]) (fun base =>
          if existsb (path_eq base) subdirs then scandir_loop self listing' subdirs
          else Gen.yield base (scandir_loop self listing' (subdirs ++ [base])))))
        else scandir_loop self listing' subdirs))
  end.

Definition scandir (self : RemotePath) : Gen RemotePath :=
  Gen.lift (is_dir self) (fun d =>
  if negb d then Gen.raise NotADirectoryError
  else
    match remote self with
    | None => Gen.raise (NoneType_has_no "get_assets_with_path_prefix")
    | Some ds => scandir_loop self (get_assets_with_path_prefix ds (path_str self)) []
    end).

(** ** [DandiPath]: identifiers, assets and addresses (lines 11-29, 426-475) *)

(** The properties [dandiset_id] and [version_id] of a path. *)
Definition dandiset_id (self : RemotePath) : option string :=
  match remote self with
  | Some ds => Some (identifier ds)
  | None => None
  end.

Definition path_version_id (self : RemotePath) : option string :=
  match remote self with
  | Some ds => version_id ds
  | None => None
  end.

(** An optional string inside an f-string. *)
Definition format_opt (s : option string) : string :=
  match s with
  | Some s => s
  | None => "None"
  end.

(** [_make_uri_dandi]; strings are held as their UTF-8 bytes, so
    [bytes(path, 'utf8')] keeps them as they are. *)
Definition _make_uri_dandi (path : RemotePath) (dandiset_id version_id : option string)
  : string :=
  let path := path_str path in
  let dandiset := "dandi://dandiset/" +:+ format_opt dandiset_id +:+ "/" in
  match version_id with
  | Some v => if truthy v then dandiset +:+ (v +:+ "/") +:+ path else dandiset +:+ path
  | None => dandiset +:+ path
  end.

Definition as_uri (self : RemotePath) : Result string :=
  match remote self with
  | None => Raise (ValueError "Missing dandiset")
  | Some _ => Ok (_make_uri_dandi self (dandiset_id self) (path_version_id self))
  end.

(** [as_asset]: the asset is named by its path in the store. *)
Definition as_asset (self : RemotePath) : Result string :=
  f ← is_file self;
  if negb f then Raise (ValueError "Not a file")
  else
    match remote self with
    | None => Raise (NoneType_has_no "get_asset_by_path")
    | Some ds => get_asset_by_path ds (path_str self)
    end.

Section Network.

(** The address the archive gives for an asset, and the address a [HEAD]
    request ends at after its redirections. *)
Variable asset_download_url : string -> string.
Variable head_request_url : string -> Result string.

Definition _get_s3_url (url : string) : Result string :=
  url ← head_request_url url;
  if has_char "?" url then
    i ← Str.index "?" url;
    Ok (Str.slice_to url (Z.of_nat i))
  else Ok url.

Definition download_url (self : RemotePath) : Result string :=
  asset ← as_asset self;
  Ok (asset_download_url asset).

Definition s3_url (self : RemotePath) : Result string :=
  url ← download_url self;
  _get_s3_url url.

End Network.

(** ** Glob selectors (lines 37-160) *)

Definition _is_wildcard_pattern (pat : string) : bool :=
  contains "*" pat || contains "?" pat || contains "[" pat.

(** A selector object: its class, the attributes set by its [__init__]
    ([name], or [match]: the pattern as [compile_pattern] compiled it),
    [dironly] and [successor]. *)
Inductive Selector : Type :=
| TerminatingSelector
| PreciseSelector (name : string) (dironly : bool) (successor : Selector)
| WildcardSelector (match_ : string -> bool) (dironly : bool) (successor : Selector)
| RecursiveWildcardSelector (dironly : bool) (successor : Selector).

(** The key under which a path sits in a [set]: what [__hash__] and
    [__eq__] look at. *)
Definition path_key (p : RemotePath) : list string * bool :=
  (_cparts p, bool_decide (_flavour (pathcls p) = DandiFlavour)).

Section Select.

(** [flavour.compile_pattern(pat)], that is
    [re.compile(fnmatch.translate(pat)).fullmatch]: a predicate on names,
    or the [re.error] that [re.compile] raises when the translation of
    the pattern is no regular expression (a reversed range such as
    ["[z-a]"]). *)
Variable compile_pattern : string -> Result (string -> bool).

(** [_make_selector] calls itself, through [_Selector.__init__], on the
    path rebuilt from [pattern_path.parts[1:]]; [fuel] bounds the number
    of nested calls and [None] reports that it did not suffice.
    [_WildcardSelector.__init__] compiles its pattern before
    [_Selector.__init__] builds the successor. *)
Fixpoint _make_selector (fuel : nat) (pattern_path : RemotePath) : option (Result Selector) :=
  match fuel with
  | O => None
  | S fuel =>
      match _parts pattern_path with
      | [] => Some (Raise IndexError_list_index)
      | pat :: rest =>
          match RemotePath__new__ (pathcls pattern_path) (ArgStr <$> rest) (remote pattern_path) with
          | Raise e => Some (Raise e)
          | Ok pattern_path =>
              let init (cls : bool -> Selector -> Selector) :=
                match _parts pattern_path with
                | [] => Some (Ok (cls false TerminatingSelector))
                | _ :: _ =>
                    match _make_selector fuel pattern_path with
                    | Some (Ok successor) => Some (Ok (cls true successor))
                    | other => other
                    end
                end in
              if String.eqb pat "**" then init RecursiveWildcardSelector
              else if contains "**" pat then
                Some (Raise (ValueError "Invalid pattern: '**' can only be an entire path component"))
              else if _is_wildcard_pattern pat then
                match compile_pattern pat with
                | Raise e => Some (Raise e)
                | Ok match_ => init (WildcardSelector match_)
                end
              else init (PreciseSelector pat)
          end
      end
  end.

Fixpoint _iterate_directories (fuel : nat) (parent_path : RemotePath) : Gen RemotePath :=
  match fuel with
  | O => ([], Unfinished)
  | S fuel =>
      Gen.yield parent_path
        (Gen.except_PermissionError
           (Gen.lift (Gen.to_list (scandir parent_path)) (fun entries =>
            Gen.for_list entries (fun entry =>
              Gen.lift (is_dir entry) (fun entry_is_dir =>
              if entry_is_dir : bool then
                let path := _make_child_relpath parent_path (name entry) in
                _iterate_directories fuel path
              else Gen.stop)))))
  end.

(** The filter of [_RecursiveWildcardSelector._select_from]: a path
    passes if it is not in [yielded], which it then joins. *)
Fixpoint yield_new (yielded : gset (list string * bool)) (ps : list RemotePath)
  : list RemotePath :=
  match ps with
  | [] => []
  | p :: ps' =>
      if bool_decide (path_key p ∈ yielded) then yield_new yielded ps'
      else p :: yield_new ({[path_key p]} ∪ yielded) ps'
  end.

Fixpoint _select_from (fuel : nat) (sel : Selector) (parent_path : RemotePath)
  : Gen RemotePath :=
  match sel with
  | TerminatingSelector => Gen.yield parent_path Gen.stop
  | PreciseSelector name dironly successor =>
      Gen.except_PermissionError
        (let path := _make_child_relpath parent_path name in
         Gen.lift (if dironly then is_dir path else exists_ path) (fun found =>
         if found : bool then _select_from fuel successor path else Gen.stop))
  | WildcardSelector match_ dironly successor =>
      Gen.except_PermissionError
        (Gen.lift (Gen.to_list (scandir parent_path)) (fun entries =>
         Gen.for_list entries (fun entry =>
           Gen.lift (if dironly then is_dir entry else Ok true) (fun keep =>
           if keep : bool then
             let name := name entry in
             if match_ name then
               let path := _make_child_relpath parent_path name in
               _select_from fuel successor path
             else Gen.stop
           else Gen.stop))))
  | RecursiveWildcardSelector dironly successor =>
      Gen.except_PermissionError
        (let found :=
           Gen.for_gen (_iterate_directories fuel parent_path)
             (fun starting_point => _select_from fuel successor starting_point) in
         (yield_new ∅ found.1, found.2))
  end.

Definition select_from (fuel : nat) (sel : Selector) (parent_path : RemotePath)
  : Gen RemotePath :=
  match sel with
  | TerminatingSelector =>
      Gen.raise (AttributeError "'_TerminatingSelector' object has no attribute 'select_from'")
  | _ =>
      Gen.lift (is_dir parent_path) (fun d =>
      if d : bool then _select_from fuel sel parent_path else Gen.stop)
  end.

(** The depth of the deepest asset of the store bounds the nesting of
    [_iterate_directories]. *)
Definition depth_of (asset : string) : nat :=
  length (Flavour.parse_parts [asset]).2.

Definition walk_fuel (self : RemotePath) : nat :=
  match remote self with
  | None => 1
  | Some ds => S (max_list (depth_of <$> assets ds))
  end.

Definition run_selector (self pattern : RemotePath) : Gen RemotePath :=
  match _make_selector (S (length (_parts pattern))) pattern with
  | None => ([], Unfinished)
  | Some (Raise e) => Gen.raise e
  | Some (Ok selector) => select_from (walk_fuel self) selector self
  end.

Definition glob (self : RemotePath) (pattern : string) : Gen RemotePath :=
  if negb (truthy pattern) then Gen.raise (ValueError_unacceptable_pattern pattern)
  else
    let '(drv, root, pattern_parts) := Flavour.parse_parts [pattern] in
    if truthy drv || truthy root
    then Gen.raise (NotImplementedError "Non-relative patterns are unsupported")
    else
      Gen.lift (RemotePath__new__ (pathcls self) [ArgStr pattern] (remote self)) (fun pattern =>
      run_selector self pattern).

Definition rglob (self : RemotePath) (pattern : string) : Gen RemotePath :=
  let '(drv, root, pattern_parts) := Flavour.parse_parts [pattern] in
  if truthy drv || truthy root
  then Gen.raise (NotImplementedError "Non-relative patterns are unsupported")
  else
    Gen.lift (RemotePath__new__ (pathcls self) [ArgStr pattern] (remote self)) (fun pattern =>
    Gen.lift (construct (pathcls self) [ArgStr "**"]) (fun stars =>
    Gen.lift (joinpath stars [ArgPath pattern]) (fun pattern =>
    run_selector self pattern))).

End Select.

(** ** Test fixtures *)

(** The store of the spec's scenario. *)
Definition store_sub01 : Dandiset :=
  mkDandiset "000000" None
    ["sub-01/ses-1/a.h5"; "sub-01/ses-1/a.json"; "sub-01/ses-2/b.h5"].

(** The path that [DandiPath(s, dandiset=ds)] constructs. *)
Definition dandi (s : string) (ds : option Dandiset) : RemotePath :=
  let '(drv, root, parts) := Flavour.parse_parts [s] in
  mkPath ClsDandiPath drv root parts ds.

(** A small [fnmatch]: [*] and [?] only. *)
Fixpoint simple_fnmatch_aux (n : nat) (pat s : string) : bool :=
  match n with
  | O => false
  | S n =>
      match pat, s with
      | EmptyString, EmptyString => true
      | EmptyString, String _ _ => false
      | String "*" pat', EmptyString => simple_fnmatch_aux n pat' s
      | String "*" pat', String _ s' =>
          simple_fnmatch_aux n pat' s || simple_fnmatch_aux n pat s'
      | String _ _, EmptyString => false
      | String "?" pat', String _ s' => simple_fnmatch_aux n pat' s'
      | String a pat', String b s' => Ascii.eqb a b && simple_fnmatch_aux n pat' s'
      end
  end.
Definition simple_fnmatch (pat s : string) : bool :=
  simple_fnmatch_aux (S (String.length pat + String.length s)) pat s.

(** A [compile_pattern] for the examples: it refuses a pattern with the
    reversed range ["[z-a]"], as [re.compile] does, and reads any other
    one with [simple_fnmatch]. *)
Definition simple_compile (pat : string) : Result (string -> bool) :=
  if contains "[z-a]" pat then Raise (re_error "bad character range z-a")
  else Ok (simple_fnmatch pat).

Definition store_x : Dandiset :=
  mkDandiset "000001" None
    ["top/x.h5"; "top/a/b/x.h5"; "top/a/b/c/x.h5"; "top/a/y.h5"].

Definition store_conflict : Dandiset :=
  mkDandiset "000002" None ["d/x"; "d/x/y"].

(** ** [slab_info] ([spimio/spiminfo.py], lines 105-168) *)

Module SpimInfo.

(** [pathlib.Path(s).name]: the last parsed part, unless the path is its
    own anchor. *)
Definition Path_name (s : string) : string :=
  let '(drv, root, parts) := Flavour.parse_parts [s] in
  if length parts =? (if anchored drv root then 1 else 0) then ""
  else default "" (last parts).

(** [key, *values = attr.split('-')], then the assignment to
    [asdict[key]]. *)
Definition keys_step (asdict : gmap string (option string)) (attr : string)
  : Result (gmap string (option string)) :=
  match split "-" attr with
  | [] => Raise (ValueError "not enough values to unpack (expected at least 1, got 0)")
  | key :: values =>
      match values with
      | [] => Ok (<[key := None]> asdict)
      | _ => Ok (<[key := Some (Py.join "-" values)]> asdict)
      end
  end.

Fixpoint keys_loop (asdict : gmap string (option string)) (attributes : list string)
  : Result (gmap string (option string)) :=
  match attributes with
  | [] => Ok asdict
  | attr :: rest => asdict ← keys_step asdict attr; keys_loop asdict rest
  end.

(** [name_to_keys] (lines 8-20), for a [str] or a path object. *)
Definition name_to_keys (filename : Arg) : Result (gmap string (option string)) :=
  basename ← match filename with
             | ArgPath p => Ok (name p)
             | ArgStr s => Ok (Path_name s)
             | ArgOther => Raise (TypeError "expected str, bytes or os.PathLike object")
             end;
  first ← item_first (split "." basename);
  keys_loop ∅ (split "_" first).

(** The three files [chunk_info] looks at (lines 38-57): the data file,
    its JSON sidecar and the transforms of the acquisition. *)
Definition sibling (cls : PathClass) (path : RemotePath) (filename : string)
  : Result RemotePath :=
  p ← construct cls [ArgPath (parent path); ArgStr filename];
  Ok (if bool_decide (pathcls path = ClsDandiPath) then set_remote p (remote path) else p).

Definition chunk_files (path : RemotePath) : Result (RemotePath * RemotePath * RemotePath) :=
  if negb (bool_decide (suffix path ∈ [".h5"; ".json"]))
  then Raise (ValueError "Expected h5 or json file")
  else
    '(h5path, jsonpath) ←
      (if String.eqb (suffix path) ".h5"
       then jsonpath ← sibling (pathcls path) path (stem path +:+ ".json"); Ok (path, jsonpath)
       else h5path ← sibling (pathcls path) path (stem path +:+ ".h5"); Ok (h5path, path));
    let basepath := Py.slice_to (split "_" (stem path)) (-1) in
    let basepath := Py.join "_" basepath in
    trfpath ← sibling (pathcls jsonpath) path (basepath +:+ "_transforms.json");
    Ok (h5path, jsonpath, trfpath).

(** What [slab_info] reads from the dictionary [chunk_info] returns.
    [Chunk] and [Shift] are keys that may be missing. *)
Record ChunkInfo (num : Type) : Type := mkChunkInfo {
  ci_Subject : option string;
  ci_SlabIndex : option Z;
  ci_PixelSize : option (list num);
  ci_Shape : option (list Z);
  ci_SampleStaining : option string;
  ci_Chunk : option string;
  ci_Shift : option (list num)
}.
Arguments mkChunkInfo {num}.
Arguments ci_Subject {num}.
Arguments ci_SlabIndex {num}.
Arguments ci_PixelSize {num}.
Arguments ci_Shape {num}.
Arguments ci_SampleStaining {num}.
Arguments ci_Chunk {num}.
Arguments ci_Shift {num}.

Record SlabInfo (num : Type) : Type := mkSlabInfo {
  Stainings : gset (option string);
  Chunks : gset string;
  SlabIndex : option Z;
  Subject : option string;
  PixelSize : option (list num);
  Shape : option (list Z);
  FOV : list num;
  MetaChunks : list (ChunkInfo num)
}.
Arguments FOV {num}.
Arguments MetaChunks {num}.

Section Numbers.

(** Python numbers ([int] and [float] mixed), the conversion of an [int],
    the float [0.] and the operations [slab_info] applies to them. *)
Context {num : Type}.
Variable of_int : Z -> num.
Variable zero : num.
Variable add sub : num -> num -> num.
Variable ltb eqb : num -> num -> bool.

(** [min(x, y)] and [max(x, y)]: the first argument wins ties. *)
Definition py_min (x y : num) : num := if ltb y x then y else x.
Definition py_max (x y : num) : num := if ltb x y then y else x.

Definition truthy_str (s : option string) : bool :=
  match s with Some s => truthy s | None => false end.
Definition truthy_int (n : option Z) : bool :=
  match n with Some n => negb (n =? 0)%Z | None => false end.
Definition truthy_list {A} (l : option (list A)) : bool :=
  match l with Some (_ :: _) => true | _ => false end.

Fixpoint list_eqb (l k : list num) : bool :=
  match l, k with
  | [], [] => true
  | x :: l', y :: k' => eqb x y && list_eqb l' k'
  | _, _ => false
  end.
Definition pixel_size_eqb (a b : option (list num)) : bool :=
  match a, b with
  | None, None => true
  | Some l, Some k => list_eqb l k
  | _, _ => false
  end.

(** [mn1] and [mx1] of one chunk: the corners of its last three
    dimensions, moved by its shift when it has one. *)
Definition chunk_corners (file_info : ChunkInfo num) : Result (list num * list num) :=
  match ci_Shape file_info with
  | None => Raise (TypeError "'NoneType' object is not subscriptable")
  | Some shape =>
      let mn1 := [zero; zero; zero] in
      let mx1 := of_int <$> drop (length shape - 3) shape in
      match ci_Shift file_info with
      | Some off => Ok (zip_with add mn1 off, zip_with add mx1 off)
      | None => Ok (mn1, mx1)
      end
  end.

(** [[f(x, y) if x is not None else y for x, y in zip(acc, new)]]. *)
Definition accumulate (f : num -> num -> num) (acc : list (option num)) (new : list num)
  : list (option num) :=
  zip_with (fun x y => match x with Some x => Some (f x y) | None => Some y end) acc new.

Record LoopState : Type := mkLoopState {
  st_info : SlabInfo num;
  st_stainings : list (option string);
  st_chunks : list string;
  st_mn : list (option num);
  st_mx : list (option num)
}.

Definition loop_body (st : LoopState) (file_info : ChunkInfo num) : Result LoopState :=
  let info := st_info st in
  let meta := MetaChunks info ++ [file_info] in
  if truthy_str (Subject _ info)
     && negb (bool_decide (ci_Subject file_info = Subject _ info))
  then Raise (ValueError "Several subjects in the same folder")
  else
  let subject := ci_Subject file_info in
  if truthy_int (SlabIndex _ info)
     && negb (bool_decide (ci_SlabIndex file_info = SlabIndex _ info))
  then Raise (ValueError "Several slabs in the same folder")
  else
  let slab_index := ci_SlabIndex file_info in
  if truthy_list (PixelSize _ info) && truthy_list (ci_PixelSize file_info)
     && negb (pixel_size_eqb (ci_PixelSize file_info) (PixelSize _ info))
  then Raise (ValueError "Pixel size not consistent:")
  else
  let pixel_size :=
    if truthy_list (ci_PixelSize file_info) then ci_PixelSize file_info
    else PixelSize _ info in
  if truthy_list (Shape _ info)
     && negb (bool_decide (ci_Shape file_info = Shape _ info))
  then Raise (ValueError "Shape not consistent")
  else
  let shape := ci_Shape file_info in
  '(mn1, mx1) ← chunk_corners file_info;
  let mn := accumulate py_min (st_mn st) mn1 in
  let mx := accumulate py_max (st_mx st) mx1 in
  match ci_Chunk file_info with
  | None => Raise (KeyError "Chunk")
  | Some chunk =>
      Ok (mkLoopState
            (mkSlabInfo num (Stainings _ info) (Chunks _ info) slab_index subject
               pixel_size shape (FOV info) meta)
            (st_stainings st ++ [ci_SampleStaining file_info])
            (st_chunks st ++ [chunk]) mn mx)
  end.

Fixpoint loop (st : LoopState) (h5files : list (ChunkInfo num)) : Result LoopState :=
  match h5files with
  | [] => Ok st
  | file_info :: rest => st' ← loop_body st file_info; loop st' rest
  end.

(** [[mx1 - mn1 for mx1, mn1 in zip(mx, mn)]]: the two names are the
    targets of the comprehension, bound to the entries of [mx] and
    [mn]. *)
Fixpoint fov_of (mx mn : list (option num)) : Result (list num) :=
  match mx, mn with
  | Some mx1 :: mx', Some mn1 :: mn' => fov ← fov_of mx' mn'; Ok (sub mx1 mn1 :: fov)
  | _ :: _, _ :: _ =>
      Raise (TypeError "unsupported operand type(s) for -: 'NoneType' and 'NoneType'")
  | _, _ => Ok []
  end.

Definition initial : LoopState :=
  mkLoopState (mkSlabInfo num ∅ ∅ None None None None [] [])
    [] [] [None; None; None] [None; None; None].

(** [slab_info], given what [chunk_info] returns for each file that
    [path.glob('*.h5')] yields, in order. *)
Definition slab_info (h5files : list (ChunkInfo num)) : Result (SlabInfo num) :=
  st ← loop initial h5files;
  fov ← fov_of (st_mx st) (st_mn st);
  let info := st_info st in
  Ok (mkSlabInfo num (list_to_set (st_stainings st)) (list_to_set (st_chunks st))
        (SlabIndex _ info) (Subject _ info) (PixelSize _ info) (Shape _ info)
        fov (MetaChunks info)).

(** The reading under test: the extent of the chunk iterated last,
    [mx1 - mn1] entry by entry. *)
Definition fov_of_last_chunk (h5files : list (ChunkInfo num)) : Result (list num) :=
  match last h5files with
  | None => Raise (ValueError "no chunk")
  | Some file_info =>
      '(mn1, mx1) ← chunk_corners file_info;
      Ok (zip_with sub mx1 mn1)
  end.

(** The accumulated bound of one axis: [f] folded over that axis'
    corner of every chunk, in order. *)
Definition axis_bound (f : num -> num -> num) (corners : list (list num)) (i : nat)
  : option num :=
  match corners with
  | [] => None
  | c :: rest =>
      x ← c !! i;
      xs ← mapM (fun c' => c' !! i) rest;
      Some (fold_left f xs x)
  end.

End Numbers.

(** Two chunks of one slab, the second shifted by 5 along every axis. *)
Definition chunk_a : ChunkInfo Z :=
  mkChunkInfo (Some "01") (Some 1%Z) None (Some [10; 10; 10]%Z) (Some "NeuN") (Some "1") None.
Definition chunk_b : ChunkInfo Z :=
  mkChunkInfo (Some "01") (Some 1%Z) None (Some [10; 10; 10]%Z) (Some "NeuN") (Some "2")
    (Some [5; 5; 5]%Z).

Definition slab_info_Z := slab_info (fun z : Z => z) 0%Z Z.add Z.sub Z.ltb Z.eqb.
Definition fov_of_last_chunk_Z := fov_of_last_chunk (fun z : Z => z) 0%Z Z.add Z.sub.

End SpimInfo.

(** ** Notions used in the statements *)

Definition wf_segb (s : string) : bool :=
  Flavour.keep_name s && negb (has_char Flavour.sep_char s).

(** The invariant of the triples that [parse_parts] returns: no drive, a
    root among [""], ["/"] and ["//"] that heads the parts when present,
    and names that are neither empty nor ["."] and hold no separator. *)
Definition wf_tripleb (drv root : string) (parts : list string) : bool :=
  String.eqb drv "" &&
  (if truthy root
   then (String.eqb root "/" || String.eqb root "//") &&
        match parts with
        | r :: segs => String.eqb r root && forallb wf_segb segs
        | [] => false
        end
   else forallb wf_segb parts).

Definition wf_path (p : RemotePath) : Prop :=
  wf_tripleb (_drv p) (_root p) (_parts p) = true.

(** A pattern string is relative when it does not start with the separator. *)
Definition relative_pattern (s : string) : bool := negb (String.prefix "/" s).

Definition bad_component (pat : string) : bool :=
  negb (String.eqb pat "**") && contains "**" pat.

Definition invalid_pattern : Error :=
  ValueError "Invalid pattern: '**' can only be an entire path component".

(** The components that [_make_selector] hands to [_WildcardSelector]:
    those with a wildcard character and without ["**"]. *)
Definition wildcard_component (pat : string) : bool :=
  negb (contains "**" pat) && _is_wildcard_pattern pat.

(** The pattern of a wildcard component compiles. *)
Definition compiles (compile_pattern : string -> Result (string -> bool)) (pat : string)
  : Prop :=
  wildcard_component pat = true -> ∃ m, compile_pattern pat = Ok m.

(** The predicate that a pattern compiles into (none, if it does not
    compile). *)
Definition matcher (compile_pattern : string -> Result (string -> bool)) (pat : string)
  : string -> bool :=
  match compile_pattern pat with
  | Ok m => m
  | Raise _ => fun _ => false
  end.

(** The error that stops the construction of the selector chain, if any:
    that of the first component, in order, that is bad or does not
    compile. *)
Fixpoint refusal (compile_pattern : string -> Result (string -> bool)) (parts : list string)
  : option Error :=
  match parts with
  | [] => None
  | pat :: rest =>
      if bad_component pat then Some invalid_pattern
      else if wildcard_component pat then
        match compile_pattern pat with
        | Raise e => Some e
        | Ok _ => refusal compile_pattern rest
        end
      else refusal compile_pattern rest
  end.

(** The chain that [_make_selector] builds from the components of a
    pattern that it does not refuse. *)
Fixpoint chain_of (compile_pattern : string -> Result (string -> bool)) (parts : list string)
  : Selector :=
  match parts with
  | [] => TerminatingSelector
  | pat :: rest =>
      let dironly := match rest with [] => false | _ => true end in
      if String.eqb pat "**" then RecursiveWildcardSelector dironly (chain_of compile_pattern rest)
      else if _is_wildcard_pattern pat
      then WildcardSelector (matcher compile_pattern pat) dironly (chain_of compile_pattern rest)
      else PreciseSelector pat dironly (chain_of compile_pattern rest)
  end.

(** What is left of [q] after the prefix [p], if [q] starts with [p]. *)
Fixpoint below (p q : list string) : option (list string) :=
  match p, q with
  | [], _ => Some q
  | x :: p', y :: q' => if decide (x = y) then below p' q' else None
  | _ :: _, [] => None
  end.

(** A child of a directory, as the listing describes it: a file (an asset
    one level below) or a pseudo-directory (the first remaining segment of
    an asset further below). *)
Inductive Child : Type :=
| File (name : string)
| Dir (name : string).

Definition child_name (c : Child) : string :=
  match c with File n | Dir n => n end.

Definition classify (self_parts : list string) (asset : string) : option Child :=
  match below self_parts (Flavour.parse_parts [asset]).2 with
  | Some [name] => Some (File name)
  | Some (seg :: _ :: _) => Some (Dir seg)
  | _ => None
  end.

(** The listing by the words of the specification: every file child where
    its asset stands, and a pseudo-directory where its segment is seen for
    the first time. *)
Fixpoint children_from (self_parts : list string) (seen : list string) (listing : list string)
  : list Child :=
  match listing with
  | [] => []
  | asset :: listing' =>
      match classify self_parts asset with
      | Some (File name) => File name :: children_from self_parts seen listing'
      | Some (Dir seg) =>
          if bool_decide (seg ∈ seen) then children_from self_parts seen listing'
          else Dir seg :: children_from self_parts (seen ++ [seg]) listing'
      | None => children_from self_parts seen listing'
      end
  end.

Definition children_of (self : RemotePath) (ds : Dandiset) : list Child :=
  children_from (_parts self) [] (get_assets_with_path_prefix ds (path_str self)).

(** An asset path is relative and names something. *)
Definition asset_ok (asset : string) : bool :=
  relative_pattern asset && negb (bool_decide ((Flavour.parse_parts [asset]).2 = [])).

Definition store_ok (ds : Dandiset) : bool := forallb asset_ok (assets ds).

Inductive IterKind : Type := Iterdir | Scandir.

(** A value yielded by [iterdir] (a [str]) or by [scandir] (a path). *)
Inductive Yielded : Type :=
| YStr (s : string)
| YPath (p : RemotePath).

Definition iterate_children (kind : IterKind) (self : RemotePath) : Gen Yielded :=
  match kind with
  | Iterdir => Gen.map YStr (iterdir self)
  | Scandir => Gen.map YPath (scandir self)
  end.

Definition dir_names (cs : list Child) : list string :=
  omap (fun c => match c with Dir n => Some n | File _ => None end) cs.

Definition file_names (cs : list Child) : list string :=
  omap (fun c => match c with File n => Some n | Dir _ => None end) cs.

(** What the two iterators yield for a child. *)
Definition yielded_for (kind : IterKind) (self : RemotePath) (c : Child) : Yielded :=
  match kind with
  | Iterdir => YStr (child_name c)
  | Scandir => YPath (_make_child_relpath self (child_name c))
  end.

(** The distinct elements of a list, in the order of their first
    occurrences. *)
Definition first_seen_from (seen : list string) (l : list string) : list string :=
  fold_left (fun acc x => if bool_decide (x ∈ acc) then acc else acc ++ [x]) l seen.

Definition first_seen (l : list string) : list string := first_seen_from [] l.

(** The selector reaches a recursive wildcard through exact names only. *)
Fixpoint dedups (sel : Selector) : bool :=
  match sel with
  | RecursiveWildcardSelector _ _ => true
  | PreciseSelector _ _ successor => dedups successor
  | _ => false
  end.

(** The same, read off the components of a pattern. *)
Fixpoint stars_after_exact (parts : list string) : bool :=
  match parts with
  | [] => false
  | pat :: rest =>
      if String.eqb pat "**" then true
      else if _is_wildcard_pattern pat then false
      else stars_after_exact rest
  end.

Definition finished {A} (g : Gen A) : Prop := g.2 ≠ Unfinished.

(** The paths that a walk from a path bound to [ds] passes around. *)
Definition bound_to (ds : Dandiset) (p : RemotePath) : Prop :=
  wf_path p ∧ pathcls p = ClsDandiPath ∧ remote p = Some ds.

Definition max_depth (ds : Dandiset) : nat := max_list (depth_of <$> assets ds).

(** Every exact name of the chain is a well-formed segment. *)
Fixpoint wf_selector (sel : Selector) : bool :=
  match sel with
  | TerminatingSelector => true
  | PreciseSelector name _ successor => wf_segb name && wf_selector successor
  | WildcardSelector _ _ successor => wf_selector successor
  | RecursiveWildcardSelector _ successor => wf_selector successor
  end.

Definition parts_of (asset : string) : list string := (Flavour.parse_parts [asset]).2.

Definition is_prefixb (p q : list string) : bool :=
  match below p q with Some _ => true | None => false end.

(** No list of the sequence starts with another one of it (nor equals it). *)
Fixpoint prefix_free (qs : list (list string)) : bool :=
  match qs with
  | [] => true
  | q :: qs' =>
      forallb (fun q' => negb (is_prefixb q q') && negb (is_prefixb q' q)) qs'
      && prefix_free qs'
  end.

(** The asset paths are relative, and none is another one or a directory
    above another one. *)
Definition tree_like (ds : Dandiset) : bool :=
  store_ok ds && prefix_free (parts_of <$> assets ds).

(** Below a path: the parts extend it and the class is the same. *)
Definition extends (p q : RemotePath) : Prop :=
  _parts p `prefix_of` _parts q ∧ pathcls q = pathcls p.

(** ** Notions used in the further properties *)

(** The first handle among the path arguments. *)
Definition first_remote (args : list Arg) : option Dandiset :=
  foldr (fun a acc => match a with ArgPath q => or_else (remote q) acc | _ => acc end)
    None args.

(** Whether the name splits into a stem and a suffix. *)
Definition has_suffix_at (nm : string) : bool :=
  (0 <? Str.rfind "." nm)%Z && (Str.rfind "." nm <? Z.of_nat (String.length nm) - 1)%Z.


(** [q] lies strictly below [p]: the parts of [q] are those of [p]
    followed by at least one more. *)
Definition strictly_below (P Q : list string) : bool :=
  match below P Q with
  | Some (_ :: _) => true
  | _ => false
  end.

(** An asset path is written the way [str] writes its parsed form: no
    doubled or trailing separator, no [.] component. *)
Definition normal_asset (a : string) : bool :=
  asset_ok a && String.eqb (path_str (dandi a None)) a.

Definition normal_store (ds : Dandiset) : bool := forallb normal_asset (assets ds).

(** A path that a walk may start from or pass on: bound to the store, and
    there. *)
Definition present (ds : Dandiset) (p : RemotePath) : Prop :=
  bound_to ds p ∧ exists_ p = Ok true.

(** The version of a dandiset as [_make_uri_dandi] writes it: the version
    and a slash, or nothing when the version is [None] or empty. *)
Definition version_segment (ds : Dandiset) : string :=
  match version_id ds with
  | Some v => if truthy v then v +:+ "/" else ""
  | None => ""
  end.

(** An entity of a file name: a key alone, or a key and a value joined
    by a dash. *)
Definition render_attr (kv : string * option string) : string :=
  match kv.2 with
  | Some v => kv.1 +:+ "-" +:+ v
  | None => kv.1
  end.

(** The entities of a file name, joined by underscores. *)
Definition render_name (kvs : list (string * option string)) : string :=
  Py.join "_" (render_attr <$> kvs).

(** A key holds no dash, underscore or dot; a value no underscore or
    dot. *)
Definition entity_ok (kv : string * option string) : bool :=
  negb (has_char "-" kv.1) && negb (has_char "_" kv.1) && negb (has_char "." kv.1) &&
  match kv.2 with
  | Some v => negb (has_char "_" v) && negb (has_char "." v)
  | None => true
  end.

(** The path with its last part replaced, as [with_name] and
    [with_suffix] build it. *)
Definition with_last (p : RemotePath) (nm : string) : RemotePath :=
  mkPath (pathcls p) (_drv p) (_root p) (Py.slice_to (_parts p) (-1) ++ [nm]) (remote p).

(** The name before the last underscore-separated piece of the stem. *)
Definition basepath_of (st : string) : string :=
  Py.join "_" (Py.slice_to (split "_" st) (-1)).


(** What two chunks of a folder that follow one another have passed: the
    checks of [slab_info] on subject, slab index and shape. *)
Definition chunks_agree {num : Type} (a b : SpimInfo.ChunkInfo num) : Prop :=
  (SpimInfo.truthy_str (SpimInfo.ci_Subject a) = true ->
   SpimInfo.ci_Subject b = SpimInfo.ci_Subject a) ∧
  (SpimInfo.truthy_int (SpimInfo.ci_SlabIndex a) = true ->
   SpimInfo.ci_SlabIndex b = SpimInfo.ci_SlabIndex a) ∧
  (SpimInfo.truthy_list (SpimInfo.ci_Shape a) = true ->
   SpimInfo.ci_Shape b = SpimInfo.ci_Shape a).

(** A generator that ran to its end without raising. *)
Definition returned {A} (g : Gen A) : Prop := g.2 = Returned.

Definition is_terminating (sel : Selector) : bool :=
  match sel with
  | TerminatingSelector => true
  | _ => false
  end.

(** [dironly] as [_Selector.__init__] sets it: true exactly when a
    selector follows. *)
Fixpoint dironly_ok (sel : Selector) : bool :=
  match sel with
  | TerminatingSelector => true
  | PreciseSelector _ d successor
  | WildcardSelector _ d successor
  | RecursiveWildcardSelector d successor =>
      Bool.eqb d (negb (is_terminating successor)) && dironly_ok successor
  end.

(** A directory of the store: a path bound to it for which [is_dir]
    answers [True]. *)
Definition directory (ds : Dandiset) (p : RemotePath) : Prop :=
  bound_to ds p ∧ is_dir p = Ok true.

(** * Properties *)

(** ** Worked examples *)

Example parse_parts_ex1 :
  Flavour.parse_parts ["sub-01/ses-1//a.h5"] = ("", "", ["sub-01"; "ses-1"; "a.h5"]).
Proof. reflexivity. Qed.

Example parse_parts_ex2 :
  Flavour.parse_parts ["a"; "/b/./c/"; "d"] = ("", "/", ["/"; "b"; "c"; "d"]).
Proof. reflexivity. Qed.

Example parse_parts_ex3 :
  Flavour.parse_parts ["//x"; ""; "."] = ("", "//", ["//"; "x"]).
Proof. reflexivity. Qed.

Example iterdir_sub01 :
  iterdir (dandi "sub-01" (Some store_sub01)) = (["ses-1"; "ses-2"], Returned).
Proof. vm_compute. reflexivity. Qed.

Example scandir_sub01 :
  Gen.map path_str (scandir (dandi "sub-01" (Some store_sub01)))
  = (["sub-01/ses-1"; "sub-01/ses-2"], Returned).
Proof. vm_compute. reflexivity. Qed.

Example glob_sub01 :
  Gen.map path_str (glob simple_compile (dandi "sub-01" (Some store_sub01)) "**/*.h5")
  = (["sub-01/ses-1/a.h5"; "sub-01/ses-2/b.h5"], Returned).
Proof. vm_compute. reflexivity. Qed.

Example glob_x :
  Gen.map path_str (glob simple_compile (dandi "top" (Some store_x)) "**/x.h5")
  = (["top/x.h5"; "top/a/b/x.h5"; "top/a/b/c/x.h5"], Returned).
Proof. vm_compute. reflexivity. Qed.

Example rglob_x :
  Gen.map path_str (rglob simple_compile (dandi "top" (Some store_x)) "x.h5")
  = (["top/x.h5"; "top/a/b/x.h5"; "top/a/b/c/x.h5"], Returned).
Proof. vm_compute. reflexivity. Qed.

Example glob_conflict :
  Gen.map path_str (glob simple_compile (dandi "d" (Some store_conflict)) "*/**")
  = (["d/x"; "d/x"], Returned).
Proof. vm_compute. reflexivity. Qed.

Example rglob_empty :
  Gen.map path_str (rglob simple_compile (dandi "top" (Some store_x)) "")
  = (["top"; "top/a"; "top/a/b"; "top/a/b/c"], Returned).
Proof. vm_compute. reflexivity. Qed.

(** ** Strings and the parser *)

Lemma truthy_false s : truthy s = false -> s = "".
Proof.
  unfold truthy. intros H. apply negb_false_iff in H. by apply String.eqb_eq in H.
Qed.

Lemma truthy_true s : truthy s = true <-> s ≠ "".
Proof.
  unfold truthy. rewrite negb_true_iff. by rewrite String.eqb_neq.
Qed.

Lemma split_nonempty c s : split c s ≠ [].
Proof.
  destruct s as [|a s]; simpl; [done|].
  destruct (Ascii.eqb a c); [done|]. by destruct (split c s).
Qed.

Lemma split_no_sep c s : Forall (fun x => has_char c x = false) (split c s).
Proof.
  induction s as [|a s IH]; simpl.
  - by constructor.
  - destruct (Ascii.eqb a c) eqn:Hac.
    + by constructor.
    + destruct (split c s) as [|h t].
      * constructor; [|done]. simpl. by rewrite Hac.
      * inversion IH; subst. constructor; [|done]. simpl. by rewrite Hac.
Qed.

Lemma split_without_sep c s : has_char c s = false -> split c s = [s].
Proof.
  induction s as [|a s IH]; simpl; [done|].
  intros [Hac Hs]%orb_false_iff. rewrite Hac, (IH Hs). done.
Qed.

Lemma wf_segb_spec s :
  wf_segb s = true <-> s ≠ "" ∧ s ≠ "." ∧ has_char Flavour.sep_char s = false.
Proof.
  unfold wf_segb, Flavour.keep_name.
  rewrite !andb_true_iff, !negb_true_iff, truthy_true, String.eqb_neq. tauto.
Qed.

Lemma wf_tripleb_spec drv root parts :
  wf_tripleb drv root parts = true <->
  drv = "" ∧
  ((root = "" ∧ forallb wf_segb parts = true) ∨
   ((root = "/" ∨ root = "//") ∧ ∃ segs, parts = root :: segs ∧ forallb wf_segb segs = true)).
Proof.
  unfold wf_tripleb. rewrite andb_true_iff, String.eqb_eq.
  destruct (truthy root) eqn:Hr.
  - apply truthy_true in Hr.
    rewrite andb_true_iff, orb_true_iff, !String.eqb_eq. split.
    + intros (-> & Hroot & Hp). split; [done|]. right. split; [done|].
      destruct parts as [|r segs]; [done|].
      apply andb_true_iff in Hp as [->%String.eqb_eq Hs]. eauto.
    + intros (-> & [[? _]|[Hroot (segs & -> & Hs)]]); [done|].
      split; [done|]. split; [done|]. by rewrite String.eqb_refl.
  - apply truthy_false in Hr. subst root. split.
    + intros [-> H]. auto.
    + intros (-> & [[_ H]|[[?|?] _]]); done.
Qed.

Lemma splitroot_spec part d r rel :
  Flavour.splitroot part = (d, r, rel) ->
  d = "" ∧ ((r = "" ∧ rel = part) ∨ r = "/" ∨ r = "//").
Proof.
  unfold Flavour.splitroot. destruct part as [|a part]; [naive_solver|].
  destruct (Ascii.eqb a Flavour.sep_char); [|naive_solver].
  destruct (_ =? 2); naive_solver.
Qed.

Lemma splitroot_seg s :
  wf_segb s = true -> Flavour.splitroot s = ("", "", s).
Proof.
  intros (Hne & _ & Hs)%wf_segb_spec. destruct s as [|a s]; [done|].
  simpl in *. apply orb_false_iff in Hs as [-> _]. done.
Qed.

Lemma find_drive_empty it : Flavour.find_drive "" it = "".
Proof.
  induction it as [|part it IH]; simpl; [done|].
  destruct (truthy part); [|done].
  destruct (Flavour.splitroot part) as [[d r] rel] eqn:Hs.
  apply splitroot_spec in Hs as [-> _]. simpl. done.
Qed.

Lemma append_names_wf rel : forallb wf_segb (Flavour.append_names rel) = true.
Proof.
  unfold Flavour.append_names. destruct (has_char Flavour.sep_char rel) eqn:Hc.
  - apply forallb_forall. intros x Hx%list_elem_of_In.
    apply list_elem_of_filter in Hx as [Hk Hx].
    rewrite elem_of_reverse in Hx.
    pose proof (split_no_sep Flavour.sep_char rel) as Hall.
    rewrite Forall_forall in Hall. unfold wf_segb. by rewrite Hk, (Hall _ Hx).
  - destruct (Flavour.keep_name rel) eqn:Hk; simpl; [|done].
    unfold wf_segb. by rewrite Hk, Hc.
Qed.

Lemma append_names_seg s : wf_segb s = true -> Flavour.append_names s = [s].
Proof.
  unfold wf_segb, Flavour.append_names.
  intros [Hk ->%negb_true_iff]%andb_true_iff. by rewrite Hk.
Qed.

Lemma forallb_app_iff {A} (f : A -> bool) l1 l2 :
  forallb f (l1 ++ l2) = true <-> forallb f l1 = true ∧ forallb f l2 = true.
Proof. rewrite forallb_app, andb_true_iff. done. Qed.

Lemma parse_loop_wf it parsed drv root parsed' :
  Flavour.parse_loop it "" "" parsed = (drv, root, parsed') ->
  drv = "" ∧ (root = "" ∨ root = "/" ∨ root = "//") ∧
  ∃ extra, parsed' = parsed ++ extra ∧ forallb wf_segb extra = true.
Proof.
  revert parsed. induction it as [|part it IH]; intros parsed; simpl.
  - intros [= <- <- <-]. split; [done|]. split; [by left|].
    exists []. by rewrite app_nil_r.
  - destruct (truthy part); [|apply IH].
    destruct (Flavour.splitroot part) as [[d r] rel] eqn:Hs.
    apply splitroot_spec in Hs as [-> Hr]. simpl.
    destruct (truthy r) eqn:Htr.
    + rewrite find_drive_empty. intros [= <- <- <-].
      split; [done|]. split; [destruct Hr as [[-> _]|Hr]; [done|by right]|].
      exists (Flavour.append_names rel). split; [done|]. apply append_names_wf.
    + apply truthy_false in Htr as ->. intros H.
      apply IH in H as (-> & Hroot & extra & -> & Hex).
      split; [done|]. split; [done|].
      exists (Flavour.append_names rel ++ extra). rewrite app_assoc. split; [done|].
      apply forallb_app_iff. split; [apply append_names_wf|done].
Qed.

Lemma forallb_reverse {A} (f : A -> bool) l :
  forallb f (reverse l) = forallb f l.
Proof.
  induction l as [|x l IH]; [done|].
  rewrite reverse_cons, forallb_app, IH. simpl. rewrite andb_true_r. apply andb_comm.
Qed.

(** Whatever it is given, [parse_parts] returns a well-formed triple. *)
Lemma parse_parts_wf l drv root parts :
  Flavour.parse_parts l = (drv, root, parts) -> wf_tripleb drv root parts = true.
Proof.
  unfold Flavour.parse_parts.
  destruct (Flavour.parse_loop (reverse l) "" "" []) as [[d r] parsed] eqn:Hl.
  apply parse_loop_wf in Hl as (-> & Hr & extra & -> & Hex). simpl.
  intros [= <- <- <-]. apply wf_tripleb_spec. split; [done|].
  destruct Hr as [->|Hr].
  - left. simpl. by rewrite forallb_reverse.
  - right. split; [done|]. exists (reverse extra).
    assert (truthy r = true) as -> by (destruct Hr as [->| ->]; done).
    rewrite reverse_app. simpl. by rewrite forallb_reverse.
Qed.

Lemma parse_loop_segs segs rest parsed :
  forallb wf_segb segs = true ->
  Flavour.parse_loop (segs ++ rest) "" "" parsed
  = Flavour.parse_loop rest "" "" (parsed ++ segs).
Proof.
  revert parsed. induction segs as [|s segs IH]; intros parsed Hs; simpl.
  - by rewrite app_nil_r.
  - simpl in Hs. apply andb_true_iff in Hs as [Hs Hsegs].
    assert (truthy s = true) as -> by (apply truthy_true; apply wf_segb_spec in Hs; tauto).
    rewrite (splitroot_seg _ Hs), (append_names_seg _ Hs). simpl.
    rewrite (IH _ Hsegs). by rewrite <- app_assoc.
Qed.

(** On a well-formed triple's parts, [parse_parts] changes nothing. *)
Lemma parse_parts_id drv root parts :
  wf_tripleb drv root parts = true ->
  Flavour.parse_parts parts = (drv, root, parts).
Proof.
  intros (-> & [[-> Hs]|[Hr (segs & -> & Hs)]])%wf_tripleb_spec; unfold Flavour.parse_parts.
  - rewrite <- (app_nil_r (reverse parts)), parse_loop_segs by by rewrite forallb_reverse.
    simpl. by rewrite reverse_involutive.
  - rewrite reverse_cons, parse_loop_segs by by rewrite forallb_reverse.
    assert (Flavour.parse_loop [root] "" "" ([] ++ reverse segs)
            = ("", root, reverse segs)) as ->.
    { destruct Hr as [-> | ->]; cbn; by rewrite app_nil_r. }
    assert (truthy "" || truthy root = true) as ->
      by (destruct Hr as [-> | ->]; done).
    by rewrite reverse_app, reverse_involutive.
Qed.

Lemma parse_parts_idem l :
  Flavour.parse_parts (Flavour.parse_parts l).2 = Flavour.parse_parts l.
Proof.
  destruct (Flavour.parse_parts l) as [[drv root] parts] eqn:H.
  simpl. apply parse_parts_id. by eapply parse_parts_wf.
Qed.

(** ** Construction *)

Lemma collect_args_paths_strs args rem parts :
  ArgOther ∉ args -> ∃ rem' parts', collect_args args rem parts = Ok (rem', parts').
Proof.
  revert rem parts. induction args as [|a args IH]; intros rem parts Hn; simpl.
  - eauto.
  - destruct a as [s|q|].
    + apply IH. set_solver.
    + apply IH. set_solver.
    + exfalso. apply Hn. left.
Qed.

Lemma collect_args_raises args rem parts e :
  collect_args args rem parts = Raise e -> ArgOther ∈ args.
Proof.
  revert rem parts. induction args as [|a args IH]; intros rem parts; simpl; [done|].
  destruct a as [s|q|].
  - intros H%IH. by right.
  - intros H%IH. by right.
  - intros _. left.
Qed.

Lemma DandiPath_new_str s ds :
  DandiPath__new__ ClsDandiPath [ArgStr s] false ds = Ok (dandi s ds).
Proof.
  unfold dandi, DandiPath__new__, RemotePath__new__, _from_parts, _parse_args_with_remote.
  simpl. destruct (Flavour.parse_parts [s]) as [[drv root] parts].
  by destruct ds.
Qed.

Lemma RemotePath_new_str cls s r :
  RemotePath__new__ cls [ArgStr s] r = Ok (dandi s r).
Proof.
  unfold dandi, RemotePath__new__, _from_parts, _parse_args_with_remote.
  simpl. by destruct (Flavour.parse_parts [s]) as [[drv root] parts].
Qed.

Lemma construct_str cls s : construct cls [ArgStr s] = Ok (dandi s None).
Proof. destruct cls; [apply RemotePath_new_str|apply DandiPath_new_str]. Qed.

(** Joining a well-formed relative path appends its parts. *)
Lemma joinpath_relative self other :
  wf_path other -> _root other = "" ->
  joinpath self [ArgPath other]
  = Ok (mkPath (pathcls self) (_drv self) (_root self) (_parts self ++ _parts other)
          (or_else (remote self) (remote other))).
Proof.
  intros Hwf Hroot. unfold joinpath, _make_child, _parse_args_with_remote. simpl.
  rewrite (parse_parts_id _ _ _ Hwf).
  apply wf_tripleb_spec in Hwf as [-> _]. rewrite Hroot. done.
Qed.

Lemma dandi_wf s ds : wf_path (dandi s ds).
Proof.
  unfold dandi, wf_path.
  destruct (Flavour.parse_parts [s]) as [[drv root] parts] eqn:H. simpl.
  by eapply parse_parts_wf.
Qed.

(** Well-formedness is the invariant of path objects: the constructor
    establishes it, and [joinpath] and [parent] keep it. *)
Lemma RemotePath_new_wf cls args r p :
  RemotePath__new__ cls args r = Ok p -> wf_path p.
Proof.
  unfold RemotePath__new__, _from_parts, _parse_args_with_remote.
  destruct (collect_args args None []) as [[rem parts]|e]; [|done]. simpl.
  destruct (Flavour.parse_parts parts) as [[drv root] parts'] eqn:Hp. simpl.
  intros [= <-]. unfold wf_path. simpl. by eapply parse_parts_wf.
Qed.

Lemma joinpath_wf self args p :
  wf_path self -> joinpath self args = Ok p -> wf_path p.
Proof.
  intros Hself. unfold joinpath, _make_child, _parse_args_with_remote.
  destruct (collect_args args None []) as [[rem parts]|e]; [|done]. simpl.
  destruct (Flavour.parse_parts parts) as [[drv root] parts2] eqn:Hp. simpl.
  apply parse_parts_wf in Hp. pose proof Hp as Hp'.
  apply wf_tripleb_spec in Hp' as (-> & [[-> Hs]|[Hr (segs & -> & Hs)]]);
    unfold Flavour.join_parsed_parts; cbn [truthy String.eqb negb andb].
  - intros [= <-]. unfold wf_path in *. cbn [_drv _root _parts _from_parsed_parts].
    apply wf_tripleb_spec in Hself as (Hd & [[Hr Hs']|[Hr (segs & Hparts & Hs')]]);
      apply wf_tripleb_spec; (split; [done|]).
    + left. split; [done|]. by apply forallb_app_iff.
    + right. split; [done|]. exists (segs ++ parts2). rewrite Hparts. split; [done|].
      by apply forallb_app_iff.
  - assert (truthy root = true) as -> by (destruct Hr as [-> | ->]; done).
    pose proof Hself as Hd. unfold wf_path in Hd. apply wf_tripleb_spec in Hd as [Hd _].
    rewrite Hd. cbn [truthy String.eqb negb]. intros [= <-]. done.
Qed.

Lemma parent_wf p : wf_path p -> wf_path (parent p).
Proof.
  intros Hp. unfold parent.
  destruct ((length (_parts p) =? 1) && (truthy (_drv p) || truthy (_root p))) eqn:Htop;
    [done|].
  unfold wf_path, _from_parsed_parts, Py.slice_to in *. cbn [_drv _root _parts].
  change (-1 <? 0)%Z with true. cbv iota.
  replace (Z.to_nat (Z.of_nat (length (_parts p)) + -1)) with (length (_parts p) - 1) by lia.
  apply wf_tripleb_spec in Hp as (Hd & [[Hr Hs]|[Hr (segs & Hparts & Hs)]]);
    apply wf_tripleb_spec; (split; [done|]).
  - left. split; [done|]. rewrite <- (take_drop (length (_parts p) - 1) (_parts p)) in Hs.
    by apply forallb_app_iff in Hs as [? _].
  - right. split; [done|]. rewrite Hparts in Htop |- *. cbn [length] in *.
    assert (truthy (_root p) = true) as Hroot by (destruct Hr as [-> | ->]; done).
    rewrite Hroot, orb_true_r, andb_true_r in Htop. apply Nat.eqb_neq in Htop.
    destruct segs as [|x segs]; [done|]. cbn [length].
    replace (S (S (length segs)) - 1) with (S (length (x :: segs) - 1)) by (simpl; lia).
    cbn [take]. eexists. split; [done|].
    rewrite <- (take_drop (length (x :: segs) - 1) (x :: segs)) in Hs.
    by apply forallb_app_iff in Hs as [? _].
Qed.

(** C10.  The public constructor [RemotePath.__new__(cls, *args, remote=None)]
    sets the [remote] attribute of the path it builds to its [remote] keyword
    and builds a [DandiPath] whichever class is invoked; it fails only on an
    argument that is neither a string nor a path.  In particular
    [RemotePath(p)] drops the handle of [p] (which [_from_parts] alone would
    have kept) and keeps its parts. *)
Theorem RemotePath_new_sets_remote_keyword :
  (∀ cls args r,
     match RemotePath__new__ cls args r with
     | Ok q => remote q = r ∧ pathcls q = ClsDandiPath
     | Raise _ => ArgOther ∈ args
     end) ∧
  (∀ cls p,
     ∃ q, construct cls [ArgPath p] = Ok q ∧
          remote q = None ∧ pathcls q = ClsDandiPath ∧
          (_drv q, _root q, _parts q) = Flavour.parse_parts (_parts p) ∧
          (remote <$> _from_parts ClsDandiPath [ArgPath p] None) = Ok (remote p)).
Proof.
  split.
  - intros cls args r. unfold RemotePath__new__, _from_parts, _parse_args_with_remote.
    destruct (collect_args args None []) as [[rem parts]|e] eqn:Hc; simpl.
    + by destruct (Flavour.parse_parts parts) as [[drv root] parts'].
    + by eapply collect_args_raises.
  - intros cls p.
    assert (construct cls [ArgPath p] = RemotePath__new__ cls [ArgPath p] None) as ->
      by by destruct cls.
    unfold RemotePath__new__, _from_parts, _parse_args_with_remote. simpl.
    destruct (Flavour.parse_parts (_parts p)) as [[drv root] parts']. simpl.
    eexists. split; [done|]. simpl. by destruct (remote p).
Qed.

(** ** Equality and hashing *)

Lemma path_eq_spec p q :
  path_eq p q = true <->
  _cparts p = _cparts q ∧ _flavour (pathcls p) = _flavour (pathcls q).
Proof.
  unfold path_eq. by rewrite andb_true_iff, !bool_decide_eq_true.
Qed.

Lemma path_eq_refl p : path_eq p p = true.
Proof. by apply path_eq_spec. Qed.

(** C9.  [__eq__] and [__hash__] look at the parts (and the flavour of the
    class) only.  For two paths of one class (every path this module builds
    is a [DandiPath]): equal (drive, root, parts) triples make them equal
    with equal hashes, whatever their handles; and replacing the handle of
    a path changes neither its equality with any other path, in either
    direction, nor its hash. *)
Theorem eq_hash_ignore_remote (hash_tuple : list string -> Z) (p q : RemotePath) :
  pathcls p = pathcls q ->
  ((_drv p, _root p, _parts p) = (_drv q, _root q, _parts q) ->
   path_eq p q = true ∧ path_hash hash_tuple p = path_hash hash_tuple q) ∧
  (∀ r, path_eq (set_remote p r) q = path_eq p q ∧
        path_eq q (set_remote p r) = path_eq q p ∧
        path_hash hash_tuple (set_remote p r) = path_hash hash_tuple p).
Proof.
  intros Hcls. split.
  - intros [= _ _ Hparts]. split.
    + apply path_eq_spec. unfold _cparts. by rewrite Hparts, Hcls.
    + unfold path_hash, _cparts. by rewrite Hparts.
  - intros r. done.
Qed.

Lemma eq_hash_ignore_remote_witness :
  path_eq (dandi "a/b" (Some store_sub01)) (dandi "a//b/" None) = true ∧
  path_hash (fun l => Z.of_nat (length l)) (dandi "a/b" (Some store_sub01))
  = path_hash (fun l => Z.of_nat (length l)) (dandi "a//b/" None).
Proof.
  apply (eq_hash_ignore_remote (fun l => Z.of_nat (length l))
           (dandi "a/b" (Some store_sub01)) (dandi "a//b/" None)); reflexivity.
Defined.

(** On well-formed paths the parts determine drive and root, so equality
    is equality of the (drive, root, parts) triples. *)
Lemma path_eq_wf_triple p q :
  wf_path p -> wf_path q -> pathcls p = pathcls q ->
  (path_eq p q = true <-> (_drv p, _root p, _parts p) = (_drv q, _root q, _parts q)).
Proof.
  intros Hp Hq Hcls. split.
  - intros [Hparts _]%path_eq_spec. unfold _cparts, Flavour.casefold_parts in Hparts.
    apply parse_parts_id in Hp, Hq. rewrite Hparts in Hp. congruence.
  - intros [= _ _ Hparts]. apply path_eq_spec. unfold _cparts. by rewrite Hparts, Hcls.
Qed.

(** ** [is_file] *)

Lemma is_file_with_remote p ds :
  remote p = Some ds ->
  is_file p = Ok (bool_decide (path_str p ∈ assets ds)).
Proof.
  intros Hr. unfold is_file, get_asset_by_path. rewrite Hr.
  by destruct (bool_decide _).
Qed.

(** C2 (at the failing input).  On a path without a remote handle,
    [is_file] does not answer [False]: the attribute access on [None]
    raises [AttributeError], which the [except NotFoundError] clause does
    not catch.  [exists] and [is_dir] answer [False] there. *)
Theorem is_file_without_remote_raises :
  is_file (dandi "sub-01/ses-1/a.h5" None)
  = Raise (AttributeError "'NoneType' object has no attribute 'get_asset_by_path'") ∧
  exists_ (dandi "sub-01/ses-1/a.h5" None) = Ok false ∧
  is_dir (dandi "sub-01/ses-1/a.h5" None) = Ok false.
Proof. repeat split. Qed.

(** ** [parent] and [parents] *)

Lemma wf_anchored_parts p :
  wf_path p -> anchored (_drv p) (_root p) = true -> 1 ≤ length (_parts p).
Proof.
  unfold wf_path, anchored.
  intros (Hd & [[Hr _]|[_ (segs & Hp & _)]])%wf_tripleb_spec.
  - rewrite Hd, Hr. done.
  - rewrite Hp. simpl. lia.
Qed.

(** C8.  [p.parents] returns no sequence: for every path [p] the
    constructor of [_RemotePathParents] raises [AttributeError] at its
    last assignment, [self._remote = path.remote], since [_remote] is
    none of the slots of the class.  An object of the class, were there
    one, could not be indexed either: [__getitem__] raises [IndexError]
    outside [0, length) and [AttributeError], reading [self._remote],
    inside. *)
Theorem parents_raises_AttributeError (p : RemotePath) :
  parents p
  = Raise (AttributeError "'_RemotePathParents' object has no attribute '_remote'") ∧
  (∀ ps idx,
     parents_getitem ps idx
     = if (idx <? 0)%Z || (idx >=? parents_len ps)%Z then Raise (IndexError idx)
       else Raise (AttributeError "'_RemotePathParents' object has no attribute '_remote'")).
Proof.
  split; [reflexivity|]. intros ps idx. unfold parents_getitem.
  by destruct ((idx <? 0)%Z || (idx >=? parents_len ps)%Z).
Qed.

Example parents_ex :
  parents (dandi "/a/b/c" None) = Raise (no_attribute "_remote") ∧
  parent (dandi "/a/b/c" None) = dandi "/a/b" None.
Proof. split; reflexivity. Qed.

(** ** Patterns and selector chains *)

Lemma append_names_split rel :
  Flavour.append_names rel
  = filter (fun x => Flavour.keep_name x = true) (reverse (split Flavour.sep_char rel)).
Proof.
  unfold Flavour.append_names. destruct (has_char Flavour.sep_char rel) eqn:Hc; [done|].
  rewrite split_without_sep by done. cbn.
  by destruct (Flavour.keep_name rel).
Qed.

Lemma prefix_sep a s : String.prefix "/" (String a s) = Ascii.eqb a "/".
Proof.
  change (String.prefix "/" (String a s))
    with (match ascii_dec "/"%char a with
          | left _ => String.prefix "" s
          | right _ => false
          end).
  destruct (ascii_dec "/"%char a) as [Heq|Hne].
  - rewrite <- Heq. by destruct s.
  - symmetry. apply Ascii.eqb_neq. congruence.
Qed.

Lemma parse_single_relative s :
  relative_pattern s = true ->
  Flavour.parse_parts [s] = ("", "", reverse (Flavour.append_names s)).
Proof.
  unfold relative_pattern, Flavour.parse_parts. intros Hrel. cbn.
  destruct s as [|a s]; [done|].
  cbn. unfold Flavour.splitroot.
  assert (Ascii.eqb a Flavour.sep_char = false) as ->.
  { rewrite prefix_sep in Hrel. by apply negb_true_iff in Hrel. }
  done.
Qed.

Lemma dandi_relative s r :
  relative_pattern s = true ->
  dandi s r = mkPath ClsDandiPath "" "" (reverse (Flavour.append_names s)) r.
Proof. intros Hrel. unfold dandi. by rewrite parse_single_relative. Qed.

Lemma parse_single_absolute s :
  relative_pattern s = false ->
  ∃ root parts, Flavour.parse_parts [s] = ("", root, parts) ∧ truthy root = true.
Proof.
  unfold relative_pattern, Flavour.parse_parts. intros Hrel. cbn.
  destruct s as [|a s]; [done|].
  rewrite prefix_sep in Hrel. apply negb_false_iff in Hrel.
  apply Ascii.eqb_eq in Hrel as ->.
  cbn. destruct (_ =? 2); cbn; eauto.
Qed.

Lemma parse_single_root_relative s :
  relative_pattern s = (negb (truthy (Flavour.parse_parts [s]).1.1 || truthy (Flavour.parse_parts [s]).1.2)).
Proof.
  destruct (relative_pattern s) eqn:Hrel.
  - by rewrite parse_single_relative.
  - destruct (parse_single_absolute s Hrel) as (root & parts & -> & Hr). simpl.
    by rewrite Hr.
Qed.

Lemma parse_stars_slash s :
  relative_pattern s = true ->
  Flavour.parse_parts ["**/" +:+ s] = ("", "", "**" :: (Flavour.parse_parts [s]).2).
Proof.
  intros Hrel. rewrite (parse_single_relative s Hrel), parse_single_relative by done.
  simpl. rewrite !append_names_split.
  assert (split Flavour.sep_char ("**/" +:+ s) = "**" :: split Flavour.sep_char s) as ->
    by reflexivity.
  rewrite reverse_cons, filter_app, reverse_app. done.
Qed.

Lemma RemotePath_new_strs cls parts r :
  forallb wf_segb parts = true ->
  RemotePath__new__ cls (ArgStr <$> parts) r = Ok (mkPath ClsDandiPath "" "" parts r).
Proof.
  intros Hwf. unfold RemotePath__new__, _from_parts, _parse_args_with_remote.
  assert (∀ rem acc, collect_args (ArgStr <$> parts) rem acc = Ok (rem, acc ++ parts)) as ->.
  { clear. induction parts as [|x parts IH]; intros rem acc; simpl.
    - by rewrite app_nil_r.
    - rewrite IH. by rewrite <- app_assoc. }
  simpl. rewrite (parse_parts_id "" "" parts); [done|]. apply wf_tripleb_spec. auto.
Qed.

Section SelectProps.

Variable compile_pattern : string -> Result (string -> bool).

Lemma refusal_stars parts :
  refusal compile_pattern ("**" :: parts) = refusal compile_pattern parts.
Proof. reflexivity. Qed.

(** A pattern with a bad component is refused, with [ValueError] if the
    wildcard components compile. *)
Lemma refusal_bad parts :
  existsb bad_component parts = true ->
  ∃ e, refusal compile_pattern parts = Some e ∧
       (Forall (compiles compile_pattern) parts -> e = invalid_pattern).
Proof.
  induction parts as [|pat rest IH]; [done|]. cbn [existsb refusal].
  destruct (bad_component pat); [by exists invalid_pattern|]. cbn [orb].
  intros (e & He & Hinv)%IH.
  destruct (wildcard_component pat) eqn:Hw.
  - destruct (compile_pattern pat) as [m|e'] eqn:Hc.
    + exists e. split; [done|]. intros Hall. apply Hinv. by inversion Hall.
    + exists e'. split; [done|]. intros Hall. inversion Hall as [|? ? Hpat _]; subst.
      destruct (Hpat Hw) as [m Hm]. congruence.
  - exists e. split; [done|]. intros Hall. apply Hinv. by inversion Hall.
Qed.

Lemma refusal_none parts :
  existsb bad_component parts = false -> Forall (compiles compile_pattern) parts ->
  refusal compile_pattern parts = None.
Proof.
  induction parts as [|pat rest IH]; [done|]. cbn [existsb refusal].
  intros [-> Hrest]%orb_false_iff Hall. inversion Hall as [|? ? Hpat Hall']; subst.
  destruct (wildcard_component pat) eqn:Hw; [|by apply IH].
  destruct (Hpat Hw) as [m ->]. by apply IH.
Qed.

(** A refusal other than [ValueError] comes from a wildcard component
    that does not compile. *)
Lemma refusal_origin parts e :
  refusal compile_pattern parts = Some e ->
  (e = invalid_pattern ∧ existsb bad_component parts = true) ∨
  ∃ pat, pat ∈ parts ∧ wildcard_component pat = true ∧ compile_pattern pat = Raise e.
Proof.
  induction parts as [|pat rest IH]; [done|]. cbn [existsb refusal].
  destruct (bad_component pat); [intros [= <-]; by left|]. cbn [orb].
  assert (refusal compile_pattern rest = Some e ->
          (e = invalid_pattern ∧ existsb bad_component rest = true) ∨
          ∃ pat0, pat0 ∈ pat :: rest ∧ wildcard_component pat0 = true ∧
                  compile_pattern pat0 = Raise e) as Hrest.
  { intros [?|(pat0 & Hin & Hw & Hc)]%IH; [by left|].
    right. exists pat0. split; [by right|done]. }
  destruct (wildcard_component pat) eqn:Hw; [|done].
  destruct (compile_pattern pat) as [m|e'] eqn:Hc; [done|].
  intros [= <-]. right. exists pat. split; [by left|done].
Qed.

(** On a well-formed relative pattern path the construction needs no more
    nested calls than the pattern has components, and the outcome is read
    off the components. *)
Lemma make_selector_wf fuel cls parts r :
  forallb wf_segb parts = true -> parts ≠ [] -> length parts ≤ fuel ->
  _make_selector compile_pattern fuel (mkPath cls "" "" parts r)
  = Some (match refusal compile_pattern parts with
          | Some e => Raise e
          | None => Ok (chain_of compile_pattern parts)
          end).
Proof.
  revert fuel cls. induction parts as [|pat rest IH]; intros fuel cls Hwf Hne Hfuel; [done|].
  destruct fuel as [|fuel]; [simpl in Hfuel; lia|].
  simpl in Hwf. apply andb_true_iff in Hwf as [Hpat Hrest].
  cbn [_make_selector _parts remote pathcls]. rewrite (RemotePath_new_strs _ _ _ Hrest).
  cbn [_parts refusal chain_of]. unfold bad_component, wildcard_component, matcher.
  assert (∀ cls' : bool -> Selector -> Selector,
            match rest with
            | [] => Some (Ok (cls' false TerminatingSelector))
            | _ :: _ =>
                match _make_selector compile_pattern fuel (mkPath ClsDandiPath "" "" rest r) with
                | Some (Ok successor) => Some (Ok (cls' true successor))
                | other => other
                end
            end
            = Some (match refusal compile_pattern rest with
                    | Some e => Raise e
                    | None => Ok (cls' match rest with [] => false | _ => true end
                                    (chain_of compile_pattern rest))
                    end)) as Hinit.
  { intros cls'. destruct rest as [|pat' rest']; [done|].
    rewrite (IH fuel ClsDandiPath Hrest) by (done || simpl in *; lia).
    by destruct (refusal compile_pattern (pat' :: rest')). }
  destruct (String.eqb pat "**") eqn:Hstars.
  - apply String.eqb_eq in Hstars as ->. cbn [negb andb].
    change (contains "**" "**") with true. cbn [negb andb]. apply Hinit.
  - cbn [negb andb]. destruct (contains "**" pat); [done|]. cbn [negb andb].
    destruct (_is_wildcard_pattern pat); [|apply Hinit].
    destruct (compile_pattern pat) as [m|e]; [apply Hinit|done].
Qed.

Lemma run_selector_wf self cls parts r :
  forallb wf_segb parts = true ->
  run_selector compile_pattern self (mkPath cls "" "" parts r)
  = match parts with
    | [] => Gen.raise IndexError_list_index
    | _ =>
        match refusal compile_pattern parts with
        | Some e => Gen.raise e
        | None => select_from (walk_fuel self) (chain_of compile_pattern parts) self
        end
    end.
Proof.
  intros Hwf. unfold run_selector. destruct parts as [|pat rest]; [done|].
  rewrite make_selector_wf by (done || cbn [_parts]; lia).
  by destruct (refusal compile_pattern (pat :: rest)).
Qed.

Lemma glob_relative self s :
  truthy s = true -> relative_pattern s = true ->
  glob compile_pattern self s
  = run_selector compile_pattern self
      (mkPath ClsDandiPath "" "" (Flavour.parse_parts [s]).2 (remote self)).
Proof.
  intros Hs Hrel. unfold glob. rewrite Hs. cbn [negb].
  rewrite RemotePath_new_str, (dandi_relative _ _ Hrel).
  by rewrite (parse_single_relative s Hrel).
Qed.

Lemma rglob_relative self s :
  relative_pattern s = true ->
  rglob compile_pattern self s
  = run_selector compile_pattern self
      (mkPath ClsDandiPath "" "" ("**" :: (Flavour.parse_parts [s]).2) (remote self)).
Proof.
  intros Hrel. unfold rglob.
  rewrite RemotePath_new_str, construct_str.
  pose proof (dandi_wf s (remote self)) as Hwf.
  rewrite (dandi_relative _ _ Hrel) in Hwf |- *.
  rewrite (parse_single_relative s Hrel). cbn [truthy String.eqb negb orb Gen.lift].
  rewrite (joinpath_relative _ _ Hwf eq_refl). done.
Qed.

Lemma glob_absolute self s :
  relative_pattern s = false ->
  glob compile_pattern self s
  = Gen.raise (NotImplementedError "Non-relative patterns are unsupported").
Proof.
  intros Hrel. unfold glob.
  assert (truthy s = true) as -> by by destruct s.
  destruct (parse_single_absolute s Hrel) as (root & parts & -> & Hr).
  cbn [negb]. rewrite Hr. by rewrite orb_true_r.
Qed.

Lemma rglob_absolute self s :
  relative_pattern s = false ->
  rglob compile_pattern self s
  = Gen.raise (NotImplementedError "Non-relative patterns are unsupported").
Proof.
  intros Hrel. unfold rglob.
  destruct (parse_single_absolute s Hrel) as (root & parts & -> & Hr).
  rewrite Hr. by rewrite orb_true_r.
Qed.

(** C4.  For every path and every relative pattern string [s] (one that
    does not start with the separator; the empty one included), [rglob(s)]
    and [glob("**/" + s)] run the same selector from the same path: they
    yield the same paths in the same order and stop the same way.  A
    pattern with a root makes both [glob] and [rglob] raise
    [NotImplementedError] before anything is yielded. *)
Theorem rglob_is_glob_under_stars (self : RemotePath) (s : string) :
  if relative_pattern s
  then rglob compile_pattern self s = glob compile_pattern self ("**/" +:+ s)
  else glob compile_pattern self s
       = ([], Raised (NotImplementedError "Non-relative patterns are unsupported")) ∧
       rglob compile_pattern self s
       = ([], Raised (NotImplementedError "Non-relative patterns are unsupported")).
Proof.
  destruct (relative_pattern s) eqn:Hrel.
  - rewrite rglob_relative, glob_relative by done.
    by rewrite parse_stars_slash.
  - by rewrite glob_absolute, rglob_absolute.
Qed.

(** C6, as the code has it.  Before anything is matched or yielded:
    - [glob] raises [ValueError] on the empty pattern;
    - [glob] and [rglob] raise [NotImplementedError] on a pattern with a
      root;
    - [glob] and [rglob] raise on a relative pattern one of whose
      components contains ["**"] without being ["**"]: the selectors are
      built component by component, and the error is the [ValueError] of
      that component unless a wildcard component before it does not
      compile, whose error then comes first; it is the [ValueError]
      whenever the wildcard components compile;
    - more generally they raise the error of the first component, in
      order, that is such a one or does not compile.
    [rglob] has no test for the empty pattern: [rglob("")] runs the
    selector of the pattern ["**"], which yields the directories of the
    subtree. *)
Theorem malformed_patterns_rejected (self : RemotePath) (s : string) :
  glob compile_pattern self "" = ([], Raised (ValueError_unacceptable_pattern "")) ∧
  (if relative_pattern s
   then
     (existsb bad_component (Flavour.parse_parts [s]).2 = true ->
      ∃ e, glob compile_pattern self s = ([], Raised e) ∧
           rglob compile_pattern self s = ([], Raised e) ∧
           (Forall (compiles compile_pattern) (Flavour.parse_parts [s]).2 ->
            e = invalid_pattern) ∧
           (e = invalid_pattern ∨
            ∃ pat, pat ∈ (Flavour.parse_parts [s]).2 ∧ wildcard_component pat = true ∧
                   compile_pattern pat = Raise e)) ∧
     (∀ e, refusal compile_pattern (Flavour.parse_parts [s]).2 = Some e ->
           glob compile_pattern self s = ([], Raised e) ∧
           rglob compile_pattern self s = ([], Raised e))
   else glob compile_pattern self s
        = ([], Raised (NotImplementedError "Non-relative patterns are unsupported")) ∧
        rglob compile_pattern self s
        = ([], Raised (NotImplementedError "Non-relative patterns are unsupported"))) ∧
  rglob compile_pattern self ""
  = select_from (walk_fuel self)
      (RecursiveWildcardSelector false TerminatingSelector) self.
Proof.
  split; [done|]. split.
  - destruct (relative_pattern s) eqn:Hrel; [|by rewrite glob_absolute, rglob_absolute].
    pose proof (dandi_wf s None) as Hwf. unfold wf_path, dandi in Hwf.
    destruct (Flavour.parse_parts [s]) as [[drv root] parts] eqn:Hp.
    rewrite parse_single_relative in Hp by done. injection Hp as <- <- Hparts.
    cbn in Hwf. cbn [snd].
    assert (∀ e, refusal compile_pattern parts = Some e ->
                 glob compile_pattern self s = ([], Raised e) ∧
                 rglob compile_pattern self s = ([], Raised e)) as Hraise.
    { intros e He.
      assert (truthy s = true) as Hs.
      { destruct s; [|done]. by subst parts. }
      rewrite rglob_relative, glob_relative by done.
      rewrite !run_selector_wf by (rewrite parse_single_relative by done; by rewrite Hparts).
      rewrite parse_single_relative by done. rewrite Hparts. cbn [snd].
      destruct parts as [|pat rest]; [done|]. by rewrite refusal_stars, He. }
    split; [|done].
    intros Hbad. destruct (refusal_bad parts Hbad) as (e & He & Hinv).
    exists e. destruct (Hraise e He) as [-> ->]. do 3 (split; [done|]).
    destruct (refusal_origin parts e He) as [[-> _]|?]; [by left|by right].
  - rewrite rglob_relative by done. by rewrite run_selector_wf.
Qed.

End SelectProps.

Example rglob_is_glob_under_stars_ex :
  rglob simple_compile (dandi "top" (Some store_x)) "a/*.h5"
  = glob simple_compile (dandi "top" (Some store_x)) "**/a/*.h5".
Proof. by vm_compute. Qed.

(** C6 as stated fails for [rglob]: the empty pattern is not rejected. *)
Lemma rglob_accepts_empty_pattern :
  Gen.map path_str (rglob simple_compile (dandi "top" (Some store_x)) "")
  = (["top"; "top/a"; "top/a/b"; "top/a/b/c"], Returned) ∧
  ¬ ∃ e, rglob simple_compile (dandi "top" (Some store_x)) "" = ([], Raised e).
Proof.
  split; [by vm_compute|]. intros [e He].
  apply (f_equal (fun g => length g.1)) in He. vm_compute in He. done.
Qed.

Example malformed_ex :
  glob simple_compile (dandi "top" (Some store_x)) "a/x**/b" = ([], Raised invalid_pattern) ∧
  rglob simple_compile (dandi "top" (Some store_x)) "**.h5" = ([], Raised invalid_pattern).
Proof. split; by vm_compute. Qed.

(** ** [relative_to] *)

Lemma take_length_prefix {A} (l k : list A) :
  take (length l) k = l <-> l `prefix_of` k.
Proof.
  split.
  - intros <-. apply prefix_take.
  - intros [k' ->]. by rewrite take_app_length.
Qed.

Lemma wf_abs_parts p :
  wf_path p ->
  abs_parts_of (_drv p) (_root p) (_parts p)
  = if truthy (_root p) then "" :: _parts p else _parts p.
Proof.
  unfold wf_path, abs_parts_of.
  intros (-> & [[-> Hs]|[Hr (segs & -> & Hs)]])%wf_tripleb_spec; [done|].
  by destruct Hr as [-> | ->].
Qed.


Lemma wf_unrooted_segs p :
  wf_path p -> truthy (_root p) = false -> forallb wf_segb (_parts p) = true.
Proof.
  unfold wf_path.
  intros (_ & [[_ Hs]|[Hr _]])%wf_tripleb_spec Ht; [done|].
  by destruct Hr as [Hr|Hr]; rewrite Hr in Ht.
Qed.

Lemma wf_segs_head_nonempty s segs :
  forallb wf_segb (s :: segs) = true -> s ≠ "".
Proof. simpl. intros [Hs _]%andb_true_iff. apply wf_segb_spec in Hs. tauto. Qed.

(** With drive and root counted as parts of their own, as [relative_to]
    does, well-formed paths start with one another exactly when their
    parts do. *)
Lemma abs_prefix_parts p q :
  wf_path p -> wf_path q ->
  abs_parts_of (_drv q) (_root q) (_parts q) `prefix_of` abs_parts_of (_drv p) (_root p) (_parts p) ->
  _parts q `prefix_of` _parts p.
Proof.
  intros Hp Hq. rewrite !wf_abs_parts by done.
  destruct (truthy (_root p)) eqn:Hrp, (truthy (_root q)) eqn:Hrq.
  - apply prefix_cons_inv_2.
  - pose proof (wf_unrooted_segs q Hq Hrq) as Hs.
    destruct (_parts q) as [|s segs]; [intros _; apply prefix_nil|].
    intros ->%prefix_cons_inv_1. by apply wf_segs_head_nonempty in Hs.
  - pose proof (wf_unrooted_segs p Hp Hrp) as Hs.
    destruct (_parts p) as [|s segs]; [by intros ?%prefix_nil_not|].
    intros <-%prefix_cons_inv_1. by apply wf_segs_head_nonempty in Hs.
  - done.
Qed.

Lemma join_truthy s segs : s ≠ "" -> truthy (Flavour.join (s :: segs)) = true.
Proof.
  intros Hs. apply truthy_true. unfold Flavour.join, Py.join. simpl.
  destruct s as [|a s]; [done|]. by destruct segs.
Qed.


Lemma relative_to_path self other :
  wf_path other ->
  relative_to self [ArgPath other]
  = let abs_parts := abs_parts_of (_drv self) (_root self) (_parts self) in
    let to_abs_parts := abs_parts_of (_drv other) (_root other) (_parts other) in
    let n := length to_abs_parts in
    if (if n =? 0 then truthy (_root self) || truthy (_drv self)
        else negb (bool_decide (take n abs_parts = to_abs_parts)))
    then Raise (ValueError_does_not_start_with (path_str self)
                  (_format_parsed_parts (_drv other) (_root other) (_parts other)))
    else Ok (mkPath (pathcls self) "" (if n =? 1 then _root self else "")
               (drop n abs_parts) (remote self)).
Proof.
  intros Hwf. unfold relative_to, _parse_args. simpl.
  rewrite (parse_parts_id _ _ _ Hwf). done.
Qed.



Example relative_to_ex :
  (path_str <$> relative_to (dandi "/data/sub-01/ses-1" None) [ArgPath (dandi "/data" None)],
   relative_to (dandi "/data/sub-01" None) [ArgPath (dandi "/data/sub-02" None)],
   relative_to (dandi "/data" None) [ArgPath (dandi "" None)])
  = (Ok "sub-01/ses-1",
     Raise (ValueError_does_not_start_with "/data/sub-01" "/data/sub-02"),
     Raise (ValueError_does_not_start_with "/data" "")).
Proof. reflexivity. Qed.

(** ** The field of view of a slab *)

Section FieldOfView.

Context {num : Type}.
Variable of_int : Z -> num.
Variable zero : num.
Variable add sub : num -> num -> num.
Variable ltb eqb : num -> num -> bool.

#[local] Abbreviation chunk_corners := (SpimInfo.chunk_corners of_int zero add).
#[local] Abbreviation py_min := (SpimInfo.py_min ltb).
#[local] Abbreviation py_max := (SpimInfo.py_max ltb).
#[local] Abbreviation loop := (SpimInfo.loop of_int zero add ltb eqb).
#[local] Abbreviation slab_info := (SpimInfo.slab_info of_int zero add sub ltb eqb).

Lemma loop_accumulates st h5files st' :
  loop st h5files = Ok st' ->
  ∃ corners,
    Forall2 (fun file_info c => chunk_corners file_info = Ok c) h5files corners ∧
    SpimInfo.st_mn st' = fold_left (SpimInfo.accumulate py_min) (fst <$> corners) (SpimInfo.st_mn st) ∧
    SpimInfo.st_mx st' = fold_left (SpimInfo.accumulate py_max) (snd <$> corners) (SpimInfo.st_mx st).
Proof.
  revert st. induction h5files as [|file_info rest IH]; intros st; simpl.
  - intros [= <-]. exists []. by split; [constructor|].
  - destruct (SpimInfo.loop_body of_int zero add ltb eqb st file_info) as [st1|e] eqn:Hbody; [|done].
    simpl. intros (corners & Hall & Hmn & Hmx)%IH.
    unfold SpimInfo.loop_body in Hbody.
    repeat match type of Hbody with
           | (if ?c then _ else _) = _ => destruct c; [done|]
           end.
    destruct (chunk_corners file_info) as [[mn1 mx1]|e] eqn:Hc; [|done]. simpl in Hbody.
    destruct (SpimInfo.ci_Chunk file_info); [|done]. injection Hbody as <-.
    exists ((mn1, mx1) :: corners). split; [by constructor|]. by split.
Qed.

Lemma accumulate_lookup f (acc : list (option num)) (c : list num) i :
  SpimInfo.accumulate f acc c !! i
  = match acc !! i, c !! i with
    | Some (Some a), Some y => Some (Some (f a y))
    | Some None, Some y => Some (Some y)
    | _, _ => None
    end.
Proof.
  unfold SpimInfo.accumulate. rewrite lookup_zip_with.
  destruct (acc !! i) as [[a|]|]; simpl; by destruct (c !! i).
Qed.

Lemma fold_accumulate_lookup f (cs : list (list num)) (acc : list (option num)) i v :
  fold_left (SpimInfo.accumulate f) cs acc !! i = Some (Some v) ->
  match acc !! i with
  | Some (Some a) => ∃ xs, mapM (fun c => c !! i) cs = Some xs ∧ v = fold_left f xs a
  | Some None => SpimInfo.axis_bound f cs i = Some v
  | None => False
  end.
Proof.
  revert acc. induction cs as [|c cs IH]; intros acc; simpl.
  - intros ->. by exists [].
  - intros H%IH. rewrite accumulate_lookup in H.
    destruct (acc !! i) as [[a|]|]; destruct (c !! i) as [y|] eqn:Hy; try done.
    + destruct H as (xs & Hxs & ->). exists (y :: xs). split; [|done].
      cbn. rewrite ?Hy. simpl. by rewrite Hxs.
    + destruct H as (xs & Hxs & ->). cbn. rewrite ?Hy. simpl. by rewrite Hxs.
Qed.

Lemma fov_of_lookup (mx mn : list (option num)) (fov : list num) i v :
  SpimInfo.fov_of sub mx mn = Ok fov -> fov !! i = Some v ->
  ∃ a b, mx !! i = Some (Some a) ∧ mn !! i = Some (Some b) ∧ v = sub a b.
Proof.
  revert mn fov i. induction mx as [|x mx IH]; intros mn fov i; simpl.
  - by intros [= <-].
  - destruct mn as [|y mn]; [by destruct x; intros [= <-]|].
    destruct x as [a|]; [|done]. destruct y as [b|]; [|done].
    destruct (SpimInfo.fov_of sub mx mn) as [fov'|] eqn:Hf; [|done]. simpl.
    intros [= <-]. destruct i as [|i]; simpl.
    + intros [= <-]. eauto.
    + intros Hi. eapply IH; eauto.
Qed.

(** C3, as the code has it.  Every entry of [FOV] is the accumulated
    maximum of its axis minus the accumulated minimum: [max] resp. [min]
    folded, in iteration order, over the upper resp. lower corner of
    every chunk of the folder.  (The names [mx1] and [mn1] of the final
    comprehension are its own targets, ranging over [mx] and [mn].) *)
Theorem fov_is_accumulated_extent
    (h5files : list (SpimInfo.ChunkInfo num)) (fov : list num) (i : nat) (v : num) :
  SpimInfo.FOV <$> slab_info h5files = Ok fov ->
  fov !! i = Some v ->
  ∃ corners lo hi,
    Forall2 (fun file_info c => chunk_corners file_info = Ok c) h5files corners ∧
    SpimInfo.axis_bound py_min (fst <$> corners) i = Some lo ∧
    SpimInfo.axis_bound py_max (snd <$> corners) i = Some hi ∧
    v = sub hi lo.
Proof.
  unfold SpimInfo.slab_info. intros Hinfo Hi.
  destruct (loop _ h5files) as [st|] eqn:Hloop; [|done]. simpl in Hinfo.
  destruct (SpimInfo.fov_of sub _ _) as [fov'|] eqn:Hfov; [|done].
  simpl in Hinfo. injection Hinfo as <-.
  destruct (fov_of_lookup _ _ _ _ _ Hfov Hi) as (a & b & Ha & Hb & ->).
  apply loop_accumulates in Hloop as (corners & Hall & Hmn & Hmx).
  rewrite Hmx in Ha. rewrite Hmn in Hb.
  apply fold_accumulate_lookup in Ha, Hb. simpl in Ha, Hb.
  exists corners, b, a. split; [done|].
  do 3 (destruct i as [|i]; [by simpl in *|]). done.
Qed.

End FieldOfView.

Lemma fov_is_accumulated_extent_witness :
  ∃ corners lo hi,
    Forall2 (fun file_info c => SpimInfo.chunk_corners (fun z : Z => z) 0%Z Z.add file_info = Ok c)
      [SpimInfo.chunk_a; SpimInfo.chunk_b] corners ∧
    SpimInfo.axis_bound (SpimInfo.py_min Z.ltb) (fst <$> corners) 0 = Some lo ∧
    SpimInfo.axis_bound (SpimInfo.py_max Z.ltb) (snd <$> corners) 0 = Some hi ∧
    15%Z = (hi - lo)%Z.
Proof.
  apply (fov_is_accumulated_extent (fun z : Z => z) 0%Z Z.add Z.sub Z.ltb Z.eqb
           [SpimInfo.chunk_a; SpimInfo.chunk_b] [15; 15; 15]%Z 0 15%Z); reflexivity.
Defined.

(** C3 as stated fails: with a second chunk shifted by 5, the extent of the
    chunk iterated last is 10 along every axis, and [FOV] is 15. *)
Lemma fov_is_not_last_chunk_extent :
  SpimInfo.FOV <$> SpimInfo.slab_info_Z [SpimInfo.chunk_a; SpimInfo.chunk_b]
  = Ok [15; 15; 15]%Z ∧
  SpimInfo.fov_of_last_chunk_Z [SpimInfo.chunk_a; SpimInfo.chunk_b] = Ok [10; 10; 10]%Z ∧
  SpimInfo.FOV <$> SpimInfo.slab_info_Z [SpimInfo.chunk_a; SpimInfo.chunk_b]
  ≠ SpimInfo.fov_of_last_chunk_Z [SpimInfo.chunk_a; SpimInfo.chunk_b].
Proof. split; [|split]; by vm_compute. Qed.

(** ** Listing the children of a directory *)

Lemma below_Some p q rest : below p q = Some rest <-> q = p ++ rest.
Proof.
  revert q. induction p as [|x p IH]; intros q; simpl.
  - split; congruence.
  - destruct q as [|y q]; [done|].
    destruct (decide (x = y)) as [->|Hne].
    + rewrite IH. split; congruence.
    + split; [done|]. intros [= ? _]. done.
Qed.

Lemma below_None p q : below p q = None <-> ¬ p `prefix_of` q.
Proof.
  destruct (below p q) as [rest|] eqn:Hb.
  - apply below_Some in Hb. split; [done|]. intros []. by exists rest.
  - split; [|done]. intros _ [rest Hrest]. apply below_Some in Hrest. congruence.
Qed.

Lemma asset_ok_dandi asset r :
  asset_ok asset = true ->
  ∃ Q, dandi asset r = mkPath ClsDandiPath "" "" Q r ∧
       (Flavour.parse_parts [asset]).2 = Q ∧
       forallb wf_segb Q = true ∧ Q ≠ [].
Proof.
  unfold asset_ok. intros [Hrel Hne]%andb_true_iff.
  apply negb_true_iff, bool_decide_eq_false in Hne.
  pose proof (dandi_wf asset r) as Hwf. rewrite (dandi_relative _ _ Hrel) in Hwf |- *.
  rewrite (parse_single_relative _ Hrel) in Hne |- *. simpl in Hne |- *.
  eexists. split; [done|]. split; [done|]. split; [|done].
  unfold wf_path in Hwf. by apply wf_tripleb_spec in Hwf as (_ & [[_ Hs]|[[?|?] _]]).
Qed.

Lemma wf_rooted_parts p :
  wf_path p -> truthy (_root p) = true ->
  ∃ segs, _parts p = _root p :: segs ∧ wf_segb (_root p) = false.
Proof.
  unfold wf_path.
  intros (_ & [[Hr _]|[Hr (segs & Hp & _)]])%wf_tripleb_spec Ht.
  - by rewrite Hr in Ht.
  - exists segs. split; [done|]. by destruct Hr as [-> | ->].
Qed.

Lemma wf_drv p : wf_path p -> _drv p = "".
Proof. unfold wf_path. intros H%wf_tripleb_spec. tauto. Qed.

(** [relative_to] of an unrooted path from a well-formed one, by parts. *)
Lemma relative_to_unrooted self Q r :
  wf_path self -> forallb wf_segb Q = true -> Q ≠ [] ->
  relative_to (mkPath ClsDandiPath "" "" Q r) [ArgPath self]
  = match below (_parts self) Q with
    | Some rest => Ok (mkPath ClsDandiPath "" "" rest r)
    | None =>
        Raise (ValueError_does_not_start_with (path_str (mkPath ClsDandiPath "" "" Q r))
                 (_format_parsed_parts (_drv self) (_root self) (_parts self)))
    end.
Proof.
  intros Hself HQ Hne. rewrite (relative_to_path _ _ Hself). cbv zeta.
  rewrite (wf_abs_parts self Hself). cbn [_drv _root _parts pathcls remote].
  unfold abs_parts_of. cbn [truthy String.eqb negb orb].
  destruct (truthy (_root self)) eqn:Hr.
  - destruct (wf_rooted_parts self Hself Hr) as (segs & Hp & Hnr). rewrite Hp.
    destruct Q as [|y Q]; [done|]. cbn [length Nat.eqb take below].
    apply andb_true_iff in HQ as [Hy HQ].
    rewrite bool_decide_eq_false_2.
    2:{ intros [= -> _]. done. }
    destruct (decide (_root self = y)) as [<-|_]; [congruence|]. done.
  - destruct (length (_parts self) =? 0) eqn:Hn.
    + apply Nat.eqb_eq, length_zero_iff_nil in Hn. rewrite Hn. simpl. by destruct Q.
    + destruct (below (_parts self) Q) as [rest|] eqn:Hb.
      * apply below_Some in Hb as ->.
        rewrite take_app_length, bool_decide_eq_true_2, drop_app_length by done. cbn [negb].
        by destruct (_ =? 1).
      * apply below_None in Hb. rewrite bool_decide_eq_false_2; [done|].
        by rewrite take_length_prefix.
Qed.

Lemma is_relative_to_unrooted self Q r :
  wf_path self -> forallb wf_segb Q = true -> Q ≠ [] ->
  is_relative_to (mkPath ClsDandiPath "" "" Q r) [ArgPath self]
  = Ok (match below (_parts self) Q with
        | Some (_ :: _) => true
        | _ => false
        end).
Proof.
  intros Hself HQ Hne. unfold is_relative_to.
  rewrite (relative_to_unrooted _ _ _ Hself HQ Hne).
  destruct (below (_parts self) Q) as [rest|]; [|done].
  cbn [pathcls]. rewrite construct_str. simpl. by destruct rest.
Qed.

(** The file test of the two loops, by parts. *)
Lemma file_child_test self Q r :
  pathcls self = ClsDandiPath -> Q ≠ [] ->
  path_eq self (parent (mkPath ClsDandiPath "" "" Q r))
  = match below (_parts self) Q with
    | Some [_] => true
    | _ => false
    end.
Proof.
  intros Hcls Hne. unfold parent, path_eq, _cparts, Flavour.casefold_parts.
  cbn [_drv _root _parts pathcls remote truthy String.eqb negb orb].
  rewrite andb_false_r. cbn [_from_parsed_parts _parts pathcls]. rewrite Hcls.
  rewrite (bool_decide_eq_true_2 (_flavour _ = _)) by done. rewrite andb_true_r.
  unfold Py.slice_to. change (-1 <? 0)%Z with true. cbv iota.
  replace (Z.to_nat (Z.of_nat (length Q) + -1)) with (length Q - 1) by lia.
  destruct (below (_parts self) Q) as [rest|] eqn:Hb.
  - apply below_Some in Hb as ->. rewrite length_app.
    destruct rest as [|x [|y rest]].
    + rewrite app_nil_r in Hne |- *. apply bool_decide_eq_false_2. intros Heq.
      apply (f_equal length) in Heq. rewrite length_take in Heq.
      destruct (_parts self); [done|]. simpl in Heq. lia.
    + simpl length. replace (length (_parts self) + 1 - 1) with (length (_parts self)) by lia.
      by rewrite take_app_length, bool_decide_eq_true_2.
    + apply bool_decide_eq_false_2. intros Heq.
      apply (f_equal length) in Heq. rewrite length_take, length_app in Heq.
      simpl in Heq. lia.
  - apply below_None in Hb. apply bool_decide_eq_false_2. intros Heq. apply Hb.
    rewrite Heq. apply prefix_take.
Qed.

Lemma joinpath_seg self seg :
  wf_segb seg = true ->
  joinpath self [ArgStr seg] = Ok (_make_child_relpath self seg).
Proof.
  intros Hseg. unfold joinpath, _make_child, _parse_args_with_remote. simpl.
  rewrite (parse_parts_id "" "" [seg])
    by (apply wf_tripleb_spec; split; [done|left]; cbn [forallb]; by rewrite Hseg).
  simpl. unfold _make_child_relpath, _from_parsed_parts. by destruct (remote self).
Qed.

Lemma child_relpath_eq self a b :
  path_eq (_make_child_relpath self a) (_make_child_relpath self b) = bool_decide (a = b).
Proof.
  unfold path_eq, _make_child_relpath, _cparts, Flavour.casefold_parts. simpl.
  rewrite (bool_decide_eq_true_2 (_flavour _ = _)) by done. rewrite andb_true_r.
  apply bool_decide_ext. split; [|by intros ->].
  intros H%app_inv_head. congruence.
Qed.

Lemma existsb_child_relpath self seg seen :
  existsb (path_eq (_make_child_relpath self seg)) (_make_child_relpath self <$> seen)
  = bool_decide (seg ∈ seen).
Proof.
  induction seen as [|x seen IH].
  - symmetry. apply bool_decide_eq_false_2. by intros ?%elem_of_nil.
  - cbn [fmap list_fmap existsb]. fold (fmap (M:=list) (_make_child_relpath self) seen).
    rewrite IH, child_relpath_eq.
    destruct (decide (seg = x)) as [->|Hne].
    + rewrite (bool_decide_eq_true_2 (x = x)) by done.
      symmetry. apply bool_decide_eq_true_2. left.
    + rewrite (bool_decide_eq_false_2 (seg = x)) by done. simpl.
      apply bool_decide_ext. set_solver.
Qed.

Lemma below_unrooted self Q rest :
  wf_path self -> forallb wf_segb Q = true -> below (_parts self) Q = Some rest ->
  _root self = "" ∧ forallb wf_segb rest = true.
Proof.
  intros Hself HQ Hb. apply below_Some in Hb as ->.
  apply forallb_app_iff in HQ as [HP Hrest]. split; [|done].
  destruct (truthy (_root self)) eqn:Hr; [|by apply truthy_false].
  destruct (wf_rooted_parts self Hself Hr) as (segs & Hp & Hnr).
  rewrite Hp in HP. simpl in HP. by rewrite Hnr in HP.
Qed.

Lemma iterdir_loop_spec self listing seen :
  wf_path self -> pathcls self = ClsDandiPath -> forallb asset_ok listing = true ->
  iterdir_loop self listing seen
  = (child_name <$> children_from (_parts self) seen listing, Returned).
Proof.
  intros Hself Hcls. revert seen.
  induction listing as [|asset listing IH]; intros seen Hok; [done|].
  simpl in Hok. apply andb_true_iff in Hok as [Ha Hok].
  destruct (asset_ok_dandi asset None Ha) as (Q & HQ & Hparse & Hwf & Hne).
  cbn [iterdir_loop children_from]. rewrite DandiPath_new_str, HQ. cbn [Gen.lift].
  rewrite (file_child_test _ _ _ Hcls Hne).
  rewrite (is_relative_to_unrooted _ _ _ Hself Hwf Hne).
  rewrite (relative_to_unrooted _ _ _ Hself Hwf Hne).
  unfold classify. rewrite Hparse.
  destruct (below (_parts self) Q) as [[|x [|y rest]]|] eqn:Hb; cbn [Gen.lift _parts].
  - by apply IH.
  - apply below_Some in Hb as ->. unfold item_last. rewrite last_snoc. cbn [Gen.lift].
    rewrite (IH seen Hok). done.
  - cbn [item_first Gen.lift]. destruct (bool_decide (x ∈ seen)); [by apply IH|].
    rewrite (IH _ Hok). done.
  - by apply IH.
Qed.

Lemma scandir_loop_spec self listing seen :
  wf_path self -> pathcls self = ClsDandiPath -> forallb asset_ok listing = true ->
  scandir_loop self listing (_make_child_relpath self <$> seen)
  = ((fun c => _make_child_relpath self (child_name c))
       <$> children_from (_parts self) seen listing, Returned).
Proof.
  intros Hself Hcls. revert seen.
  induction listing as [|asset listing IH]; intros seen Hok; [done|].
  simpl in Hok. apply andb_true_iff in Hok as [Ha Hok].
  destruct (asset_ok_dandi asset (remote self) Ha) as (Q & HQ & Hparse & Hwf & Hne).
  cbn [scandir_loop children_from]. rewrite DandiPath_new_str, HQ. cbn [Gen.lift].
  rewrite (file_child_test _ _ _ Hcls Hne).
  rewrite (is_relative_to_unrooted _ _ _ Hself Hwf Hne).
  rewrite (relative_to_unrooted _ _ _ Hself Hwf Hne).
  unfold classify. rewrite Hparse.
  destruct (below (_parts self) Q) as [[|x [|y rest]]|] eqn:Hb; cbn [Gen.lift _parts].
  - by apply IH.
  - destruct (below_unrooted _ _ _ Hself Hwf Hb) as [Hroot _].
    apply below_Some in Hb as ->. rewrite (IH seen Hok).
    unfold Gen.yield. cbn [fst snd fmap list_fmap child_name]. do 2 f_equal.
    unfold _make_child_relpath, _from_parsed_parts.
    by rewrite Hcls, (wf_drv _ Hself), Hroot.
  - destruct (below_unrooted _ _ _ Hself Hwf Hb) as [_ Hrest].
    simpl in Hrest. apply andb_true_iff in Hrest as [Hx _].
    cbn [item_first Gen.lift]. rewrite (joinpath_seg _ _ Hx). cbn [Gen.lift].
    rewrite existsb_child_relpath.
    destruct (bool_decide (x ∈ seen)); [by apply IH|].
    specialize (IH (seen ++ [x]) Hok). rewrite fmap_app in IH. cbn [fmap list_fmap] in IH.
    rewrite IH. done.
  - by apply IH.
Qed.

Lemma is_dir_loop_ok self listing :
  wf_path self -> forallb asset_ok listing = true ->
  ∃ d, is_dir_loop self listing = Ok d.
Proof.
  intros Hself. induction listing as [|asset listing IH]; intros Hok; [by eexists|].
  simpl in Hok. apply andb_true_iff in Hok as [Ha Hok].
  destruct (asset_ok_dandi asset None Ha) as (Q & HQ & Hparse & Hwf & Hne).
  cbn [is_dir_loop]. rewrite DandiPath_new_str, HQ. simpl.
  rewrite (is_relative_to_unrooted _ _ _ Hself Hwf Hne). simpl.
  destruct (below (_parts self) Q) as [[|? ?]|]; eauto.
Qed.

(** *** The listing by the specification's words *)

Lemma children_from_files P seen listing :
  file_names (children_from P seen listing) = file_names (omap (classify P) listing).
Proof.
  revert seen. induction listing as [|a listing IH]; intros seen; [done|].
  cbn [children_from omap list_omap]. fold (omap (classify P) listing).
  destruct (classify P a) as [[n|n]|]; [| |by apply IH].
  - unfold file_names. cbn [omap list_omap]. f_equal. apply IH.
  - destruct (bool_decide (n ∈ seen)); unfold file_names; cbn [omap list_omap]; apply IH.
Qed.

Lemma children_from_dirs P seen listing seg :
  seg ∈ dir_names (children_from P seen listing)
  <-> (seg ∉ seen) ∧ seg ∈ dir_names (omap (classify P) listing).
Proof.
  revert seen. induction listing as [|a listing IH]; intros seen.
  - cbn. set_solver.
  - cbn [children_from omap list_omap]. fold (omap (classify P) listing).
    destruct (classify P a) as [[n|n]|]; [| |by apply IH].
    + unfold dir_names. cbn [omap list_omap]. apply IH.
    + unfold dir_names. cbn [omap list_omap].
      fold (dir_names (omap (classify P) listing)).
      destruct (bool_decide (n ∈ seen)) eqn:Hn.
      * apply bool_decide_eq_true in Hn.
        fold (dir_names (children_from P seen listing)). rewrite IH. set_solver.
      * apply bool_decide_eq_false in Hn. cbn [omap list_omap].
        fold (dir_names (children_from P (seen ++ [n]) listing)).
        rewrite elem_of_cons, IH. rewrite elem_of_app, elem_of_cons.
        destruct (decide (seg = n)) as [->|]; set_solver.
Qed.

Lemma children_from_dirs_NoDup P seen listing :
  NoDup (dir_names (children_from P seen listing)).
Proof.
  revert seen. induction listing as [|a listing IH]; intros seen; [constructor|].
  cbn [children_from].
  destruct (classify P a) as [[n|n]|]; [apply IH| |apply IH].
  destruct (bool_decide (n ∈ seen)); [apply IH|].
  unfold dir_names. cbn [omap list_omap]. constructor; [|apply IH].
  fold (dir_names (children_from P (seen ++ [n]) listing)).
  rewrite children_from_dirs, elem_of_app, elem_of_cons. tauto.
Qed.

Lemma children_from_sublist P seen listing :
  children_from P seen listing `sublist_of` omap (classify P) listing.
Proof.
  revert seen. induction listing as [|a listing IH]; intros seen; [done|].
  cbn [children_from omap list_omap]. fold (omap (classify P) listing).
  destruct (classify P a) as [[n|n]|]; [by apply sublist_skip| |by apply IH].
  destruct (bool_decide (n ∈ seen)); [by apply sublist_cons|by apply sublist_skip].
Qed.

(** One more asset adds a pseudo-directory exactly when its segment was
    not seen before: the order is that of first sight. *)
Lemma children_from_snoc P seen listing a :
  children_from P seen (listing ++ [a])
  = children_from P seen listing ++
    match classify P a with
    | Some (File n) => [File n]
    | Some (Dir seg) =>
        if bool_decide (seg ∈ seen ++ dir_names (children_from P seen listing))
        then [] else [Dir seg]
    | None => []
    end.
Proof.
  revert seen. induction listing as [|b listing IH]; intros seen.
  - cbn. destruct (classify P a) as [[n|n]|]; [done| |done].
    rewrite app_nil_r. by destruct (bool_decide (n ∈ seen)).
  - cbn [app children_from].
    destruct (classify P b) as [[n|n]|]; [by rewrite IH| |by rewrite IH].
    destruct (bool_decide (n ∈ seen)) eqn:Hn; [by rewrite IH|].
    rewrite IH. cbn [app]. f_equal. f_equal.
    destruct (classify P a) as [[m|m]|]; [done| |done].
    match goal with
    | |- (if bool_decide ?A then _ else _) = (if bool_decide ?B then _ else _) =>
        rewrite (bool_decide_ext A B); [done|]
    end.
    change (dir_names (Dir n :: children_from P (seen ++ [n]) listing))
      with (n :: dir_names (children_from P (seen ++ [n]) listing)).
    rewrite !elem_of_app, !elem_of_cons, elem_of_nil. tauto.
Qed.

Lemma children_from_first_seen P seen listing :
  seen ++ dir_names (children_from P seen listing)
  = first_seen_from seen (dir_names (omap (classify P) listing)).
Proof.
  revert seen. induction listing as [|a listing IH]; intros seen.
  - cbn. by rewrite app_nil_r.
  - cbn [children_from omap list_omap]. fold (omap (classify P) listing).
    destruct (classify P a) as [[n|n]|]; [apply IH| |apply IH].
    change (dir_names (Dir n :: omap (classify P) listing))
      with (n :: dir_names (omap (classify P) listing)).
    unfold first_seen_from. cbn [fold_left].
    destruct (bool_decide (n ∈ seen)); [apply IH|].
    change (dir_names (Dir n :: children_from P (seen ++ [n]) listing))
      with (n :: dir_names (children_from P (seen ++ [n]) listing)).
    fold (first_seen_from (seen ++ [n]) (dir_names (omap (classify P) listing))).
    rewrite <- IH. by rewrite <- app_assoc.
Qed.

Lemma not_a_directory kind self :
  is_dir self = Ok false -> iterate_children kind self = ([], Raised NotADirectoryError).
Proof.
  intros Hd. destruct kind; unfold iterate_children, iterdir, scandir; by rewrite Hd.
Qed.

(** C1, as the code has it.  Iterating the children of a path that is not
    a directory raises [NotADirectoryError], for [iterdir] and for
    [scandir].  On a directory of a store of relative asset paths, both
    run through the assets under the prefix and yield
    - for every asset one level below, that file child, where the asset
      stands in the listing;
    - one pseudo-directory for every distinct first remaining segment of
      the assets further below, where the segment is first seen;
    [iterdir] yields the names as strings, [scandir] yields the child paths,
    each carrying the handle of the directory. *)
Theorem children_of_directory (kind : IterKind) (self : RemotePath) :
  (is_dir self = Ok false ->
   iterate_children kind self = ([], Raised NotADirectoryError)) ∧
  (∀ ds,
     wf_path self -> pathcls self = ClsDandiPath ->
     remote self = Some ds -> store_ok ds = true -> is_dir self = Ok true ->
     let listing := get_assets_with_path_prefix ds (path_str self) in
     let described := omap (classify (_parts self)) listing in
     iterate_children kind self
     = (yielded_for kind self <$> children_of self ds, Returned) ∧
     file_names (children_of self ds) = file_names described ∧
     dir_names (children_of self ds) = first_seen (dir_names described) ∧
     NoDup (dir_names (children_of self ds)) ∧
     children_of self ds `sublist_of` described ∧
     (∀ c, yielded_for Iterdir self c = YStr (child_name c) ∧
           ∃ q, yielded_for Scandir self c = YPath q ∧
                remote q = remote self ∧ name q = child_name c ∧
                parent q = self)).
Proof.
  split; [apply not_a_directory|].
  intros ds Hself Hcls Hrem Hstore Hdir listing described.
  assert (forallb asset_ok listing = true) as Hok.
  { apply forallb_forall. intros a Ha%list_elem_of_In.
    apply list_elem_of_filter in Ha as [_ Ha].
    unfold store_ok in Hstore. rewrite forallb_forall in Hstore.
    by apply Hstore, list_elem_of_In. }
  split; [|split; [|split; [|split; [|split]]]].
  - destruct kind; unfold iterate_children, iterdir, scandir; rewrite Hdir, Hrem;
      cbn [Gen.lift negb].
    + rewrite (iterdir_loop_spec _ _ _ Hself Hcls Hok). unfold Gen.map. cbn [fst snd].
      by rewrite <- list_fmap_compose.
    + change (scandir_loop self (get_assets_with_path_prefix ds (path_str self)) [])
        with (scandir_loop self listing (_make_child_relpath self <$> [])).
      rewrite (scandir_loop_spec self _ [] Hself Hcls Hok). unfold Gen.map. cbn [fst snd].
      by rewrite <- list_fmap_compose.
  - apply children_from_files.
  - apply (children_from_first_seen (_parts self) []).
  - apply children_from_dirs_NoDup.
  - apply children_from_sublist.
  - intros c. split; [done|]. eexists. split; [done|]. split; [done|].
    unfold name, parent, _make_child_relpath, _from_parsed_parts.
    cbn [_drv _root _parts pathcls remote]. rewrite length_app, last_snoc.
    cbn [length default]. split.
    + pose proof (wf_anchored_parts self Hself) as Hlen.
      destruct (anchored (_drv self) (_root self));
        (destruct (_ =? _) eqn:Hl; [apply Nat.eqb_eq in Hl|done]).
      * specialize (Hlen eq_refl). lia.
      * lia.
    + pose proof (wf_anchored_parts self Hself) as Hlen. unfold anchored in Hlen.
      destruct (truthy (_drv self) || truthy (_root self)).
      * specialize (Hlen eq_refl).
        destruct (_ =? 1) eqn:Hl; [apply Nat.eqb_eq in Hl; lia|]. cbn [andb].
        unfold Py.slice_to. change (-1 <? 0)%Z with true. cbv iota.
        rewrite length_app. cbn [length].
        replace (Z.to_nat (Z.of_nat (length (_parts self) + 1) + -1))
          with (length (_parts self)) by lia.
        rewrite take_app_length. by destruct self.
      * rewrite andb_false_r.
        unfold Py.slice_to. change (-1 <? 0)%Z with true. cbv iota.
        rewrite length_app. cbn [length].
        replace (Z.to_nat (Z.of_nat (length (_parts self) + 1) + -1))
          with (length (_parts self)) by lia.
        rewrite take_app_length. by destruct self.
Qed.

Lemma children_of_directory_witness :
  iterate_children Scandir (dandi "sub-01" (Some store_sub01))
  = (yielded_for Scandir (dandi "sub-01" (Some store_sub01)) <$> [Dir "ses-1"; Dir "ses-2"],
     Returned) ∧
  iterate_children Iterdir (dandi "sub-01" (Some store_sub01))
  = ([YStr "ses-1"; YStr "ses-2"], Returned).
Proof.
  split.
  - apply (proj2 (children_of_directory Scandir (dandi "sub-01" (Some store_sub01)))
             store_sub01); reflexivity.
  - apply (proj2 (children_of_directory Iterdir (dandi "sub-01" (Some store_sub01)))
             store_sub01); reflexivity.
Defined.

(** C1 as stated fails for [iterdir]: what it yields for a pseudo-directory
    is a string, not a path carrying the handle. *)
Lemma iterdir_yields_strings :
  iterate_children Iterdir (dandi "sub-01" (Some store_sub01))
  = ([YStr "ses-1"; YStr "ses-2"], Returned) ∧
  ¬ (∀ y, y ∈ (iterate_children Iterdir (dandi "sub-01" (Some store_sub01))).1 ->
          ∃ q, y = YPath q ∧ remote q = Some store_sub01).
Proof.
  split; [by vm_compute|]. intros H.
  destruct (H (YStr "ses-1")) as (q & Hq & _); [|done].
  vm_compute. left.
Qed.

(** ** Duplicates under the recursive wildcard *)

Lemma path_key_eq p q : path_key p = path_key q <-> path_eq p q = true.
Proof.
  rewrite path_eq_spec. unfold path_key. split.
  - intros [= Hparts Hfl]. split; [done|].
    destruct (pathcls p), (pathcls q); done.
  - intros [-> Hfl]. f_equal. by rewrite Hfl.
Qed.

Lemma dedups_chain_of compile_pattern parts :
  dedups (chain_of compile_pattern parts) = stars_after_exact parts.
Proof.
  induction parts as [|pat rest IH]; [done|]. simpl.
  destruct (String.eqb pat "**"); [done|]. by destruct (_is_wildcard_pattern pat).
Qed.

Lemma yield_new_fresh yielded ps :
  NoDup (path_key <$> yield_new yielded ps) ∧
  ∀ p, p ∈ yield_new yielded ps -> (path_key p ∉ yielded) ∧ p ∈ ps.
Proof.
  revert yielded. induction ps as [|p ps IH]; intros yielded.
  - split; [constructor|]. by intros p ?%elem_of_nil.
  - cbn [yield_new]. destruct (bool_decide (path_key p ∈ yielded)) eqn:Hin.
    + destruct (IH yielded) as [Hnd Hfresh]. split; [done|].
      intros q Hq. destruct (Hfresh q Hq). split; [done|by right].
    + apply bool_decide_eq_false in Hin.
      destruct (IH ({[path_key p]} ∪ yielded)) as [Hnd Hfresh]. split.
      * cbn [fmap list_fmap]. constructor; [|done].
        intros (q & Hk & Hq)%list_elem_of_fmap. apply Hfresh in Hq as [Hq _].
        rewrite Hk in Hq. set_solver.
      * intros q [->|Hq]%elem_of_cons; [split; [done|left]|].
        destruct (Hfresh q Hq) as [Hnq ?]. split; [set_solver|by right].
Qed.

(** Every path that is not yielded was yielded before: nothing is lost. *)
Lemma yield_new_complete yielded ps p :
  p ∈ ps -> path_key p ∈ yielded ∨ path_key p ∈ path_key <$> yield_new yielded ps.
Proof.
  revert yielded. induction ps as [|q ps IH]; intros yielded; [by intros ?%elem_of_nil|].
  cbn [yield_new]. intros [->|Hp]%elem_of_cons.
  - destruct (bool_decide (path_key q ∈ yielded)) eqn:Hin.
    + left. by apply bool_decide_eq_true in Hin.
    + right. cbn [fmap list_fmap]. left.
  - destruct (bool_decide (path_key q ∈ yielded)); [by apply IH|].
    destruct (IH ({[path_key q]} ∪ yielded) Hp) as [Hin|Hin].
    + apply elem_of_union in Hin as [->%elem_of_singleton|Hin]; [|by left].
      right. cbn [fmap list_fmap]. left.
    + right. cbn [fmap list_fmap]. by right.
Qed.

Section Dedup.

Variable compile_pattern : string -> Result (string -> bool).

Lemma except_PermissionError_yields {A} (g : Gen A) :
  (Gen.except_PermissionError g).1 = g.1.
Proof. unfold Gen.except_PermissionError. by destruct g.2 as [|[]|]. Qed.

Lemma select_from_dedups_NoDup fuel sel p :
  dedups sel = true ->
  NoDup (path_key <$> (_select_from fuel sel p).1).
Proof.
  revert p. induction sel as [|nm d succ IH|pat d succ IH|d succ IH]; intros p Hd; try done.
  - cbn [_select_from]. rewrite except_PermissionError_yields.
    destruct (if d then is_dir _ else exists_ _) as [[|]|e]; cbn [Gen.lift].
    + by apply IH.
    + constructor.
    + constructor.
  - cbn [_select_from]. rewrite except_PermissionError_yields. cbn [fst].
    apply yield_new_fresh.
Qed.

Lemma top_select_from_yields fuel sel p :
  (select_from fuel sel p).1 = []
  ∨ select_from fuel sel p = _select_from fuel sel p.
Proof.
  unfold select_from. destruct sel; [by left|..];
    (destruct (is_dir p) as [[|]|e]; cbn [Gen.lift]; [by right|by left|by left]).
Qed.

Lemma run_selector_yields self pattern :
  wf_path pattern -> _root pattern = "" ->
  (run_selector compile_pattern self pattern).1 = []
  ∨ refusal compile_pattern (_parts pattern) = None ∧
    run_selector compile_pattern self pattern
    = _select_from (walk_fuel self) (chain_of compile_pattern (_parts pattern)) self.
Proof.
  intros Hwf Hroot. destruct pattern as [cls drv root parts r]. simpl in *. subst root.
  pose proof (wf_drv _ Hwf) as Hdrv. simpl in Hdrv. subst drv.
  pose proof (wf_unrooted_segs _ Hwf eq_refl) as Hsegs. simpl in Hsegs.
  rewrite (run_selector_wf _ _ _ _ _ Hsegs).
  destruct parts as [|pat rest]; [by left|].
  destruct (refusal compile_pattern (pat :: rest)); [by left|].
  destruct (top_select_from_yields (walk_fuel self) (chain_of compile_pattern (pat :: rest)) self)
    as [H|H]; [by left|right]. by rewrite H.
Qed.

End Dedup.

(** C5 as stated fails behind a wildcard: the store holds the asset [d/x]
    and an asset below [d/x], [scandir] lists [d/x] as a file and as a
    pseudo-directory, and ["*/**"] runs the recursive selector on it twice,
    each run with a set of its own. *)
Lemma glob_wildcard_before_stars_repeats :
  Gen.map path_str (glob simple_compile (dandi "d" (Some store_conflict)) "*/**")
  = (["d/x"; "d/x"], Returned) ∧
  ¬ NoDup (path_key <$> (glob simple_compile (dandi "d" (Some store_conflict)) "*/**").1).
Proof.
  split; [by vm_compute|].
  intros Hnd. vm_compute in Hnd. apply NoDup_cons in Hnd as [Hnotin _].
  apply Hnotin. left.
Qed.

(** The example of the specification: [x.h5] at depths 0, 2 and 3. *)
Example glob_x_three_distinct :
  Gen.map path_str (glob simple_compile (dandi "top" (Some store_x)) "**/x.h5")
  = (["top/x.h5"; "top/a/b/x.h5"; "top/a/b/c/x.h5"], Returned) ∧
  NoDup (path_key <$> (glob simple_compile (dandi "top" (Some store_x)) "**/x.h5").1).
Proof.
  split; [by vm_compute|].
  apply (select_from_dedups_NoDup
           (walk_fuel (dandi "top" (Some store_x)))
           (chain_of simple_compile ["**"; "x.h5"]) (dandi "top" (Some store_x))).
  reflexivity.
Qed.

(** ** The bounded unfolding is enough

    On a store of relative asset paths a directory lies strictly above
    some asset, so the walk of [_iterate_directories] is no deeper than
    the deepest asset, and [glob] and [rglob] run to their end within
    [walk_fuel]. *)

Lemma seq_finished {A} (g rest : Gen A) :
  finished g -> finished rest -> finished (Gen.seq g rest).
Proof. unfold finished, Gen.seq. by destruct g as [l []]. Qed.

Lemma seq_yields_Forall {A} (P : A -> Prop) (g rest : Gen A) :
  Forall P g.1 -> Forall P rest.1 -> Forall P (Gen.seq g rest).1.
Proof.
  unfold Gen.seq. destruct g as [l []]; [|done..]. intros. by apply Forall_app.
Qed.

Lemma for_list_good {A B} (P : A -> Prop) (items : list B) (body : B -> Gen A) :
  (∀ x, x ∈ items -> finished (body x) ∧ Forall P (body x).1) ->
  finished (Gen.for_list items body) ∧ Forall P (Gen.for_list items body).1.
Proof.
  induction items as [|x items IH]; intros Hbody; [by split|].
  cbn [Gen.for_list].
  destruct (Hbody x) as [Hf HP]; [left|].
  destruct IH as [IHf IHP]; [intros y Hy; apply Hbody; by right|].
  split; [by apply seq_finished|by apply seq_yields_Forall].
Qed.

Lemma wf_child_relpath p n :
  wf_path p -> wf_segb n = true -> wf_path (_make_child_relpath p n).
Proof.
  unfold wf_path, _make_child_relpath, _from_parsed_parts. cbn [_drv _root _parts].
  intros (Hd & [[Hr Hs]|[Hr (segs & Hp & Hs)]])%wf_tripleb_spec Hn;
    apply wf_tripleb_spec; (split; [done|]).
  - left. split; [done|]. apply forallb_app_iff. split; [done|]. simpl. by rewrite Hn.
  - right. split; [done|]. exists (segs ++ [n]). rewrite Hp. split; [done|].
    apply forallb_app_iff. split; [done|]. simpl. by rewrite Hn.
Qed.

Lemma name_child_relpath p n :
  wf_path p -> name (_make_child_relpath p n) = n.
Proof.
  intros Hp. unfold name, _make_child_relpath, _from_parsed_parts.
  cbn [_drv _root _parts]. rewrite length_app, last_snoc. cbn [length default].
  pose proof (wf_anchored_parts p Hp) as Hlen.
  destruct (anchored (_drv p) (_root p));
    (destruct (_ =? _) eqn:Hl; [apply Nat.eqb_eq in Hl|done]).
  - specialize (Hlen eq_refl). lia.
  - lia.
Qed.

Lemma bound_to_child ds p n :
  bound_to ds p -> wf_segb n = true -> bound_to ds (_make_child_relpath p n).
Proof.
  intros (Hwf & Hcls & Hrem) Hn. split; [by apply wf_child_relpath|]. by split.
Qed.

Lemma classify_wf P a c :
  asset_ok a = true -> classify P a = Some c -> wf_segb (child_name c) = true.
Proof.
  intros Ha. destruct (asset_ok_dandi a None Ha) as (Q & _ & Hparse & Hwf & _).
  unfold classify. rewrite Hparse.
  destruct (below P Q) as [rest|] eqn:Hb; [|done].
  apply below_Some in Hb as ->. apply forallb_app_iff in Hwf as [_ Hrest].
  destruct rest as [|x [|y rest]]; [done|..]; intros [= <-]; simpl in *;
    by apply andb_true_iff in Hrest as [-> _].
Qed.

Lemma children_from_wf P seen listing :
  forallb asset_ok listing = true ->
  Forall (fun c => wf_segb (child_name c) = true) (children_from P seen listing).
Proof.
  revert seen. induction listing as [|a listing IH]; intros seen Hok; [constructor|].
  simpl in Hok. apply andb_true_iff in Hok as [Ha Hok]. cbn [children_from].
  destruct (classify P a) as [[n|n]|] eqn:Hc; [| |by apply IH].
  - constructor; [by apply (classify_wf P a (File n))|by apply IH].
  - destruct (bool_decide (n ∈ seen)); [by apply IH|].
    constructor; [by apply (classify_wf P a (Dir n))|by apply IH].
Qed.

Lemma listing_ok ds s :
  store_ok ds = true -> forallb asset_ok (get_assets_with_path_prefix ds s) = true.
Proof.
  intros Hstore. apply forallb_forall. intros a Ha%list_elem_of_In.
  apply list_elem_of_filter in Ha as [_ Ha].
  unfold store_ok in Hstore. rewrite forallb_forall in Hstore.
  by apply Hstore, list_elem_of_In.
Qed.

(** [scandir] on a bound path: an error, or the children as paths. *)
Lemma scandir_cases ds p :
  store_ok ds = true -> bound_to ds p ->
  scandir p = Gen.raise NotADirectoryError
  ∨ ∃ names, Forall (fun n => wf_segb n = true) names ∧
             scandir p = (_make_child_relpath p <$> names, Returned).
Proof.
  intros Hstore (Hwf & Hcls & Hrem). unfold scandir, is_dir. rewrite Hrem.
  pose proof (listing_ok ds (path_str p) Hstore) as Hok.
  destruct (is_dir_loop_ok p _ Hwf Hok) as [[|] ->]; cbn [Gen.lift negb]; [right|by left].
  change (scandir_loop p (get_assets_with_path_prefix ds (path_str p)) [])
    with (scandir_loop p (get_assets_with_path_prefix ds (path_str p))
            (_make_child_relpath p <$> [])).
  rewrite (scandir_loop_spec p _ [] Hwf Hcls Hok).
  exists (child_name <$> children_from (_parts p) [] (get_assets_with_path_prefix ds (path_str p))).
  split.
  - apply Forall_fmap. by apply children_from_wf.
  - by rewrite <- list_fmap_compose.
Qed.

Lemma is_dir_ok ds p :
  store_ok ds = true -> bound_to ds p -> ∃ d, is_dir p = Ok d.
Proof.
  intros Hstore (Hwf & Hcls & Hrem). unfold is_dir. rewrite Hrem.
  apply is_dir_loop_ok; [done|]. by apply listing_ok.
Qed.

Lemma exists_ok ds p :
  store_ok ds = true -> bound_to ds p -> ∃ d, exists_ p = Ok d.
Proof.
  intros Hstore (Hwf & Hcls & Hrem). unfold exists_. rewrite Hrem.
  pose proof (listing_ok ds (path_str p) Hstore) as Hok.
  induction (get_assets_with_path_prefix ds (path_str p)) as [|a listing IH]; [by eexists|].
  simpl in Hok. apply andb_true_iff in Hok as [Ha Hok].
  destruct (asset_ok_dandi a None Ha) as (Q & HQ & Hparse & HwfQ & Hne).
  cbn [exists_loop].
  assert (DandiPath__new__ ClsDandiPath [ArgStr a] true None = Ok (dandi a None)) as ->
    by apply (RemotePath_new_str ClsDandiPath a None).
  rewrite HQ. simpl. destruct (path_eq _ p); [by eexists|].
  rewrite (is_relative_to_unrooted _ _ _ Hwf HwfQ Hne). simpl.
  destruct (below (_parts p) Q) as [[|? ?]|]; eauto.
Qed.

(** A directory lies strictly above some asset. *)
Lemma is_dir_depth ds p :
  store_ok ds = true -> bound_to ds p -> is_dir p = Ok true ->
  length (_parts p) < max_depth ds.
Proof.
  intros Hstore (Hwf & Hcls & Hrem). unfold is_dir. rewrite Hrem.
  pose proof (listing_ok ds (path_str p) Hstore) as Hok.
  assert (∀ a, a ∈ get_assets_with_path_prefix ds (path_str p) -> a ∈ assets ds) as Hsub.
  { intros a Ha. by apply list_elem_of_filter in Ha as [_ Ha]. }
  induction (get_assets_with_path_prefix ds (path_str p)) as [|a listing IH]; [done|].
  simpl in Hok. apply andb_true_iff in Hok as [Ha Hok].
  destruct (asset_ok_dandi a None Ha) as (Q & HQ & Hparse & HwfQ & Hne).
  cbn [is_dir_loop]. rewrite DandiPath_new_str, HQ. simpl.
  rewrite (is_relative_to_unrooted _ _ _ Hwf HwfQ Hne). simpl.
  destruct (below (_parts p) Q) as [[|x rest]|] eqn:Hb;
    try (apply IH; [done|intros b Hb'; apply Hsub; by right]).
  intros _. apply below_Some in Hb.
  assert (depth_of a ≤ max_depth ds) as Hle.
  { apply max_list_elem_of_le, list_elem_of_fmap. exists a. split; [done|]. apply Hsub. left. }
  unfold depth_of in Hle. rewrite Hparse, Hb, length_app in Hle. simpl in Hle. lia.
Qed.

Lemma except_PermissionError_finished {A} (g : Gen A) :
  finished g -> finished (Gen.except_PermissionError g).
Proof. unfold finished, Gen.except_PermissionError. by destruct g as [l [|[]|]]. Qed.

Section Finishes.

Variable compile_pattern : string -> Result (string -> bool).
Variable ds : Dandiset.
Hypothesis Hstore : store_ok ds = true.

Lemma iterate_directories_good fuel p :
  bound_to ds p -> S (max_depth ds) ≤ fuel + length (_parts p) -> 1 ≤ fuel ->
  finished (_iterate_directories fuel p) ∧
  Forall (bound_to ds) (_iterate_directories fuel p).1.
Proof.
  revert p. induction fuel as [|fuel IH]; intros p Hp Hsum Hpos; [lia|].
  cbn [_iterate_directories].
  match goal with
  | |- context [Gen.yield p ?g] =>
      assert (finished g ∧ Forall (bound_to ds) g.1) as [Hf Hall]
  end.
  2:{ split; [done|]. cbn. by constructor. }
  match goal with
  | |- finished ?g ∧ Forall _ (?g).1 =>
      match g with
      | Gen.except_PermissionError ?h =>
          assert (finished h ∧ Forall (bound_to ds) h.1) as [Hf Hall]
      end
  end.
  2:{ split; [by apply except_PermissionError_finished|].
      by rewrite except_PermissionError_yields. }
  destruct (scandir_cases ds p Hstore Hp) as [->|(names & Hnames & ->)]; [by split|].
  cbn [Gen.to_list snd fst Gen.lift].
  apply for_list_good. intros entry (n & -> & Hn)%list_elem_of_fmap.
  rewrite Forall_forall in Hnames. specialize (Hnames n Hn).
  pose proof (bound_to_child ds p n Hp Hnames) as Hentry.
  destruct (is_dir_ok ds _ Hstore Hentry) as [[|] Hd]; rewrite Hd; cbn [Gen.lift]; [|by split].
  destruct Hp as (Hwf & _ & _). rewrite (name_child_relpath p n Hwf).
  pose proof (is_dir_depth ds _ Hstore Hentry Hd) as Hdepth.
  unfold _make_child_relpath, _from_parsed_parts in Hdepth. cbn [_parts] in Hdepth.
  rewrite length_app in Hdepth. simpl in Hdepth.
  apply IH; [done| |lia].
  unfold _make_child_relpath, _from_parsed_parts. cbn [_parts].
  rewrite length_app. simpl. lia.
Qed.

Lemma select_from_good fuel sel p :
  bound_to ds p -> wf_selector sel = true -> S (max_depth ds) ≤ fuel ->
  finished (_select_from fuel sel p) ∧
  Forall (bound_to ds) (_select_from fuel sel p).1.
Proof.
  intros Hp Hsel Hfuel. revert p Hp.
  induction sel as [|nm d succ IH|pat d succ IH|d succ IH]; intros p Hp;
    cbn [_select_from wf_selector] in *.
  - split; [done|]. cbn. constructor; [done|constructor].
  - apply andb_true_iff in Hsel as [Hnm Hsucc].
    pose proof (bound_to_child ds p nm Hp Hnm) as Hchild.
    split; [apply except_PermissionError_finished|rewrite except_PermissionError_yields].
    + destruct d.
      * destruct (is_dir_ok ds _ Hstore Hchild) as [[|] ->]; cbn [Gen.lift]; [|done].
        by apply IH.
      * destruct (exists_ok ds _ Hstore Hchild) as [[|] ->]; cbn [Gen.lift]; [|done].
        by apply IH.
    + destruct d.
      * destruct (is_dir_ok ds _ Hstore Hchild) as [[|] ->]; cbn [Gen.lift]; [|done].
        by apply IH.
      * destruct (exists_ok ds _ Hstore Hchild) as [[|] ->]; cbn [Gen.lift]; [|done].
        by apply IH.
  - assert (∀ g : Gen RemotePath,
              finished g ∧ Forall (bound_to ds) g.1 ->
              finished (Gen.except_PermissionError g) ∧
              Forall (bound_to ds) (Gen.except_PermissionError g).1) as Hexc.
    { intros g [??]. split; [by apply except_PermissionError_finished|].
      by rewrite except_PermissionError_yields. }
    apply Hexc.
    destruct (scandir_cases ds p Hstore Hp) as [->|(names & Hnames & ->)]; [by split|].
    cbn [Gen.to_list snd fst Gen.lift].
    apply for_list_good. intros entry (n & -> & Hn)%list_elem_of_fmap.
    rewrite Forall_forall in Hnames. specialize (Hnames n Hn).
    pose proof (bound_to_child ds p n Hp Hnames) as Hentry.
    assert (∃ keep, (if d then is_dir (_make_child_relpath p n) else Ok true) = Ok keep)
      as [keep ->].
    { destruct d; [by apply (is_dir_ok ds)|by eexists]. }
    cbn [Gen.lift]. destruct keep; [|by split].
    destruct Hp as (Hwf & _ & _). rewrite (name_child_relpath p n Hwf).
    destruct (pat n); [|by split]. by apply IH.
  - destruct (iterate_directories_good fuel p Hp) as [Hf Hall]; [lia..|].
    assert (finished (Gen.for_gen (_iterate_directories fuel p)
                        (fun sp => _select_from fuel succ sp)) ∧
            Forall (bound_to ds)
              (Gen.for_gen (_iterate_directories fuel p)
                 (fun sp => _select_from fuel succ sp)).1) as [Hff Hfall].
    { unfold Gen.for_gen.
      destruct (for_list_good (bound_to ds) (_iterate_directories fuel p).1
                  (fun sp => _select_from fuel succ sp)) as [Hlf Hlall].
      { intros sp Hsp. rewrite Forall_forall in Hall. by apply IH, Hall. }
      split; [by apply seq_finished|]. apply seq_yields_Forall; [done|constructor]. }
    split; [by apply except_PermissionError_finished|].
    rewrite except_PermissionError_yields. cbn [fst].
    apply Forall_forall. intros q Hq. apply yield_new_fresh in Hq as [_ Hq].
    rewrite Forall_forall in Hfall. by apply Hfall.
Qed.

End Finishes.

Lemma chain_of_wf compile_pattern parts :
  forallb wf_segb parts = true -> wf_selector (chain_of compile_pattern parts) = true.
Proof.
  induction parts as [|pat rest IH]; [done|]. simpl.
  intros [Hpat Hrest]%andb_true_iff. specialize (IH Hrest).
  destruct (String.eqb pat "**"); [done|].
  destruct (_is_wildcard_pattern pat); [done|]. simpl. by rewrite Hpat.
Qed.

Lemma run_selector_finishes compile_pattern self parts :
  wf_path self -> pathcls self = ClsDandiPath ->
  (∀ ds, remote self = Some ds -> store_ok ds = true) ->
  forallb wf_segb parts = true ->
  finished (run_selector compile_pattern self (mkPath ClsDandiPath "" "" parts (remote self))).
Proof.
  intros Hwf Hcls Hstore Hparts. rewrite (run_selector_wf _ _ _ _ _ Hparts).
  destruct parts as [|pat rest]; [done|].
  destruct (refusal compile_pattern (pat :: rest)); [done|].
  pose proof (chain_of_wf compile_pattern _ Hparts) as Hsel.
  unfold select_from.
  destruct (chain_of compile_pattern (pat :: rest)) eqn:Hchain; [done|..];
    (destruct (remote self) as [ds|] eqn:Hrem;
     [|unfold is_dir; by rewrite Hrem]);
    (assert (bound_to ds self) as Hb by done);
    (destruct (is_dir_ok ds self (Hstore ds eq_refl) Hb) as [[|] ->]; cbn [Gen.lift]; [|done]);
    (apply (select_from_good ds (Hstore ds eq_refl)); [done|done|]);
    unfold walk_fuel, max_depth; by rewrite Hrem.
Qed.

(** [glob] and [rglob] run to their end: the walk never needs more nested
    calls than [walk_fuel] allows, nor the selector construction more than
    the pattern has components. *)
Lemma glob_rglob_finish compile_pattern self s :
  wf_path self -> pathcls self = ClsDandiPath ->
  (∀ ds, remote self = Some ds -> store_ok ds = true) ->
  finished (glob compile_pattern self s) ∧ finished (rglob compile_pattern self s).
Proof.
  intros Hwf Hcls Hstore.
  destruct (relative_pattern s) eqn:Hrel;
    [|by rewrite glob_absolute, rglob_absolute].
  pose proof (dandi_wf s None) as Hs. rewrite (dandi_relative _ _ Hrel) in Hs.
  pose proof (wf_unrooted_segs _ Hs eq_refl) as Hsegs. cbn [_parts] in Hsegs.
  split.
  - destruct (truthy s) eqn:Hts; [|unfold glob; by rewrite Hts].
    rewrite glob_relative, (parse_single_relative _ Hrel) by done.
    by apply run_selector_finishes.
  - rewrite rglob_relative, (parse_single_relative _ Hrel) by done.
    by apply run_selector_finishes.
Qed.

(** ** Stores that mimic a file tree *)

Lemma is_prefixb_spec p q : is_prefixb p q = true <-> p `prefix_of` q.
Proof.
  unfold is_prefixb. destruct (below p q) as [rest|] eqn:Hb.
  - apply below_Some in Hb. split; [by exists rest|done].
  - apply below_None in Hb. split; [done|]. intros. by exfalso.
Qed.

Lemma prefix_free_cons q qs :
  prefix_free (q :: qs) = true <->
  (∀ q', q' ∈ qs -> ¬ q `prefix_of` q' ∧ ¬ q' `prefix_of` q) ∧ prefix_free qs = true.
Proof.
  cbn [prefix_free]. rewrite andb_true_iff, forallb_forall. split.
  - intros [Hall Hfree]. split; [|done]. intros q' Hq'%list_elem_of_In.
    specialize (Hall q' Hq'). apply andb_true_iff in Hall as [H1 H2].
    apply negb_true_iff in H1, H2. rewrite <- !is_prefixb_spec. by rewrite H1, H2.
  - intros [Hall Hfree]. split; [|done]. intros q' Hq'%list_elem_of_In.
    destruct (Hall q' Hq') as [H1 H2]. rewrite <- is_prefixb_spec in H1, H2.
    apply andb_true_iff. split; apply negb_true_iff; by apply not_true_is_false.
Qed.

Lemma prefix_free_filter {A} (f : A -> list string) (P : A -> Prop)
    `{!∀ x, Decision (P x)} (l : list A) :
  prefix_free (f <$> l) = true -> prefix_free (f <$> filter P l) = true.
Proof.
  induction l as [|a l IH]; [done|]. cbn [fmap list_fmap].
  intros [Hall Hfree]%prefix_free_cons. rewrite filter_cons.
  destruct (decide (P a)); [|by apply IH].
  cbn [fmap list_fmap]. apply prefix_free_cons. split; [|by apply IH].
  intros q' (b & -> & Hb)%list_elem_of_fmap. apply Hall.
  apply list_elem_of_fmap. exists b. split; [done|].
  by apply list_elem_of_filter in Hb as [_ Hb].
Qed.

(** Where a child of the listing comes from. *)
Lemma children_from_origin P seen listing c :
  c ∈ children_from P seen listing ->
  match c with
  | File n => ∃ b, b ∈ listing ∧ parts_of b = P ++ [n]
  | Dir n => (n ∉ seen) ∧ ∃ b y rest, b ∈ listing ∧ parts_of b = P ++ n :: y :: rest
  end.
Proof.
  revert seen. induction listing as [|a listing IH]; intros seen; [by intros ?%elem_of_nil|].
  cbn [children_from].
  assert (∀ seen', c ∈ children_from P seen' listing ->
            (∀ n, n ∈ seen -> n ∈ seen') ->
            match c with
            | File n => ∃ b, b ∈ a :: listing ∧ parts_of b = P ++ [n]
            | Dir n => (n ∉ seen) ∧ ∃ b y rest, b ∈ a :: listing ∧ parts_of b = P ++ n :: y :: rest
            end) as Hrest.
  { intros seen' Hc Hsub. specialize (IH seen' Hc). destruct c as [n|n].
    - destruct IH as (b & Hb & Hparts). exists b. split; [by right|done].
    - destruct IH as (Hn & b & y & rest & Hb & Hparts).
      split; [by intros ?%Hsub|]. exists b, y, rest. split; [by right|done]. }
  unfold classify. fold (parts_of a).
  destruct (below P (parts_of a)) as [[|x [|y rest]]|] eqn:Hb;
    try (intros Hc; by apply (Hrest seen)).
  - apply below_Some in Hb. intros [->|Hc]%elem_of_cons; [|by apply (Hrest seen)].
    exists a. split; [left|done].
  - apply below_Some in Hb. destruct (bool_decide (x ∈ seen)) eqn:Hx;
      [intros Hc; by apply (Hrest seen)|].
    apply bool_decide_eq_false in Hx.
    intros [->|Hc]%elem_of_cons.
    + split; [done|]. exists a, y, rest. split; [left|done].
    + apply (Hrest (seen ++ [x])); [done|]. intros n Hn. apply elem_of_app. by left.
Qed.

Lemma children_names_NoDup P seen listing :
  prefix_free (parts_of <$> listing) = true ->
  NoDup (child_name <$> children_from P seen listing).
Proof.
  revert seen. induction listing as [|a listing IH]; intros seen; [constructor|].
  cbn [fmap list_fmap]. intros [Hall Hfree]%prefix_free_cons. cbn [children_from].
  unfold classify. fold (parts_of a).
  destruct (below P (parts_of a)) as [[|x [|y rest]]|] eqn:Hb; try by apply IH.
  - apply below_Some in Hb. cbn [fmap list_fmap child_name]. constructor; [|by apply IH].
    intros (c & Hname & Hc)%list_elem_of_fmap. apply children_from_origin in Hc.
    destruct c as [n|n]; simpl in Hname; subst n.
    + destruct Hc as (b & Hin & Hparts).
      destruct (Hall (parts_of b)) as [Hno _];
        [apply list_elem_of_fmap; by exists b|].
      apply Hno. by rewrite Hb, Hparts.
    + destruct Hc as (_ & b & y & rest & Hin & Hparts).
      destruct (Hall (parts_of b)) as [Hno _];
        [apply list_elem_of_fmap; by exists b|].
      apply Hno. rewrite Hb, Hparts. apply prefix_app, prefix_cons, prefix_nil.
  - apply below_Some in Hb. destruct (bool_decide (x ∈ seen)); [by apply IH|].
    cbn [fmap list_fmap child_name]. constructor; [|by apply IH].
    intros (c & Hname & Hc)%list_elem_of_fmap. apply children_from_origin in Hc.
    destruct c as [n|n]; simpl in Hname; subst n.
    + destruct Hc as (b & Hin & Hparts).
      destruct (Hall (parts_of b)) as [_ Hno];
        [apply list_elem_of_fmap; by exists b|].
      apply Hno. rewrite Hb, Hparts. apply prefix_app, prefix_cons, prefix_nil.
    + destruct Hc as (Hn & _). apply Hn. apply elem_of_app. right. left.
Qed.

Lemma scandir_cases_tree ds p :
  tree_like ds = true -> bound_to ds p ->
  scandir p = Gen.raise NotADirectoryError
  ∨ ∃ names, Forall (fun n => wf_segb n = true) names ∧ NoDup names ∧
             scandir p = (_make_child_relpath p <$> names, Returned).
Proof.
  intros [Hstore Hfree]%andb_true_iff (Hwf & Hcls & Hrem). unfold scandir, is_dir.
  rewrite Hrem.
  pose proof (listing_ok ds (path_str p) Hstore) as Hok.
  destruct (is_dir_loop_ok p _ Hwf Hok) as [[|] ->]; cbn [Gen.lift negb]; [right|by left].
  change (scandir_loop p (get_assets_with_path_prefix ds (path_str p)) [])
    with (scandir_loop p (get_assets_with_path_prefix ds (path_str p))
            (_make_child_relpath p <$> [])).
  rewrite (scandir_loop_spec p _ [] Hwf Hcls Hok).
  exists (child_name <$> children_from (_parts p) [] (get_assets_with_path_prefix ds (path_str p))).
  split; [|split].
  - apply Forall_fmap. by apply children_from_wf.
  - apply children_names_NoDup. by apply prefix_free_filter.
  - by rewrite <- list_fmap_compose.
Qed.

Lemma extends_refl p : extends p p.
Proof. by split. Qed.

Lemma extends_child p n q : extends (_make_child_relpath p n) q -> extends p q.
Proof.
  intros [Hpre Hcls]. split; [|done]. cbn in Hpre. by eapply prefix_app_l.
Qed.

Lemma seq_elem_of {A} (g rest : Gen A) x :
  x ∈ (Gen.seq g rest).1 -> x ∈ g.1 ∨ x ∈ rest.1.
Proof.
  unfold Gen.seq. destruct g as [l []]; cbn; [|by left..].
  intros ?%elem_of_app. done.
Qed.

Lemma for_list_elem_of {A B} (items : list B) (body : B -> Gen A) x :
  x ∈ (Gen.for_list items body).1 -> ∃ i, i ∈ items ∧ x ∈ (body i).1.
Proof.
  induction items as [|i items IH]; [by intros ?%elem_of_nil|].
  cbn [Gen.for_list]. intros [Hx|Hx]%seq_elem_of.
  - exists i. split; [left|done].
  - destruct (IH Hx) as (j & Hj & Hxj). exists j. split; [by right|done].
Qed.

Lemma lift_elem_of {A B} (r : Result B) (k : B -> Gen A) x :
  x ∈ (Gen.lift r k).1 -> ∃ b, r = Ok b ∧ x ∈ (k b).1.
Proof. destruct r as [b|e]; cbn; [by exists b|by intros ?%elem_of_nil]. Qed.

(** The concatenation of duplicate-free runs is duplicate-free when equal
    keys can only come from items with equal tags, and the tags of the
    items differ. *)
Lemma for_list_NoDup {A B K T} (key : A -> K) (tag : B -> T)
    (items : list B) (body : B -> Gen A) :
  (∀ i, i ∈ items -> NoDup (key <$> (body i).1)) ->
  (∀ i j a b, i ∈ items -> j ∈ items -> a ∈ (body i).1 -> b ∈ (body j).1 ->
              key a = key b -> tag i = tag j) ->
  NoDup (tag <$> items) ->
  NoDup (key <$> (Gen.for_list items body).1).
Proof.
  induction items as [|i items IH]; intros Hnd Htag Htags; [constructor|].
  cbn [Gen.for_list]. cbn [fmap list_fmap] in Htags. apply NoDup_cons in Htags as [Hi Htags].
  assert (NoDup (key <$> (Gen.for_list items body).1)) as Hrest.
  { apply IH; [| |done].
    - intros j Hj. apply Hnd. by right.
    - intros i' j' a b Hi' Hj' Ha Hb. apply Htag; (by right) || done. }
  unfold Gen.seq. destruct (body i) as [l o] eqn:Hbody.
  assert (NoDup (key <$> l)) as Hl.
  { specialize (Hnd i). rewrite Hbody in Hnd. apply Hnd. left. }
  destruct o; cbn [fst snd]; [|done..].
  rewrite fmap_app. apply NoDup_app. split; [done|]. split; [|done].
  intros k (a & -> & Ha)%list_elem_of_fmap (b & Hk & Hb)%list_elem_of_fmap.
  apply for_list_elem_of in Hb as (j & Hj & Hb).
  apply Hi. apply list_elem_of_fmap. exists j. split; [|done].
  apply (Htag i j a b); [left|by right| |done|done]. by rewrite Hbody.
Qed.

Section Tree.

Variable compile_pattern : string -> Result (string -> bool).

Lemma iterate_directories_extends fuel p q :
  q ∈ (_iterate_directories fuel p).1 -> extends p q.
Proof.
  revert p. induction fuel as [|fuel IH]; intros p; [by intros ?%elem_of_nil|].
  cbn [_iterate_directories]. unfold Gen.yield. cbn [fst].
  intros [->|Hq]%elem_of_cons; [apply extends_refl|].
  rewrite except_PermissionError_yields in Hq.
  apply lift_elem_of in Hq as (entries & _ & Hq).
  apply for_list_elem_of in Hq as (entry & _ & Hq).
  apply lift_elem_of in Hq as ([|] & _ & Hq); [|by apply elem_of_nil in Hq].
  eapply extends_child. by apply IH.
Qed.

Lemma select_from_extends fuel sel p q :
  q ∈ (_select_from fuel sel p).1 -> extends p q.
Proof.
  revert p. induction sel as [|nm d succ IH|pat d succ IH|d succ IH]; intros p;
    cbn [_select_from].
  - unfold Gen.yield. cbn. intros [->|?%elem_of_nil]%elem_of_cons; [apply extends_refl|done].
  - rewrite except_PermissionError_yields.
    intros ([|] & _ & Hq)%lift_elem_of; [|by apply elem_of_nil in Hq].
    eapply extends_child. by apply IH.
  - rewrite except_PermissionError_yields.
    intros (entries & _ & Hq)%lift_elem_of.
    apply for_list_elem_of in Hq as (entry & _ & Hq).
    apply lift_elem_of in Hq as ([|] & _ & Hq); [|by apply elem_of_nil in Hq].
    destruct (pat (name entry)); [|by apply elem_of_nil in Hq].
    eapply extends_child. by apply IH.
  - rewrite except_PermissionError_yields. cbn [fst].
    intros [_ Hq]%yield_new_fresh. unfold Gen.for_gen in Hq.
    apply seq_elem_of in Hq as [Hq|Hq]; [|by apply elem_of_nil in Hq].
    apply for_list_elem_of in Hq as (sp & Hsp & Hq).
    apply iterate_directories_extends in Hsp as [Hpre Hcls].
    apply IH in Hq as [Hpre' Hcls']. split; [by etrans|congruence].
Qed.

Variable ds : Dandiset.
Hypothesis Htree : tree_like ds = true.

Lemma select_from_tree_NoDup fuel sel p :
  bound_to ds p -> wf_selector sel = true ->
  NoDup (path_key <$> (_select_from fuel sel p).1).
Proof.
  intros Hp Hsel. revert p Hp.
  induction sel as [|nm d succ IH|pat d succ IH|d succ IH]; intros p Hp;
    cbn [_select_from wf_selector] in *.
  - cbn. apply NoDup_singleton.
  - apply andb_true_iff in Hsel as [Hnm Hsucc].
    rewrite except_PermissionError_yields.
    destruct (if d then is_dir _ else exists_ _) as [[|]|e]; cbn [Gen.lift];
      [|constructor..].
    apply IH; [done|]. by apply bound_to_child.
  - rewrite except_PermissionError_yields.
    destruct (scandir_cases_tree ds p Htree Hp) as [->|(names & Hnames & Hnd & ->)];
      [constructor|].
    cbn [Gen.to_list snd fst Gen.lift].
    rewrite Forall_forall in Hnames.
    pose proof Hp as (Hwf & _ & _).
    assert (∀ entry a, entry ∈ _make_child_relpath p <$> names ->
              a ∈ (Gen.lift (if d then is_dir entry else Ok true)
                     (fun keep : bool =>
                        if keep
                        then if pat (name entry)
                             then _select_from fuel succ
                                    (_make_child_relpath p (name entry))
                             else Gen.stop
                        else Gen.stop)).1 ->
              extends entry a) as Hext.
    { intros entry a (n & -> & Hn)%list_elem_of_fmap Ha.
      apply lift_elem_of in Ha as ([|] & _ & Ha); [|by apply elem_of_nil in Ha].
      rewrite (name_child_relpath p n Hwf) in Ha.
      destruct (pat n); [|by apply elem_of_nil in Ha].
      by apply select_from_extends in Ha. }
    apply (for_list_NoDup path_key _parts).
    + intros entry (n & -> & Hn)%list_elem_of_fmap.
      destruct (if d then is_dir _ else Ok true) as [[|]|e]; cbn [Gen.lift];
        [|constructor..].
      rewrite (name_child_relpath p n Hwf).
      destruct (pat n); [|constructor].
      apply IH; [done|]. apply bound_to_child; [done|by apply Hnames].
    + intros i j a b Hi Hj Ha Hb Hkey.
      apply (Hext i a Hi) in Ha as [[ka Hka] _].
      apply (Hext j b Hj) in Hb as [[kb Hkb] _].
      apply list_elem_of_fmap in Hi as (ni & -> & _).
      apply list_elem_of_fmap in Hj as (nj & -> & _).
      injection Hkey as Hparts _. unfold _cparts, Flavour.casefold_parts in Hparts.
      rewrite Hka, Hkb in Hparts. cbn in Hparts |- *.
      rewrite <- !app_assoc in Hparts. apply app_inv_head in Hparts.
      injection Hparts as -> _. done.
    + rewrite <- list_fmap_compose. apply NoDup_fmap_2_strong; [|done].
      intros x y _ _ Heq. cbn in Heq. apply app_inv_head in Heq. congruence.
  - rewrite except_PermissionError_yields. cbn [fst]. apply yield_new_fresh.
Qed.

End Tree.

(** On a store that mimics a file tree no pattern makes [glob] or [rglob]
    yield a path twice. *)
Lemma glob_rglob_tree_NoDup compile_pattern self ds s :
  wf_path self -> pathcls self = ClsDandiPath -> remote self = Some ds ->
  tree_like ds = true ->
  NoDup (path_key <$> (glob compile_pattern self s).1) ∧
  NoDup (path_key <$> (rglob compile_pattern self s).1).
Proof.
  intros Hwf Hcls Hrem Htree.
  destruct (relative_pattern s) eqn:Hrel;
    [|rewrite glob_absolute, rglob_absolute by done; split; constructor].
  pose proof (dandi_wf s (remote self)) as Hs. rewrite (dandi_relative _ _ Hrel) in Hs.
  pose proof (wf_unrooted_segs _ Hs eq_refl) as Hsegs. cbn [_parts] in Hsegs.
  assert (bound_to ds self) as Hb by done.
  split.
  - destruct (truthy s) eqn:Hts; [|unfold glob; rewrite Hts; constructor].
    rewrite glob_relative, (parse_single_relative _ Hrel) by done. cbn [snd].
    destruct (run_selector_yields compile_pattern self _ Hs eq_refl) as [->|[_ ->]];
      [constructor|].
    apply (select_from_tree_NoDup ds Htree); [done|]. by apply chain_of_wf.
  - rewrite rglob_relative, (parse_single_relative _ Hrel) by done. cbn [snd].
    assert (wf_path (mkPath ClsDandiPath "" "" ("**" :: reverse (Flavour.append_names s))
                       (remote self))) as Hs'.
    { unfold wf_path in *. cbn in Hs |- *. done. }
    destruct (run_selector_yields compile_pattern self _ Hs' eq_refl) as [->|[_ ->]];
      [constructor|].
    apply (select_from_tree_NoDup ds Htree); [done|].
    apply (chain_of_wf compile_pattern ("**" :: _)). cbn [forallb]. by rewrite Hsegs.
Qed.

(** ** No path twice *)

Section NoDuplicates.

Variable compile_pattern : string -> Result (string -> bool).

(** C5, as the code has it.  The set [yielded] belongs to one run of
    [_RecursiveWildcardSelector._select_from]:
    - such a run yields no two equal paths, whatever its successor;
    - so a [glob] whose pattern reaches its first ["**"] through exact
      names only (in particular one that starts with ["**"]) yields no two
      equal paths, and neither does any [rglob], whatever the store;
    - on a store that mimics a file tree (no asset path is another one or
      a directory above another one) no pattern at all makes [glob] or
      [rglob] yield a path twice, and both run to their end;
    - paths count as equal by [__eq__], which is what the keys of the set
      compare. *)
Theorem recursive_wildcard_yields_no_duplicates (self : RemotePath) (s : string) :
  (∀ fuel dironly successor,
     NoDup (path_key <$>
              (_select_from fuel
                 (RecursiveWildcardSelector dironly successor) self).1)) ∧
  (if stars_after_exact (Flavour.parse_parts [s]).2
   then NoDup (path_key <$> (glob compile_pattern self s).1)
   else True) ∧
  NoDup (path_key <$> (rglob compile_pattern self s).1) ∧
  (∀ ds, wf_path self -> pathcls self = ClsDandiPath ->
         remote self = Some ds -> tree_like ds = true ->
         NoDup (path_key <$> (glob compile_pattern self s).1) ∧
         finished (glob compile_pattern self s) ∧
         finished (rglob compile_pattern self s)) ∧
  (∀ p q, path_key p = path_key q <-> path_eq p q = true).
Proof.
  split; [|split; [|split; [|split]]].
  - intros fuel dironly successor. by apply select_from_dedups_NoDup.
  - destruct (stars_after_exact _) eqn:Hstars; [|done].
    destruct (relative_pattern s) eqn:Hrel; [|rewrite glob_absolute by done; constructor].
    destruct (truthy s) eqn:Hs; [|unfold glob; rewrite Hs; constructor].
    rewrite glob_relative by done.
    pose proof (dandi_wf s (remote self)) as Hwf.
    rewrite (dandi_relative _ _ Hrel) in Hwf.
    rewrite (parse_single_relative _ Hrel) in Hstars |- *. cbn [snd] in *.
    destruct (run_selector_yields compile_pattern self _ Hwf eq_refl) as [->|[_ ->]];
      [constructor|].
    apply select_from_dedups_NoDup. by rewrite dedups_chain_of.
  - destruct (relative_pattern s) eqn:Hrel; [|rewrite rglob_absolute by done; constructor].
    rewrite rglob_relative by done.
    pose proof (dandi_wf s (remote self)) as Hwf.
    rewrite (dandi_relative _ _ Hrel) in Hwf.
    rewrite (parse_single_relative _ Hrel). cbn [snd].
    assert (wf_path (mkPath ClsDandiPath "" "" ("**" :: reverse (Flavour.append_names s))
                       (remote self))) as Hwf'.
    { unfold wf_path in *. cbn in Hwf |- *. done. }
    destruct (run_selector_yields compile_pattern self _ Hwf' eq_refl) as [->|[_ ->]];
      [constructor|].
    by apply select_from_dedups_NoDup.
  - intros ds Hwf Hcls Hrem Htree.
    split; [by apply (glob_rglob_tree_NoDup compile_pattern self ds s)|].
    apply glob_rglob_finish; [done..|].
    intros ds' Hrem'. rewrite Hrem in Hrem'. injection Hrem' as <-.
    by apply andb_true_iff in Htree as [? _].
  - apply path_key_eq.
Qed.

End NoDuplicates.

Lemma recursive_wildcard_yields_no_duplicates_witness :
  NoDup (path_key <$> (glob simple_compile (dandi "top" (Some store_x)) "*/**/*.h5").1) ∧
  finished (glob simple_compile (dandi "top" (Some store_x)) "*/**/*.h5") ∧
  finished (rglob simple_compile (dandi "top" (Some store_x)) "*/**/*.h5").
Proof.
  apply (proj1 (proj2 (proj2 (proj2
           (recursive_wildcard_yields_no_duplicates simple_compile
              (dandi "top" (Some store_x)) "*/**/*.h5")))) store_x); reflexivity.
Defined.

(** * Further properties *)

(** ** The string of a path *)

Lemma split_app_sep c x s :
  has_char c x = false -> split c (x +:+ String c s) = x :: split c s.
Proof.
  induction x as [|a x IH]; simpl.
  - intros _. by rewrite Ascii.eqb_refl.
  - intros [Hac Hx]%orb_false_iff. rewrite Hac, (IH Hx). done.
Qed.

Lemma split_join c l :
  l ≠ [] -> Forall (fun x => has_char c x = false) l ->
  split c (Py.join (String c "") l) = l.
Proof.
  induction l as [|x l IH]; [done|]. intros _ Hall.
  inversion Hall as [|? ? Hx Hl]; subst. destruct l as [|y l].
  - simpl. by apply split_without_sep.
  - change (Py.join (String c "") (x :: y :: l))
      with (x +:+ String c (Py.join (String c "") (y :: l))).
    rewrite split_app_sep by done. by rewrite IH.
Qed.

Lemma wf_segs_no_sep segs :
  forallb wf_segb segs = true ->
  Forall (fun x => has_char Flavour.sep_char x = false) segs.
Proof.
  intros H. apply Forall_forall. intros x Hx.
  rewrite forallb_forall in H. specialize (H x). rewrite <- list_elem_of_In in H.
  apply H in Hx. apply wf_segb_spec in Hx. tauto.
Qed.

Lemma filter_keep_wf segs :
  forallb wf_segb segs = true ->
  filter (fun x => Flavour.keep_name x = true) segs = segs.
Proof.
  induction segs as [|s segs IH]; [done|]. simpl.
  intros [Hs Hsegs]%andb_true_iff. rewrite filter_cons.
  unfold wf_segb in Hs. apply andb_true_iff in Hs as [Hk _].
  rewrite decide_True by done. by rewrite IH.
Qed.

(** The names that the joined segments contribute are the segments. *)
Lemma append_names_join segs :
  forallb wf_segb segs = true ->
  Flavour.append_names (Flavour.join segs) = reverse segs.
Proof.
  intros Hs. destruct segs as [|s segs]; [done|].
  rewrite append_names_split. unfold Flavour.join, Flavour.sep.
  rewrite split_join; [|done|by apply wf_segs_no_sep].
  rewrite filter_keep_wf; [done|]. by rewrite forallb_reverse.
Qed.

Lemma join_relative segs :
  forallb wf_segb segs = true -> relative_pattern (Flavour.join segs) = true.
Proof.
  intros Hs. destruct segs as [|s segs]; [done|].
  simpl in Hs. apply andb_true_iff in Hs as [Hs _].
  apply wf_segb_spec in Hs as (Hne & _ & Hc).
  destruct s as [|a s]; [done|]. unfold relative_pattern.
  assert (∃ t, Flavour.join (String a s :: segs) = String a t) as [t ->].
  { unfold Flavour.join, Py.join. destruct segs; simpl; eauto. }
  rewrite prefix_sep. simpl in Hc. apply orb_false_iff in Hc as [Hc _].
  unfold Flavour.sep_char in Hc. by rewrite Hc.
Qed.

Lemma lstrip_relative s :
  relative_pattern s = true -> lstrip Flavour.sep_char s = s.
Proof.
  destruct s as [|a s]; [done|]. unfold relative_pattern. rewrite prefix_sep.
  intros H%negb_true_iff. simpl. unfold Flavour.sep_char. by rewrite H.
Qed.

Lemma parse_rooted root s :
  root = "/" ∨ root = "//" -> relative_pattern s = true ->
  Flavour.parse_parts [root +:+ s]
  = ("", root, root :: reverse (Flavour.append_names s)).
Proof.
  intros Hroot Hs. pose proof (lstrip_relative _ Hs) as Hl.
  assert (Flavour.splitroot (root +:+ s) = ("", root, s)) as Hsplit.
  { destruct Hroot as [-> | ->]; unfold Flavour.splitroot; simpl;
      change ("" +:+ s) with s; rewrite Hl.
    - replace (S (String.length s) - String.length s) with 1 by lia. done.
    - replace (S (S (String.length s)) - String.length s) with 2 by lia. done. }
  unfold Flavour.parse_parts. cbn [reverse rev_append Flavour.parse_loop].
  change (reverse [root +:+ s]) with [root +:+ s]. cbn [Flavour.parse_loop].
  assert (truthy (root +:+ s) = true) as ->
    by (destruct Hroot as [-> | ->]; done).
  rewrite Hsplit.
  assert (truthy root = true) as Hr by (destruct Hroot as [-> | ->]; done).
  cbn [truthy]. change (truthy "") with false. rewrite Hr. cbn [orb app].
  cbn [Flavour.find_drive]. change (truthy "") with false. rewrite Hr. cbn [orb].
  rewrite reverse_app. done.
Qed.

(** Parsing the string of a well-formed path gives its triple back. *)
Lemma parse_path_str p :
  wf_path p -> Flavour.parse_parts [path_str p] = (_drv p, _root p, _parts p).
Proof.
  intros Hwf. pose proof Hwf as (Hd & [[Hr Hs]|[Hr (segs & Hp & Hs)]])%wf_tripleb_spec.
  - unfold path_str, _format_parsed_parts, anchored. rewrite Hd, Hr. simpl.
    destruct (_parts p) as [|s segs] eqn:Hp.
    + done.
    + rewrite join_truthy by (by eapply wf_segs_head_nonempty).
      rewrite parse_single_relative by by apply join_relative.
      by rewrite append_names_join, reverse_involutive.
  - assert (truthy (_root p) = true) as Ht by (destruct Hr as [-> | ->]; done).
    unfold path_str, _format_parsed_parts, anchored. rewrite Hd, Ht, Hp. simpl.
    change ("" +:+ _root p +:+ Flavour.join (drop 0 segs))
      with (_root p +:+ Flavour.join segs).
    assert (truthy (_root p +:+ Flavour.join segs) = true) as ->.
    { destruct Hr as [-> | ->]; done. }
    rewrite parse_rooted; [|done|by apply join_relative].
    by rewrite append_names_join, reverse_involutive.
Qed.

(** ** Strings, joins and relative paths *)

(** X1.  A well-formed [DandiPath] is rebuilt from its string:
    [DandiPath(str(p), dandiset=p.dandiset)] is [p] itself, drive, root,
    parts and handle; so two well-formed paths with the same string have
    the same drive, root and parts. *)
Theorem path_rebuilt_from_its_string (p : RemotePath) :
  wf_path p -> pathcls p = ClsDandiPath ->
  DandiPath__new__ ClsDandiPath [ArgStr (path_str p)] false (remote p) = Ok p ∧
  (∀ q, wf_path q -> path_str q = path_str p ->
        (_drv q, _root q, _parts q) = (_drv p, _root p, _parts p)).
Proof.
  intros Hwf Hcls. split.
  - rewrite DandiPath_new_str. unfold dandi. rewrite (parse_path_str _ Hwf).
    destruct p; simpl in *. by subst.
  - intros q Hq Hstr. by rewrite <- (parse_path_str _ Hq), Hstr, parse_path_str.
Qed.

Lemma path_rebuilt_from_its_string_witness :
  DandiPath__new__ ClsDandiPath [ArgStr "/data/sub-01"] false (Some store_sub01)
  = Ok (dandi "/data///sub-01/." (Some store_sub01)).
Proof.
  exact (proj1 (path_rebuilt_from_its_string (dandi "/data///sub-01/." (Some store_sub01))
                  eq_refl eq_refl)).
Defined.

(** ** Parsing a concatenation *)

(** The names already parsed do not influence the rest of the loop. *)
Lemma parse_loop_acc it parsed :
  Flavour.parse_loop it "" "" parsed
  = let '(drv, root, parsed') := Flavour.parse_loop it "" "" [] in
    (drv, root, parsed ++ parsed').
Proof.
  revert parsed. induction it as [|part it IH]; intros parsed; simpl.
  - by rewrite app_nil_r.
  - destruct (truthy part); [|apply IH].
    destruct (Flavour.splitroot part) as [[d r] rel] eqn:Hs.
    apply splitroot_spec in Hs as [-> Hr]. simpl.
    destruct (truthy r) eqn:Htr; [done|].
    apply truthy_false in Htr as ->.
    rewrite (IH (parsed ++ _)), (IH (Flavour.append_names rel)).
    destruct (Flavour.parse_loop it "" "" []) as [[d r] parsed']. by rewrite app_assoc.
Qed.

Lemma parse_loop_app it1 it2 parsed :
  Flavour.parse_loop (it1 ++ it2) "" "" parsed
  = let '(drv, root, parsed1) := Flavour.parse_loop it1 "" "" parsed in
    if truthy root then (drv, root, parsed1)
    else Flavour.parse_loop it2 "" "" parsed1.
Proof.
  revert parsed. induction it1 as [|part it1 IH]; intros parsed; [done|].
  simpl. destruct (truthy part); [|apply IH].
  destruct (Flavour.splitroot part) as [[d r] rel] eqn:Hs.
  apply splitroot_spec in Hs as [-> Hr]. simpl.
  destruct (truthy r) eqn:Htr.
  - by rewrite !find_drive_empty, Htr.
  - apply truthy_false in Htr as ->. apply IH.
Qed.

(** The triple of a concatenation of parts is the join of the triples. *)
Lemma parse_parts_app l1 l2 :
  Flavour.parse_parts (l1 ++ l2)
  = let '(drv, root, parts) := Flavour.parse_parts l1 in
    let '(drv2, root2, parts2) := Flavour.parse_parts l2 in
    Flavour.join_parsed_parts drv root parts drv2 root2 parts2.
Proof.
  unfold Flavour.parse_parts. rewrite reverse_app, parse_loop_app.
  destruct (Flavour.parse_loop (reverse l2) "" "" []) as [[d2 r2] parsed2] eqn:H2.
  pose proof (parse_loop_wf _ _ _ _ _ H2) as (-> & Hr2 & _).
  destruct (truthy r2) eqn:Ht2.
  - destruct (Flavour.parse_loop (reverse l1) "" "" []) as [[d1 r1] parsed1] eqn:H1.
    pose proof (parse_loop_wf _ _ _ _ _ H1) as (-> & Hr1 & _).
    simpl. unfold Flavour.join_parsed_parts. rewrite Ht2. simpl.
    by destruct (truthy r1).
  - apply truthy_false in Ht2 as ->. rewrite parse_loop_acc.
    destruct (Flavour.parse_loop (reverse l1) "" "" []) as [[d1 r1] parsed1] eqn:H1.
    pose proof (parse_loop_wf _ _ _ _ _ H1) as (-> & Hr1 & _).
    simpl. unfold Flavour.join_parsed_parts. simpl.
    destruct (truthy r1); rewrite ?app_assoc, reverse_app; simpl;
      by rewrite ?reverse_app.
Qed.

Lemma join_parsed_parts_posix root parts root2 parts2 :
  Flavour.join_parsed_parts "" root parts "" root2 parts2
  = if truthy root2 then ("", root2, parts2) else ("", root, parts ++ parts2).
Proof. unfold Flavour.join_parsed_parts. by destruct (truthy root2). Qed.

Lemma collect_args_app args1 args2 rem parts :
  collect_args (args1 ++ args2) rem parts
  = '(rem1, parts1) ← collect_args args1 rem parts; collect_args args2 rem1 parts1.
Proof.
  revert rem parts. induction args1 as [|a args1 IH]; intros rem parts; [done|].
  destruct a as [s|q|]; simpl; [apply IH..|done].
Qed.

(** The handle and the parts that a run of [collect_args] adds do not
    depend on what it starts from. *)
Lemma collect_args_from args rem parts :
  collect_args args rem parts
  = '(rem', parts') ← collect_args args None []; Ok (or_else rem rem', parts ++ parts').
Proof.
  revert rem parts. induction args as [|a args IH]; intros rem parts; simpl.
  - rewrite app_nil_r. by destruct rem.
  - destruct a as [s|q|]; [| |done].
    + rewrite (IH rem), (IH None [s]).
      destruct (collect_args args None []) as [[r l]|e]; [|done]. simpl.
      by rewrite <- app_assoc.
    + rewrite (IH (or_else rem _)), (IH (remote q) (_parts q)).
      destruct (collect_args args None []) as [[r l]|e]; [|done]. simpl.
      rewrite <- app_assoc. by destruct rem, (remote q).
Qed.

(** [_make_child] from a well-formed path, read on the collected parts. *)
Lemma make_child_wf self args :
  wf_path self ->
  _make_child self args
  = '(rem, parts) ← collect_args args None [];
    let root2 := (Flavour.parse_parts parts).1.2 in
    let parts2 := (Flavour.parse_parts parts).2 in
    Ok (if truthy root2
        then mkPath (pathcls self) "" root2 parts2 (or_else (remote self) rem)
        else mkPath (pathcls self) "" (_root self) (_parts self ++ parts2)
               (or_else (remote self) rem)).
Proof.
  intros Hwf. unfold _make_child, _parse_args_with_remote.
  destruct (collect_args args None []) as [[rem parts]|e]; [|done]. simpl.
  destruct (Flavour.parse_parts parts) as [[d2 r2] parts2] eqn:Hp. simpl.
  apply parse_parts_wf, wf_tripleb_spec in Hp as [-> _].
  rewrite (wf_drv _ Hwf), join_parsed_parts_posix.
  by destruct (truthy r2).
Qed.

Lemma parse_parts_app_posix l1 l2 :
  Flavour.parse_parts (l1 ++ l2)
  = if truthy (Flavour.parse_parts l2).1.2 then Flavour.parse_parts l2
    else ("", (Flavour.parse_parts l1).1.2,
          (Flavour.parse_parts l1).2 ++ (Flavour.parse_parts l2).2).
Proof.
  rewrite parse_parts_app.
  destruct (Flavour.parse_parts l1) as [[d1 r1] p1] eqn:H1.
  destruct (Flavour.parse_parts l2) as [[d2 r2] p2] eqn:H2.
  apply parse_parts_wf, wf_tripleb_spec in H1 as [-> _].
  apply parse_parts_wf, wf_tripleb_spec in H2 as [-> _].
  rewrite join_parsed_parts_posix. simpl. by destruct (truthy r2).
Qed.

Lemma collect_args_first_remote args rem parts :
  collect_args args None [] = Ok (rem, parts) -> rem = first_remote args.
Proof.
  assert (∀ r0 p0, collect_args args r0 p0 = Ok (rem, parts) ->
                   rem = or_else r0 (first_remote args)) as H; [|apply H].
  revert rem parts. induction args as [|a args IH]; intros rem parts r0 p0; simpl.
  - intros [= <- _]. by destruct r0.
  - destruct a as [s|q|]; [apply IH| |done].
    intros ->%IH. by destruct r0, (remote q).
Qed.

(** X2.  Joining several arguments at once is joining them one after the
    other: for a well-formed [p], [joinpath] applied to the arguments
    [args1] followed by [args2] is [joinpath] applied to [args1] and then,
    on its result, to [args2]: the same path with the same handle, or the
    same exception.  The handle of the result is the first
    one found among [p] and the path arguments, in that order. *)
Theorem joinpath_in_steps (p : RemotePath) (args1 args2 : list Arg) :
  wf_path p ->
  joinpath p (args1 ++ args2) = (q ← joinpath p args1; joinpath q args2) ∧
  (∀ q, joinpath p args1 = Ok q ->
        remote q = or_else (remote p) (first_remote args1)).
Proof.
  intros Hwf. split; cycle 1.
  { intros q. unfold joinpath. rewrite (make_child_wf _ _ Hwf).
    destruct (collect_args args1 None []) as [[rem parts]|e] eqn:Hc; [|done].
    apply collect_args_first_remote in Hc. cbn. intros [= <-].
    destruct (truthy _); cbn; by rewrite Hc. }
  unfold joinpath. rewrite (make_child_wf _ _ Hwf).
  rewrite collect_args_app, (make_child_wf _ args1 Hwf).
  destruct (collect_args args1 None []) as [[rem1 parts1]|e] eqn:H1; [|done].
  cbn [mbind Result_bind Py.bind]. cbv zeta.
  rewrite collect_args_from.
  match goal with |- _ = _make_child ?q _ => assert (wf_path q) as Hq end.
  { eapply (joinpath_wf p args1); [done|]. unfold joinpath.
    rewrite (make_child_wf _ _ Hwf), H1. done. }
  rewrite (make_child_wf _ _ Hq).
  destruct (collect_args args2 None []) as [[rem2 parts2]|e]; [|done].
  cbn [mbind Result_bind Py.bind]. cbv zeta. rewrite parse_parts_app_posix.
  destruct (Flavour.parse_parts parts1) as [[d1 r1] p1] eqn:Hp1.
  destruct (Flavour.parse_parts parts2) as [[d2 r2] p2] eqn:Hp2.
  apply parse_parts_wf, wf_tripleb_spec in Hp2 as [-> _].
  cbn [fst snd].
  assert (∀ a b c : option Dandiset, or_else a (or_else b c) = or_else (or_else a b) c)
    as Hor by (by intros [] [] []).
  destruct (truthy r2) eqn:Hr2; cbn [fst snd]; rewrite ?Hr2.
  - destruct (truthy r1); cbn; by rewrite Hor.
  - destruct (truthy r1) eqn:Hr1; cbn; rewrite ?Hr1, Hor, ?app_assoc; done.
Qed.

Lemma joinpath_in_steps_witness :
  joinpath (dandi "data" (Some store_sub01)) ([ArgStr "sub-01"] ++ [ArgStr "ses-1"; ArgOther])
  = (q ← joinpath (dandi "data" (Some store_sub01)) [ArgStr "sub-01"];
     joinpath q [ArgStr "ses-1"; ArgOther]).
Proof.
  exact (proj1 (joinpath_in_steps (dandi "data" (Some store_sub01)) [ArgStr "sub-01"]
                  [ArgStr "ses-1"; ArgOther] eq_refl)).
Defined.

(** ** [relative_to] between well-formed paths *)

Lemma wf_parts_prefix_abs p q :
  wf_path p -> wf_path q -> _parts q ≠ [] ->
  _parts q `prefix_of` _parts p ->
  abs_parts_of (_drv q) (_root q) (_parts q) `prefix_of` abs_parts_of (_drv p) (_root p) (_parts p)
  ∧ truthy (_root p) = truthy (_root q).
Proof.
  intros Hp Hq Hne Hpre. rewrite !wf_abs_parts by done.
  destruct (truthy (_root p)) eqn:Hrp, (truthy (_root q)) eqn:Hrq.
  - split; [|done]. by apply prefix_cons.
  - exfalso. pose proof (wf_unrooted_segs q Hq Hrq) as Hs.
    destruct (wf_rooted_parts p Hp Hrp) as (segs & Hparts & Hroot).
    destruct (_parts q) as [|s l]; [done|]. rewrite Hparts in Hpre.
    apply prefix_cons_inv_1 in Hpre as ->. simpl in Hs.
    apply andb_true_iff in Hs as [Hs _]. congruence.
  - exfalso. pose proof (wf_unrooted_segs p Hp Hrp) as Hs.
    destruct (wf_rooted_parts q Hq Hrq) as (segs & Hparts & Hroot).
    rewrite Hparts in Hpre. destruct (_parts p) as [|s l]; [by apply prefix_nil_not in Hpre|].
    apply prefix_cons_inv_1 in Hpre as <-. simpl in Hs.
    apply andb_true_iff in Hs as [Hs _]. congruence.
  - done.
Qed.

(** [relative_to] between well-formed paths, read on the parts. *)
Lemma relative_to_below self other :
  wf_path self -> wf_path other ->
  relative_to self [ArgPath other]
  = match below (_parts other) (_parts self) with
    | Some rest =>
        if bool_decide (_parts other = []) && truthy (_root self)
        then Raise (ValueError_does_not_start_with (path_str self)
                      (_format_parsed_parts (_drv other) (_root other) (_parts other)))
        else Ok (mkPath (pathcls self) "" "" rest (remote self))
    | None =>
        Raise (ValueError_does_not_start_with (path_str self)
                 (_format_parsed_parts (_drv other) (_root other) (_parts other)))
    end.
Proof.
  intros Hs Ho. rewrite (relative_to_path _ _ Ho). cbv zeta.
  pose proof (wf_drv _ Hs) as Hds.
  destruct (decide (_parts other = [])) as [Hnil|Hne].
  - assert (abs_parts_of (_drv other) (_root other) (_parts other) = []) as ->.
    { rewrite wf_abs_parts, Hnil by done. destruct (truthy (_root other)) eqn:Hr; [|done].
      destruct (wf_rooted_parts _ Ho Hr) as (? & ? & _). congruence. }
    rewrite Hnil, bool_decide_eq_true_2 by done. simpl. rewrite Hds.
    change (truthy "") with false. rewrite orb_false_r.
    destruct (truthy (_root self)) eqn:Hr; [done|].
    unfold abs_parts_of. by rewrite Hr.
  - rewrite (bool_decide_eq_false_2 (_parts other = [])) by done. cbn [andb].
    set (B := abs_parts_of (_drv other) (_root other) (_parts other)).
    set (A := abs_parts_of (_drv self) (_root self) (_parts self)).
    assert (length B ≠ 0) as Hn.
    { unfold B. rewrite wf_abs_parts by done.
      destruct (truthy (_root other)); [done|]. by destruct (_parts other). }
    apply Nat.eqb_neq in Hn as Hn'. rewrite Hn'.
    destruct (below (_parts other) (_parts self)) as [rest|] eqn:Hb.
    + apply below_Some in Hb.
      destruct (wf_parts_prefix_abs self other) as [Hpre Hroots];
        [done..|by exists rest|].
      rewrite bool_decide_eq_true_2 by by apply take_length_prefix.
      cbn [negb]. f_equal.
      assert (drop (length B) A = rest) as ->.
      { unfold A, B. rewrite !wf_abs_parts, Hroots by done.
        destruct (truthy (_root other)); rewrite Hb.
        - simpl. by rewrite drop_app_length.
        - by rewrite drop_app_length. }
      destruct (length B =? 1) eqn:H1; [|done]. apply Nat.eqb_eq in H1.
      destruct (truthy (_root self)) eqn:Hr.
      * exfalso. unfold B in H1.
        rewrite wf_abs_parts, <- Hroots in H1 by done. simpl in H1.
        destruct (_parts other); [done|]. simpl in H1. lia.
      * apply truthy_false in Hr. by rewrite Hr.
    + apply below_None in Hb.
      rewrite bool_decide_eq_false_2; [done|]. rewrite take_length_prefix.
      intros H. apply Hb. by apply abs_prefix_parts.
Qed.

Lemma below_wf_rest self other rest :
  wf_path self -> wf_path other ->
  below (_parts other) (_parts self) = Some rest ->
  bool_decide (_parts other = []) && truthy (_root self) = false ->
  forallb wf_segb rest = true.
Proof.
  intros Hs Ho Hb%below_Some Hc.
  destruct (truthy (_root self)) eqn:Hr.
  - rewrite andb_true_r in Hc. apply bool_decide_eq_false in Hc.
    destruct (wf_rooted_parts _ Hs Hr) as (segs & Hparts & _).
    unfold wf_path in Hs. apply wf_tripleb_spec in Hs as (_ & [[Hroot _]|[_ (segs' & Hp' & Hsegs)]]).
    + by rewrite Hroot in Hr.
    + rewrite Hp' in Hb. destruct (_parts other) as [|x l]; [done|].
      simpl in Hb. injection Hb as _ ->. apply forallb_app_iff in Hsegs. tauto.
  - pose proof (wf_unrooted_segs _ Hs Hr) as Hsegs. rewrite Hb in Hsegs.
    apply forallb_app_iff in Hsegs. tauto.
Qed.

(** What [is_relative_to] answers between well-formed paths. *)
Lemma is_relative_to_below self other :
  wf_path self -> wf_path other ->
  is_relative_to self [ArgPath other]
  = Ok (match below (_parts other) (_parts self) with
        | Some rest =>
            negb (bool_decide (_parts other = []) && truthy (_root self))
            && negb (bool_decide (rest = [])
                     && bool_decide (pathcls self = ClsDandiPath))
        | None => false
        end).
Proof.
  intros Hs Ho. unfold is_relative_to. rewrite relative_to_below by done.
  destruct (below _ _) as [rest|]; [|done].
  destruct (_ && truthy _); [done|]. rewrite construct_str. simpl. f_equal.
  unfold path_eq, _cparts, Flavour.casefold_parts. simpl. f_equal.
  change (reverse (Flavour.append_names ".")) with (@nil string).
  f_equal; [by apply bool_decide_ext|]. destruct (pathcls self); reflexivity.
Qed.

(** X3.  The reflected division [key / p] of a [str] key by a well-formed
    [DandiPath] [p] is the division of the path made from the key:
    [DandiPath(key) / p], with the handle of [p] and a well-formed result;
    a rooted [p] therefore replaces the key.  A key that is neither a
    [str] nor a path yields [NotImplemented], not an exception. *)
Theorem rtruediv_is_truediv_of_the_key (p : RemotePath) (key : string) :
  wf_path p -> pathcls p = ClsDandiPath ->
  (∃ k q, construct ClsDandiPath [ArgStr key] = Ok k ∧
          __rtruediv__ p (ArgStr key) = Ok (Value q) ∧
          __truediv__ k (ArgPath p) = Ok (Value q) ∧
          remote q = remote p ∧ wf_path q ∧
          (truthy (_root p) = true ->
           (_drv q, _root q, _parts q) = (_drv p, _root p, _parts p))) ∧
  __rtruediv__ p ArgOther = Ok NotImplemented.
Proof.
  intros Hwf Hcls. split; [|done]. exists (dandi key None). rewrite construct_str.
  unfold __rtruediv__, __truediv__, _from_parts, _parse_args_with_remote.
  rewrite (make_child_wf (dandi key None)) by apply dandi_wf.
  cbn [collect_args app].
  assert (∀ l r acc, collect_args (ArgStr <$> l) r acc = Ok (r, acc ++ l)) as Hstrs.
  { induction l as [|x l IH]; intros r acc; simpl; [by rewrite app_nil_r|].
    rewrite IH. by rewrite <- app_assoc. }
  rewrite Hstrs. cbn [mbind Result_bind Py.bind app]. cbv zeta.
  change (key :: _parts p) with ([key] ++ _parts p).
  rewrite parse_parts_app_posix, (parse_parts_id _ _ _ Hwf). cbn [fst snd].
  unfold dandi. destruct (Flavour.parse_parts [key]) as [[d r] parts] eqn:Hk.
  pose proof (parse_parts_wf _ _ _ _ Hk) as Hkwf.
  apply wf_tripleb_spec in Hkwf as Hk'. destruct Hk' as [-> _].
  cbn [fst snd pathcls _root _parts remote or_else]. rewrite Hcls.
  assert (or_else (remote p) None = remote p) as Hor by by destruct (remote p).
  pose proof (wf_drv p Hwf) as Hd.
  destruct (truthy (_root p)) eqn:Hr; cbn [mbind Result_bind Py.bind]; rewrite Hor, ?Hd.
  - eexists. split; [done|]. split; [done|]. split; [done|]. split; [done|].
    split; [|done]. unfold wf_path in *. cbn [_drv _root _parts].
    by rewrite Hd in Hwf.
  - eexists. split; [done|]. split; [done|]. split; [done|]. split; [done|].
    split; [|done]. unfold wf_path. cbn [_drv _root _parts].
    pose proof (wf_unrooted_segs _ Hwf Hr) as Hsegs.
    apply wf_tripleb_spec. apply wf_tripleb_spec in Hkwf as (_ & [[-> Hs]|[Hroot (segs & -> & Hs)]]).
    + split; [done|]. left. split; [done|]. by apply forallb_app_iff.
    + split; [done|]. right. split; [done|]. exists (segs ++ _parts p). split; [done|].
      by apply forallb_app_iff.
Qed.

Lemma rtruediv_is_truediv_of_the_key_witness :
  ∃ k q, construct ClsDandiPath [ArgStr "/data"] = Ok k ∧
         __rtruediv__ (dandi "sub-01/ses-1" (Some store_sub01)) (ArgStr "/data") = Ok (Value q) ∧
         __truediv__ k (ArgPath (dandi "sub-01/ses-1" (Some store_sub01))) = Ok (Value q) ∧
         remote q = Some store_sub01 ∧ wf_path q ∧
         (truthy "" = true ->
          (_drv q, _root q, _parts q) = ("", "", ["sub-01"; "ses-1"])).
Proof.
  exact (proj1 (rtruediv_is_truediv_of_the_key (dandi "sub-01/ses-1" (Some store_sub01))
                  "/data" eq_refl eq_refl)).
Defined.

(** X4.  [joinpath] undoes [relative_to]: when [q.relative_to(p)] succeeds
    between well-formed paths, its result [r] is a well-formed path
    without root that carries the handle of [q], and [p.joinpath(r)] has
    the drive, root and parts of [q] (and equals [q] when the classes
    agree). *)
Theorem joinpath_inverts_relative_to (p q r : RemotePath) :
  wf_path p -> wf_path q ->
  relative_to q [ArgPath p] = Ok r ->
  wf_path r ∧ _root r = "" ∧ remote r = remote q ∧
  ∃ j, joinpath p [ArgPath r] = Ok j ∧
       (_drv j, _root j, _parts j) = (_drv q, _root q, _parts q) ∧
       (pathcls p = pathcls q -> path_eq j q = true).
Proof.
  intros Hp Hq. rewrite (relative_to_below _ _ Hq Hp).
  destruct (below (_parts p) (_parts q)) as [rest|] eqn:Hb; [|done].
  destruct (bool_decide (_parts p = []) && truthy (_root q)) eqn:Hc; [done|].
  intros [= <-].
  pose proof (below_wf_rest _ _ _ Hq Hp Hb Hc) as Hrest.
  assert (wf_path (mkPath (pathcls q) "" "" rest (remote q))) as Hr.
  { apply wf_tripleb_spec. split; [done|]. by left. }
  split; [done|]. split; [done|]. split; [done|].
  rewrite (joinpath_relative _ _ Hr eq_refl). eexists. split; [done|].
  cbn [_drv _root _parts pathcls].
  apply below_Some in Hb. rewrite <- Hb, (wf_drv _ Hp), (wf_drv _ Hq).
  assert (_root p = _root q) as Hroots.
  { destruct (decide (_parts p = [])) as [Hnil|Hne].
    - rewrite bool_decide_eq_true_2 in Hc by done. simpl in Hc.
      apply truthy_false in Hc. rewrite Hc.
      destruct (truthy (_root p)) eqn:Hrp; [|by apply truthy_false].
      destruct (wf_rooted_parts _ Hp Hrp) as (? & ? & _). congruence.
    - destruct (wf_parts_prefix_abs q p Hq Hp Hne) as [_ Ht]; [by exists rest|].
      destruct (truthy (_root q)) eqn:Hrq.
      + destruct (wf_rooted_parts _ Hq Hrq) as (s1 & H1 & _).
        symmetry in Ht. destruct (wf_rooted_parts _ Hp Ht) as (s2 & H2 & _).
        rewrite H1, H2 in Hb. by injection Hb.
      + apply truthy_false in Hrq. symmetry in Ht. apply truthy_false in Ht. congruence. }
  split; [by rewrite Hroots|].
  intros Hcls. apply path_eq_spec. unfold _cparts. cbn. by rewrite Hb, Hcls.
Qed.

Lemma joinpath_inverts_relative_to_witness :
  wf_path (dandi "ses-1/a.h5" (Some store_sub01)) ∧
  _root (dandi "ses-1/a.h5" (Some store_sub01)) = "" ∧
  remote (dandi "ses-1/a.h5" (Some store_sub01)) = Some store_sub01 ∧
  ∃ j, joinpath (dandi "/data/sub-01" None) [ArgPath (dandi "ses-1/a.h5" (Some store_sub01))]
       = Ok j ∧
       (_drv j, _root j, _parts j) = ("", "/", ["/"; "data"; "sub-01"; "ses-1"; "a.h5"]) ∧
       (ClsDandiPath = ClsDandiPath ->
        path_eq j (dandi "/data/sub-01/ses-1/a.h5" (Some store_sub01)) = true).
Proof.
  exact (joinpath_inverts_relative_to (dandi "/data/sub-01" None)
           (dandi "/data/sub-01/ses-1/a.h5" (Some store_sub01))
           (dandi "ses-1/a.h5" (Some store_sub01)) eq_refl eq_refl eq_refl).
Defined.

(** X5.  [is_relative_to] is strict descent: between well-formed
    [DandiPath]s it never raises, and answers [True] exactly when the
    parts of the path are those of [other] followed by at least one more
    (the empty path being above relative paths only).  In particular a
    path is not relative to itself. *)
Theorem is_relative_to_is_strict (self other : RemotePath) :
  wf_path self -> wf_path other -> pathcls self = ClsDandiPath ->
  (∃ b, is_relative_to self [ArgPath other] = Ok b ∧
        (b = true <->
         ∃ rest, rest ≠ [] ∧ _parts self = _parts other ++ rest ∧
                 (_parts other = [] -> _root self = ""))) ∧
  is_relative_to self [ArgPath self] = Ok false.
Proof.
  intros Hs Ho Hcls. split.
  - rewrite (is_relative_to_below _ _ Hs Ho). eexists. split; [done|].
    rewrite Hcls, (bool_decide_eq_true_2 (ClsDandiPath = ClsDandiPath)) by done.
    destruct (below (_parts other) (_parts self)) as [rest|] eqn:Hb.
    + apply below_Some in Hb. rewrite andb_true_r, !andb_true_iff, !negb_true_iff.
      rewrite andb_false_iff, !bool_decide_eq_false. split.
      * intros [Hc Hne]. exists rest. split; [done|]. split; [done|].
        intros Hnil. destruct Hc as [Hc|Hc]; [done|]. by apply truthy_false.
      * intros (rest' & Hne & Hparts & Hroot). rewrite Hb in Hparts.
        apply app_inv_head in Hparts as <-. split; [|done].
        destruct (decide (_parts other = [])) as [Hnil|]; [|by left].
        right. by rewrite (Hroot Hnil).
    + split; [done|]. intros (rest & _ & Hparts & _).
      apply below_None in Hb. exfalso. apply Hb. by exists rest.
  - rewrite (is_relative_to_below _ _ Hs Hs).
    assert (below (_parts self) (_parts self) = Some []) as ->
      by (apply below_Some; by rewrite app_nil_r).
    rewrite Hcls. f_equal. apply andb_false_iff. by right.
Qed.

Lemma is_relative_to_is_strict_witness :
  is_relative_to (dandi "/data/sub-01" None) [ArgPath (dandi "/data/sub-01" None)] = Ok false.
Proof.
  exact (proj2 (is_relative_to_is_strict (dandi "/data/sub-01" None) (dandi "/data" None)
                  eq_refl eq_refl eq_refl)).
Defined.

(** ** Names, stems and suffixes *)

Lemma str_app_cons a s t : String a s +:+ t = String a (s +:+ t).
Proof. done. Qed.

Lemma str_take_drop n s : Str.take n s +:+ Str.drop n s = s.
Proof.
  revert s. induction n as [|n IH]; intros [|a s]; simpl; try done.
  by rewrite str_app_cons, IH.
Qed.

Lemma str_take_length n s :
  String.length (Str.take n s) = n `min` String.length s.
Proof.
  revert s. induction n as [|n IH]; intros [|a s]; simpl; try done.
  by rewrite IH.
Qed.

Lemma str_drop_length n s :
  String.length (Str.drop n s) = String.length s - n.
Proof.
  revert s. induction n as [|n IH]; intros [|a s]; simpl; try done.
Qed.

Lemma str_take_app s t : Str.take (String.length s) (s +:+ t) = s.
Proof.
  induction s as [|a s IH]; [by destruct t|].
  rewrite str_app_cons. simpl. by rewrite IH.
Qed.

Lemma str_drop_app s t : Str.drop (String.length s) (s +:+ t) = t.
Proof. induction s as [|a s IH]; [by destruct t|]. by rewrite str_app_cons. Qed.

Lemma str_app_length s t :
  String.length (s +:+ t) = String.length s + String.length t.
Proof. induction s as [|a s IH]; [done|]. rewrite str_app_cons. simpl. by rewrite IH. Qed.

Lemma str_app_assoc s t u : (s +:+ t) +:+ u = s +:+ (t +:+ u).
Proof. induction s as [|a s IH]; [done|]. by rewrite !str_app_cons, IH. Qed.

Lemma str_app_nil_r s : s +:+ "" = s.
Proof. induction s as [|a s IH]; [done|]. by rewrite str_app_cons, IH. Qed.

Lemma str_app_inv_head s t u : s +:+ t = s +:+ u -> t = u.
Proof. induction s as [|a s IH]; [done|]. rewrite !str_app_cons. intros [= H]. auto. Qed.

Lemma has_char_app c s t : has_char c (s +:+ t) = has_char c s || has_char c t.
Proof.
  induction s as [|a s IH]; [done|]. rewrite str_app_cons. simpl.
  by rewrite IH, orb_assoc.
Qed.

Lemma rfind_range c s : (-1 <= Str.rfind c s < Z.of_nat (String.length s))%Z.
Proof.
  induction s as [|a s IH]; simpl; [lia|].
  destruct (0 <=? Str.rfind c s)%Z eqn:H; [lia|].
  destruct (Ascii.eqb a c); lia.
Qed.

Lemma rfind_absent c s : has_char c s = false <-> Str.rfind c s = (-1)%Z.
Proof.
  induction s as [|a s IH]; simpl; [done|].
  pose proof (rfind_range c s) as Hrange.
  destruct (0 <=? Str.rfind c s)%Z eqn:H.
  - apply Z.leb_le in H. rewrite orb_false_iff. split; [|lia].
    intros [_ Hs]. apply IH in Hs. lia.
  - apply Z.leb_gt in H. assert (Str.rfind c s = (-1)%Z) as Hr by lia.
    apply IH in Hr. rewrite Hr, orb_false_r. destruct (Ascii.eqb a c); split; done || lia.
Qed.

(** The character at [rfind] is the last occurrence: what follows it holds
    no other one. *)
Lemma rfind_split c s :
  (0 <= Str.rfind c s)%Z ->
  ∃ t, Str.drop (Z.to_nat (Str.rfind c s)) s = String c t ∧ has_char c t = false.
Proof.
  induction s as [|a s IH]; simpl; [lia|].
  destruct (0 <=? Str.rfind c s)%Z eqn:H.
  - apply Z.leb_le in H. intros _. destruct (IH H) as (t & Ht & Hc).
    exists t. split; [|done].
    replace (Z.to_nat (Str.rfind c s + 1)) with (S (Z.to_nat (Str.rfind c s))) by lia.
    done.
  - destruct (Ascii.eqb a c) eqn:Hac; [|lia]. intros _.
    apply Ascii.eqb_eq in Hac as ->. exists s. split; [done|].
    apply rfind_absent. pose proof (rfind_range c s). apply Z.leb_gt in H. lia.
Qed.

Lemma rfind_app c s t :
  has_char c t = false ->
  Str.rfind c (s +:+ String c t) = Z.of_nat (String.length s).
Proof.
  intros Ht. induction s as [|a s IH].
  - change ("" +:+ String c t) with (String c t). simpl.
    apply rfind_absent in Ht. rewrite Ht. simpl. by rewrite Ascii.eqb_refl.
  - rewrite str_app_cons. simpl.
    rewrite IH. destruct (0 <=? _)%Z eqn:H; [lia|]. apply Z.leb_gt in H. lia.
Qed.

Lemma suffix_unfold p :
  suffix p = if has_suffix_at (name p)
             then Str.drop (Z.to_nat (Str.rfind "." (name p))) (name p) else "".
Proof.
  unfold suffix, has_suffix_at, Str.slice_from.
  destruct (0 <? Str.rfind "." (name p))%Z eqn:H; [|done].
  apply Z.ltb_lt in H. simpl.
  assert ((Str.rfind "." (name p) <? 0)%Z = false) as -> by (apply Z.ltb_ge; lia). done.
Qed.

Lemma stem_unfold p :
  stem p = if has_suffix_at (name p)
           then Str.take (Z.to_nat (Str.rfind "." (name p))) (name p) else name p.
Proof.
  unfold stem, has_suffix_at, Str.slice_to.
  destruct (0 <? Str.rfind "." (name p))%Z eqn:H; [|done].
  apply Z.ltb_lt in H. simpl.
  assert ((Str.rfind "." (name p) <? 0)%Z = false) as -> by (apply Z.ltb_ge; lia). done.
Qed.

(** The name is the stem followed by the suffix. *)
Lemma stem_suffix p : stem p +:+ suffix p = name p.
Proof.
  rewrite stem_unfold, suffix_unfold. destruct (has_suffix_at (name p)).
  - apply str_take_drop.
  - apply str_app_nil_r.
Qed.

(** A suffix is a dot followed by at least one character, none of them a
    dot; and the stem before it is not empty. *)
Lemma suffix_shape p :
  suffix p = "" ∨
  ∃ ext, suffix p = String "." ext ∧ ext ≠ "" ∧ has_char "." ext = false ∧ stem p ≠ "".
Proof.
  rewrite suffix_unfold, stem_unfold. unfold has_suffix_at.
  destruct (0 <? _)%Z eqn:H0; [|by left]. apply Z.ltb_lt in H0.
  destruct (_ <? _ - 1)%Z eqn:H1; [|by left]. apply Z.ltb_lt in H1. simpl. right.
  destruct (rfind_split "." (name p)) as (ext & Hd & Hc); [lia|].
  exists ext. split; [done|]. split; [|split; [done|]].
  - intros ->. pose proof (str_drop_length (Z.to_nat (Str.rfind "." (name p))) (name p)) as Hl.
    rewrite Hd in Hl. simpl in Hl. lia.
  - intros Ht. pose proof (str_take_length (Z.to_nat (Str.rfind "." (name p))) (name p)) as Hl.
    rewrite Ht in Hl. simpl in Hl. lia.
Qed.

Lemma stem_nonempty p : name p ≠ "" -> stem p ≠ "".
Proof.
  intros Hn. destruct (suffix_shape p) as [Hs|(ext & _ & _ & _ & H)]; [|done].
  pose proof (stem_suffix p) as H. rewrite Hs, str_app_nil_r in H. congruence.
Qed.

(** The stem and the suffix of a name put together from a stem and an
    extension without dot. *)
Lemma has_suffix_at_app st ext :
  st ≠ "" -> ext ≠ "" -> has_char "." ext = false ->
  has_suffix_at (st +:+ String "." ext) = true ∧
  Str.rfind "." (st +:+ String "." ext) = Z.of_nat (String.length st).
Proof.
  intros Hst Hext Hc. unfold has_suffix_at. rewrite rfind_app by done.
  split; [|done]. rewrite str_app_length. simpl.
  destruct st; [done|]. destruct ext; [done|]. cbn [String.length].
  apply andb_true_iff. split; apply Z.ltb_lt; lia.
Qed.

Lemma contains_sep s : contains Flavour.sep s = has_char Flavour.sep_char s.
Proof.
  induction s as [|a s IH]; [done|].
  cbn [contains has_char]. rewrite IH. unfold Flavour.sep. by rewrite prefix_sep.
Qed.

Lemma ends_with_sep_no_sep s :
  has_char Flavour.sep_char s = false -> ends_with_sep s = false.
Proof.
  unfold ends_with_sep. induction s as [|a s IH]; [done|].
  cbn [has_char]. intros [Ha Hs]%orb_false_iff. specialize (IH Hs).
  destruct s as [|b s]; [|exact IH]. simpl. unfold Flavour.sep, Flavour.altsep.
  cbn. unfold Flavour.sep_char in Ha. rewrite Ha. done.
Qed.

(** ** The last part of a path *)

Lemma slice_to_last {A} (l : list A) : Py.slice_to l (-1) = take (length l - 1) l.
Proof.
  unfold Py.slice_to. change (-1 <? 0)%Z with true. cbv iota. f_equal. lia.
Qed.

Lemma take_init_last {A} (l : list A) x :
  last l = Some x -> take (length l - 1) l ++ [x] = l.
Proof.
  intros Hl. destruct (last_Some l x) as [[l' ->] _]; [done|].
  rewrite length_app. simpl. replace (length l' + 1 - 1) with (length l') by lia.
  by rewrite take_app_length.
Qed.

(** A path with a name has a last part, which is the name. *)
Lemma name_last p :
  name p ≠ "" ->
  last (_parts p) = Some (name p) ∧
  length (_parts p) ≠ (if anchored (_drv p) (_root p) then 1 else 0).
Proof.
  unfold name. destruct (_ =? _) eqn:Hlen; [done|]. apply Nat.eqb_neq in Hlen.
  intros Hne. split; [|done]. by destruct (last (_parts p)).
Qed.

Lemma wf_name_seg p : wf_path p -> name p ≠ "" -> wf_segb (name p) = true.
Proof.
  intros Hwf Hn. destruct (name_last p Hn) as [Hlast Hlen].
  unfold wf_path in Hwf.
  apply wf_tripleb_spec in Hwf as (Hd & [[Hr Hs]|[Hr (segs & Hp & Hs)]]).
  - rewrite forallb_forall in Hs. apply Hs, list_elem_of_In.
    apply last_Some in Hlast as [l' ->]. set_solver.
  - unfold anchored in Hlen.
    assert (truthy (_root p) = true) as Ht by (destruct Hr as [-> | ->]; done).
    rewrite Ht, orb_true_r, Hp in Hlen. rewrite Hp in Hlast.
    destruct segs as [|s segs]; [done|].
    rewrite forallb_forall in Hs. apply Hs, list_elem_of_In.
    change (_root p :: s :: segs) with ([_root p] ++ s :: segs) in Hlast.
    rewrite last_app in Hlast.
    destruct (last (s :: segs)) eqn:Hl; [|by apply last_None in Hl].
    injection Hlast as ->. apply last_Some in Hl as [l' ->]. set_solver.
Qed.

(** Replacing the last part by a well-formed name keeps a path
    well-formed. *)
Lemma wf_replace_last p nm :
  wf_path p -> name p ≠ "" -> wf_segb nm = true ->
  wf_tripleb (_drv p) (_root p) (take (length (_parts p) - 1) (_parts p) ++ [nm]) = true.
Proof.
  intros Hwf Hn Hnm. destruct (name_last p Hn) as [Hlast Hlen].
  apply last_Some in Hlast as [l' Hl]. rewrite Hl, length_app. simpl.
  replace (length l' + 1 - 1) with (length l') by lia. rewrite take_app_length.
  unfold wf_path in Hwf. rewrite Hl in Hwf.
  apply wf_tripleb_spec in Hwf as (Hd & [[Hr Hs]|[Hr (segs & Hp & Hs)]]);
    apply wf_tripleb_spec; (split; [done|]).
  - left. split; [done|]. apply forallb_app_iff in Hs as [Hs _].
    apply forallb_app_iff. split; [done|]. simpl. by rewrite Hnm.
  - right. split; [done|]. unfold anchored in Hlen.
    assert (truthy (_root p) = true) as Ht by (destruct Hr as [-> | ->]; done).
    rewrite Ht, orb_true_r, Hl, length_app in Hlen. simpl in Hlen.
    destruct l' as [|r l']; [simpl in Hlen; lia|]. simpl in Hp. injection Hp as -> Hp.
    exists (l' ++ [nm]). split; [done|].
    rewrite <- Hp in Hs. apply forallb_app_iff in Hs as [Hs _].
    apply forallb_app_iff. split; [done|]. simpl. by rewrite Hnm.
Qed.

(** What replacing the last part leaves alone: the name is the new one,
    the parent is the same. *)
Lemma replace_last_name_parent p nm :
  name p ≠ "" ->
  let q := mkPath (pathcls p) (_drv p) (_root p)
             (Py.slice_to (_parts p) (-1) ++ [nm]) (remote p) in
  name q = nm ∧ parent q = parent p.
Proof.
  intros Hn. destruct (name_last p Hn) as [Hlast Hlen].
  apply last_Some in Hlast as [l' Hl]. cbv zeta.
  rewrite slice_to_last. rewrite Hl in *. rewrite length_app in *. simpl in *.
  replace (length l' + 1 - 1) with (length l') by lia. rewrite take_app_length.
  split.
  - unfold name. cbn [_drv _root _parts]. rewrite length_app. simpl.
    destruct (_ =? _) eqn:H.
    + apply Nat.eqb_eq in H. done.
    + by rewrite last_snoc.
  - unfold parent. cbn [_drv _root _parts pathcls remote]. rewrite Hl, !length_app. simpl.
    unfold anchored in Hlen. destruct (truthy (_drv p) || truthy (_root p)).
    + assert ((length l' + 1 =? 1) = false) as -> by (apply Nat.eqb_neq; lia).
      simpl. rewrite !slice_to_last, !length_app. simpl.
      replace (length l' + 1 - 1) with (length l') by lia. by rewrite !take_app_length.
    + rewrite !andb_false_r. rewrite !slice_to_last, !length_app. simpl.
      replace (length l' + 1 - 1) with (length l') by lia. by rewrite !take_app_length.
Qed.

Lemma with_name_ok p nm :
  name p ≠ "" -> wf_segb nm = true ->
  with_name p nm
  = Ok (mkPath (pathcls p) (_drv p) (_root p) (Py.slice_to (_parts p) (-1) ++ [nm]) (remote p)).
Proof.
  intros Hn Hnm. unfold with_name.
  apply truthy_true in Hn. rewrite Hn. cbn [negb].
  assert (wf_tripleb "" "" [nm] = true) as Hwf by (cbn; by rewrite Hnm).
  rewrite (parse_parts_id _ _ _ Hwf).
  apply wf_segb_spec in Hnm as (Hne & _ & Hc).
  apply truthy_true in Hne. rewrite Hne, (ends_with_sep_no_sep _ Hc). done.
Qed.

Lemma path_eta p :
  mkPath (pathcls p) (_drv p) (_root p) (_parts p) (remote p) = p.
Proof. by destruct p. Qed.

(** The name that [with_suffix] builds is the stem followed by the new
    suffix. *)
Lemma with_suffix_name p s :
  (if negb (truthy (suffix p)) then name p +:+ s
   else Str.slice_to (name p) (- Z.of_nat (String.length (suffix p))) +:+ s)
  = stem p +:+ s.
Proof.
  pose proof (stem_suffix p) as Hss.
  destruct (truthy (suffix p)) eqn:Ht; cbn [negb].
  - unfold Str.slice_to.
    assert ((- Z.of_nat (String.length (suffix p)) <? 0)%Z = true) as ->.
    { apply Z.ltb_lt. apply truthy_true in Ht. destruct (suffix p); [done|]. simpl. lia. }
    rewrite <- Hss at 1 2. rewrite str_app_length.
    replace (Z.to_nat _) with (String.length (stem p)) by lia.
    by rewrite str_take_app.
  - apply truthy_false in Ht. rewrite Ht, str_app_nil_r in Hss. by rewrite Hss.
Qed.

Lemma with_suffix_unfold p s :
  with_suffix p s
  = if has_char Flavour.sep_char s then Raise (ValueError "Invalid suffix %r")
    else if (truthy s && negb (Str.startswith "." s)) || String.eqb s "."
    then Raise (ValueError "Invalid suffix %r")
    else if negb (truthy (name p)) then Raise (ValueError "%r has an empty name")
    else Ok (mkPath (pathcls p) (_drv p) (_root p)
               (Py.slice_to (_parts p) (-1) ++ [stem p +:+ s]) (remote p)).
Proof.
  unfold with_suffix. rewrite contains_sep. change (truthy Flavour.altsep) with false.
  cbn [andb]. rewrite orb_false_r. by rewrite with_suffix_name.
Qed.

(** ** Changing the name or the suffix *)

(** X6.  [with_name] replaces the last part and nothing else: when it
    succeeds the path had a name, the result has the new name, the same
    parent, handle and class.  A path without name is refused, and so is a
    name without separator that is empty or [.]; on a well-formed path
    with a name every well-formed segment is accepted and gives a
    well-formed path, and putting the path's own name back gives the
    path. *)
Theorem with_name_replaces_the_name (p : RemotePath) (nm : string) :
  (∀ q, with_name p nm = Ok q ->
        name p ≠ "" ∧ nm ≠ "" ∧ name q = nm ∧ parent q = parent p ∧
        remote q = remote p ∧ pathcls q = pathcls p) ∧
  (name p = "" -> with_name p nm = Raise (ValueError "%r has an empty name")) ∧
  (name p ≠ "" -> has_char "/" nm = false -> wf_segb nm = false ->
   with_name p nm = Raise (ValueError "Invalid name %r")) ∧
  (wf_path p -> name p ≠ "" ->
   with_name p (name p) = Ok p ∧
   (wf_segb nm = true -> ∃ q, with_name p nm = Ok q ∧ wf_path q)).
Proof.
  split; [|split; [|split]].
  - intros q. unfold with_name.
    destruct (truthy (name p)) eqn:Hn; [|done]. apply truthy_true in Hn. cbn [negb].
    destruct (Flavour.parse_parts [nm]) as [[d r] parts].
    destruct (truthy nm) eqn:Hnm; [|done]. apply truthy_true in Hnm.
    destruct (_ || _); [done|]. intros [= <-].
    destruct (replace_last_name_parent p nm Hn) as [H1 H2]. done.
  - intros Hn. unfold with_name. by rewrite Hn.
  - intros Hn%truthy_true Hc Hseg. unfold with_name. rewrite Hn. cbn [negb].
    rewrite parse_single_relative.
    2:{ unfold relative_pattern. destruct nm as [|a nm]; [done|].
        rewrite prefix_sep. simpl in Hc. apply orb_false_iff in Hc as [Hc _].
        by rewrite Hc. }
    unfold Flavour.append_names, Flavour.sep_char. rewrite Hc.
    unfold wf_segb, Flavour.sep_char in Hseg. rewrite Hc, andb_true_r in Hseg.
    rewrite Hseg. by rewrite !orb_true_r.
  - intros Hwf Hn. pose proof (wf_name_seg p Hwf Hn) as Hseg. split.
    + rewrite (with_name_ok _ _ Hn Hseg). rewrite slice_to_last.
      destruct (name_last p Hn) as [Hlast _].
      rewrite (take_init_last _ _ Hlast). by rewrite path_eta.
    + intros Hnm. rewrite (with_name_ok _ _ Hn Hnm). eexists. split; [done|].
      unfold wf_path. cbn [_drv _root _parts]. rewrite slice_to_last.
      by apply wf_replace_last.
Qed.

Lemma with_name_replaces_the_name_witness :
  with_name (dandi "/data/sub-01/a.h5" (Some store_sub01)) "a.h5"
  = Ok (dandi "/data/sub-01/a.h5" (Some store_sub01)) ∧
  (wf_segb "b.json" = true ->
   ∃ q, with_name (dandi "/data/sub-01/a.h5" (Some store_sub01)) "b.json" = Ok q ∧ wf_path q).
Proof.
  exact (proj2 (proj2 (proj2 (with_name_replaces_the_name
                                (dandi "/data/sub-01/a.h5" (Some store_sub01)) "b.json")))
           eq_refl ltac:(discriminate)).
Defined.

(** X7.  [with_suffix] replaces the suffix and nothing else: when it
    succeeds the path had a name, the new name is the stem followed by the
    given suffix, and parent, handle and class are kept; if the given
    suffix is a dot followed by at least one character and no further dot,
    it is the suffix of the result, whose stem is unchanged.  The empty
    suffix removes the suffix; a suffix holding a separator, the suffix
    [.] and a non-empty suffix that does not start with a dot are refused;
    and on a well-formed path with a name, putting the path's own suffix
    back gives the path. *)
Theorem with_suffix_changes_the_suffix (p : RemotePath) (s : string) :
  (∀ q, with_suffix p s = Ok q ->
        name p ≠ "" ∧ name q = stem p +:+ s ∧ parent q = parent p ∧
        remote q = remote p ∧ pathcls q = pathcls p ∧
        (∀ ext, s = String "." ext -> ext ≠ "" -> has_char "." ext = false ->
                suffix q = s ∧ stem q = stem p)) ∧
  (name p ≠ "" -> ∃ q, with_suffix p "" = Ok q ∧ name q = stem p) ∧
  (has_char "/" s = true ∨ s = "." ∨ (s ≠ "" ∧ Str.startswith "." s = false) ->
   with_suffix p s = Raise (ValueError "Invalid suffix %r")) ∧
  (wf_path p -> name p ≠ "" -> with_suffix p (suffix p) = Ok p).
Proof.
  split; [|split; [|split]].
  - intros q. rewrite with_suffix_unfold.
    destruct (has_char _ s); [done|]. destruct (_ || _); [done|].
    destruct (truthy (name p)) eqn:Hn; [|done]. apply truthy_true in Hn. cbn [negb].
    intros [= <-].
    destruct (replace_last_name_parent p (stem p +:+ s) Hn) as [H1 H2].
    split; [done|]. split; [done|]. split; [done|]. split; [done|]. split; [done|].
    intros ext -> Hext Hc.
    destruct (has_suffix_at_app (stem p) ext (stem_nonempty p Hn) Hext Hc) as [Hat Hr].
    match goal with
    | |- suffix ?q = _ ∧ _ => rewrite (suffix_unfold q), (stem_unfold q)
    end.
    rewrite H1, Hat, Hr, Nat2Z.id.
    by rewrite str_drop_app, str_take_app.
  - intros Hn. rewrite with_suffix_unfold.
    change (has_char Flavour.sep_char "") with false. cbv iota.
    change (truthy "" && negb (Str.startswith "." "") || ("" =? ".")%string) with false.
    cbv iota. apply truthy_true in Hn as Ht. rewrite Ht. cbn [negb]. eexists. split; [done|].
    destruct (replace_last_name_parent p (stem p +:+ "") Hn) as [H1 _].
    cbv zeta in H1. rewrite H1. apply str_app_nil_r.
  - rewrite with_suffix_unfold. unfold Flavour.sep_char.
    intros [-> | [-> | [Hne Hst]]]; [done| |].
    + done.
    + destruct (has_char "/" s); [done|]. apply truthy_true in Hne. by rewrite Hne, Hst.
  - intros Hwf Hn. rewrite with_suffix_unfold, stem_suffix.
    pose proof (wf_name_seg p Hwf Hn) as (_ & _ & Hc)%wf_segb_spec.
    rewrite <- (stem_suffix p), has_char_app in Hc. apply orb_false_iff in Hc as [_ Hc].
    rewrite Hc. apply truthy_true in Hn as Ht. rewrite Ht. cbn [negb].
    assert ((truthy (suffix p) && negb (Str.startswith "." (suffix p))
             || (suffix p =? ".")%string) = false) as ->.
    { destruct (suffix_shape p) as [-> | (ext & -> & Hext & _)]; [done|].
      destruct ext; [done|]. done. }
    rewrite slice_to_last. destruct (name_last p Hn) as [Hlast _].
    rewrite (take_init_last _ _ Hlast). by rewrite path_eta.
Qed.

Lemma with_suffix_changes_the_suffix_witness :
  ∃ q, with_suffix (dandi "sub-01/a.tar.h5" (Some store_sub01)) "" = Ok q ∧ name q = "a.tar".
Proof.
  exact (proj1 (proj2 (with_suffix_changes_the_suffix
                         (dandi "sub-01/a.tar.h5" (Some store_sub01)) ""))
           ltac:(discriminate)).
Defined.

(** ** What the adapter answers, read on the store *)

Lemma DandiPath_new_client s :
  DandiPath__new__ ClsDandiPath [ArgStr s] true None = Ok (dandi s None).
Proof. apply (RemotePath_new_str ClsDandiPath s None). Qed.

Lemma is_dir_loop_spec self listing :
  wf_path self -> forallb asset_ok listing = true ->
  is_dir_loop self listing
  = Ok (existsb (fun a => strictly_below (_parts self) (parts_of a)) listing).
Proof.
  intros Hself. induction listing as [|asset listing IH]; intros Hok; [done|].
  simpl in Hok. apply andb_true_iff in Hok as [Ha Hok].
  destruct (asset_ok_dandi asset None Ha) as (Q & HQ & Hparse & Hwf & Hne).
  cbn [is_dir_loop existsb]. rewrite DandiPath_new_str, HQ. cbn [mbind Result_bind Py.bind].
  rewrite (is_relative_to_unrooted _ _ _ Hself Hwf Hne). cbn [Py.bind].
  unfold strictly_below at 1, parts_of at 1. rewrite Hparse.
  destruct (below (_parts self) Q) as [[|? ?]|]; cbn [orb]; auto.
Qed.

Lemma exists_loop_spec self listing :
  wf_path self -> pathcls self = ClsDandiPath -> forallb asset_ok listing = true ->
  exists_loop self listing
  = Ok (existsb (fun a => is_prefixb (_parts self) (parts_of a)) listing).
Proof.
  intros Hself Hcls. induction listing as [|asset listing IH]; intros Hok; [done|].
  simpl in Hok. apply andb_true_iff in Hok as [Ha Hok].
  destruct (asset_ok_dandi asset None Ha) as (Q & HQ & Hparse & Hwf & Hne).
  cbn [exists_loop existsb]. rewrite DandiPath_new_client, HQ.
  cbn [mbind Result_bind Py.bind].
  rewrite (is_relative_to_unrooted _ _ _ Hself Hwf Hne). cbn [Py.bind].
  unfold is_prefixb at 1, parts_of at 1. rewrite Hparse.
  unfold path_eq, _cparts, Flavour.casefold_parts. cbn [_parts pathcls]. rewrite Hcls.
  rewrite (bool_decide_eq_true_2 (_flavour _ = _)) by done. rewrite andb_true_r.
  destruct (below (_parts self) Q) as [[|x rest]|] eqn:Hb.
  - apply below_Some in Hb. rewrite app_nil_r in Hb.
    by rewrite bool_decide_eq_true_2.
  - by destruct (bool_decide _).
  - rewrite bool_decide_eq_false_2; [by apply IH|].
    intros ->. apply below_None in Hb. by apply Hb.
Qed.

Lemma is_dir_spec ds p :
  store_ok ds = true -> bound_to ds p ->
  is_dir p = Ok (existsb (fun a => strictly_below (_parts p) (parts_of a))
                   (get_assets_with_path_prefix ds (path_str p))).
Proof.
  intros Hstore (Hwf & Hcls & Hrem). unfold is_dir. rewrite Hrem.
  apply is_dir_loop_spec; [done|]. by apply listing_ok.
Qed.

Lemma exists_spec ds p :
  store_ok ds = true -> bound_to ds p ->
  exists_ p = Ok (existsb (fun a => is_prefixb (_parts p) (parts_of a))
                    (get_assets_with_path_prefix ds (path_str p))).
Proof.
  intros Hstore (Hwf & Hcls & Hrem). unfold exists_. rewrite Hrem.
  apply exists_loop_spec; [done..|]. by apply listing_ok.
Qed.

Lemma strictly_below_prefix P Q : strictly_below P Q = true -> is_prefixb P Q = true.
Proof. unfold strictly_below, is_prefixb. by destruct (below P Q) as [[|]|]. Qed.

Lemma existsb_impl {A} (f g : A -> bool) l :
  (∀ x, f x = true -> g x = true) -> existsb f l = true -> existsb g l = true.
Proof.
  intros Hfg. rewrite !existsb_exists. intros (x & Hx & Hf). exists x. auto.
Qed.

Lemma is_dir_exists ds p :
  store_ok ds = true -> bound_to ds p -> is_dir p = Ok true -> exists_ p = Ok true.
Proof.
  intros Hstore Hp. rewrite (is_dir_spec ds p), (exists_spec ds p) by done.
  intros [= H]. f_equal. revert H. apply existsb_impl. intros a. apply strictly_below_prefix.
Qed.

(** ** Strings of normal assets *)

Lemma str_prefix_app s t : String.prefix s (s +:+ t) = true.
Proof.
  induction s as [|a s IH]; [by destruct t|].
  rewrite str_app_cons. simpl. destruct (ascii_dec a a); [done|congruence].
Qed.

Lemma str_prefix_refl s : String.prefix s s = true.
Proof. rewrite <- (str_app_nil_r s) at 2. apply str_prefix_app. Qed.

Lemma join_app l1 l2 :
  l1 ≠ [] ->
  Flavour.join (l1 ++ l2)
  = Flavour.join l1 +:+ match l2 with [] => "" | _ => "/" +:+ Flavour.join l2 end.
Proof.
  intros Hne. induction l1 as [|x l1 IH]; [done|].
  destruct l1 as [|y l1].
  - destruct l2 as [|z l2]; [by rewrite str_app_nil_r|]. done.
  - change (Flavour.join ((x :: y :: l1) ++ l2))
      with (x +:+ "/" +:+ Flavour.join ((y :: l1) ++ l2)).
    rewrite IH by done.
    change (Flavour.join (x :: y :: l1)) with (x +:+ "/" +:+ Flavour.join (y :: l1)).
    by rewrite !str_app_assoc.
Qed.

(** A normal asset is the join of its parts. *)
Lemma normal_asset_join a :
  normal_asset a = true ->
  asset_ok a = true ∧ a = Flavour.join (parts_of a) ∧
  forallb wf_segb (parts_of a) = true ∧ parts_of a ≠ [].
Proof.
  unfold normal_asset. intros [Hok Hstr%String.eqb_eq]%andb_true_iff.
  destruct (asset_ok_dandi a None Hok) as (Q & HQ & Hparse & Hwf & Hne).
  unfold parts_of. rewrite Hparse. split; [done|]. split; [|done].
  rewrite HQ in Hstr. unfold path_str, _format_parsed_parts in Hstr. simpl in Hstr.
  destruct Q as [|x Q]; [done|].
  rewrite join_truthy in Hstr by by eapply wf_segs_head_nonempty. done.
Qed.

Lemma normal_store_ok ds : normal_store ds = true -> store_ok ds = true.
Proof.
  unfold normal_store, store_ok. rewrite !forallb_forall. intros H a Ha.
  apply H in Ha. unfold normal_asset in Ha. by apply andb_true_iff in Ha as [? _].
Qed.

Lemma path_str_unrooted p :
  _drv p = "" -> _root p = "" -> _parts p ≠ [] ->
  forallb wf_segb (_parts p) = true -> path_str p = Flavour.join (_parts p).
Proof.
  intros Hd Hr Hne Hs. unfold path_str, _format_parsed_parts. rewrite Hd, Hr. simpl.
  destruct (_parts p) as [|x l]; [done|].
  by rewrite join_truthy by by eapply wf_segs_head_nonempty.
Qed.

(** On a store of normal assets, the prefix query of a path returns every
    asset at or below it. *)
Lemma normal_asset_listed ds p a :
  normal_store ds = true -> wf_path p -> _parts p ≠ [] ->
  a ∈ assets ds -> is_prefixb (_parts p) (parts_of a) = true ->
  a ∈ get_assets_with_path_prefix ds (path_str p).
Proof.
  intros Hstore Hwf Hne Ha Hpre. apply list_elem_of_filter. split; [|done].
  unfold normal_store in Hstore. rewrite forallb_forall in Hstore.
  apply list_elem_of_In, Hstore, normal_asset_join in Ha as (_ & Hjoin & Hsegs & HneQ).
  apply is_prefixb_spec in Hpre as [rest Hrest].
  rewrite Hrest in Hsegs. apply forallb_app_iff in Hsegs as [HP _].
  assert (_root p = "") as Hroot.
  { destruct (truthy (_root p)) eqn:Hr; [|by apply truthy_false].
    destruct (wf_rooted_parts p Hwf Hr) as (segs & Hp & Hnr).
    rewrite Hp in HP. simpl in HP. by rewrite Hnr in HP. }
  rewrite (path_str_unrooted p (wf_drv _ Hwf) Hroot Hne HP).
  rewrite Hjoin, Hrest, join_app by done. apply str_prefix_app.
Qed.

(** ** Existence, files and directories *)

(** X8.  On a store of relative asset paths, for a well-formed [DandiPath]
    bound to it, [is_file], [is_dir] and [exists] all answer, and a file
    or a directory exists; when moreover every asset path is written in
    normal form, [exists] is exactly "[is_file] or [is_dir]". *)
Theorem exists_is_file_or_dir (ds : Dandiset) (p : RemotePath) :
  store_ok ds = true -> bound_to ds p ->
  ∃ f d e, is_file p = Ok f ∧ is_dir p = Ok d ∧ exists_ p = Ok e ∧
           (f || d = true -> e = true) ∧
           (normal_store ds = true -> e = f || d).
Proof.
  intros Hstore Hp. pose proof Hp as (Hwf & Hcls & Hrem).
  rewrite (is_file_with_remote p ds Hrem), (is_dir_spec ds p Hstore Hp),
    (exists_spec ds p Hstore Hp).
  eexists _, _, _. split; [done|]. split; [done|]. split; [done|].
  assert (bool_decide (path_str p ∈ assets ds) = true ->
          existsb (fun a => is_prefixb (_parts p) (parts_of a))
            (get_assets_with_path_prefix ds (path_str p)) = true) as Hfile.
  { intros Hin%bool_decide_eq_true. apply existsb_exists. exists (path_str p). split.
    - apply list_elem_of_In, list_elem_of_filter. split; [apply str_prefix_refl|done].
    - unfold parts_of. rewrite (parse_path_str p Hwf). simpl.
      apply is_prefixb_spec. done. }
  split.
  - intros [Hf|Hd]%orb_true_iff; [by apply Hfile|].
    revert Hd. apply existsb_impl. intros a. apply strictly_below_prefix.
  - intros Hnormal.
    destruct (existsb (fun a => is_prefixb _ _) _) eqn:He.
    + symmetry. apply existsb_exists in He as (a & Ha%list_elem_of_In & Hpre).
      apply orb_true_iff.
      unfold is_prefixb in Hpre. destruct (below (_parts p) (parts_of a)) as [rest|] eqn:Hb; [|done].
      destruct rest as [|x rest].
      * left. apply bool_decide_eq_true.
        apply below_Some in Hb. rewrite app_nil_r in Hb.
        pose proof Ha as Hin. apply list_elem_of_filter in Hin as [_ Hin].
        unfold normal_store in Hnormal. rewrite forallb_forall in Hnormal.
        pose proof Hin as Hn. apply list_elem_of_In, Hnormal in Hn.
        unfold normal_asset in Hn. apply andb_true_iff in Hn as [_ Hn%String.eqb_eq].
        assert (path_str p = a) as ->; [|done]. rewrite <- Hn.
        unfold path_str, dandi.
        pose proof (parse_path_str p Hwf) as Hpp.
        destruct (Flavour.parse_parts [a]) as [[d r] Q] eqn:Hpa.
        unfold parts_of in Hb. rewrite Hpa in Hb. simpl in Hb. subst Q.
        pose proof (parse_parts_wf _ _ _ _ Hpa) as HwfQ.
        cbn [_drv _root _parts].
        pose proof (parse_parts_id _ _ _ HwfQ) as H1.
        pose proof (parse_parts_id _ _ _ Hwf) as H2.
        rewrite H1 in H2. by injection H2 as -> ->.
      * right. apply existsb_exists. exists a. split; [by apply list_elem_of_In|].
        unfold strictly_below. by rewrite Hb.
    + symmetry. apply orb_false_iff. split.
      * destruct (bool_decide (path_str p ∈ assets ds)) eqn:Hf; [|done].
        by specialize (Hfile eq_refl).
      * destruct (existsb (fun a => strictly_below _ _) _) eqn:Hd; [|done].
        apply (existsb_impl _ (fun a => is_prefixb (_parts p) (parts_of a))) in Hd;
          [congruence|]. intros a. apply strictly_below_prefix.
Qed.

Lemma exists_is_file_or_dir_witness :
  ∃ f d e, is_file (dandi "sub-01/ses-1" (Some store_sub01)) = Ok f ∧
           is_dir (dandi "sub-01/ses-1" (Some store_sub01)) = Ok d ∧
           exists_ (dandi "sub-01/ses-1" (Some store_sub01)) = Ok e ∧
           (f || d = true -> e = true) ∧
           (normal_store store_sub01 = true -> e = f || d).
Proof.
  apply (exists_is_file_or_dir store_sub01 (dandi "sub-01/ses-1" (Some store_sub01)));
    [reflexivity|]. split; [reflexivity|]. split; reflexivity.
Defined.

(** X9.  On a store of normal assets the prefix query loses nothing: a
    well-formed, non-empty [DandiPath] bound to the store is a directory
    exactly when some asset of the store lies strictly below it, and
    exists exactly when some asset lies at or below it. *)
Theorem is_dir_iff_asset_below (ds : Dandiset) (p : RemotePath) :
  normal_store ds = true -> bound_to ds p -> _parts p ≠ [] ->
  is_dir p = Ok (existsb (fun a => strictly_below (_parts p) (parts_of a)) (assets ds)) ∧
  exists_ p = Ok (existsb (fun a => is_prefixb (_parts p) (parts_of a)) (assets ds)).
Proof.
  intros Hnormal Hp Hne. pose proof (normal_store_ok _ Hnormal) as Hstore.
  pose proof Hp as (Hwf & _ & _).
  rewrite (is_dir_spec ds p Hstore Hp), (exists_spec ds p Hstore Hp).
  assert (∀ f : string -> bool,
            (∀ a, f a = true -> is_prefixb (_parts p) (parts_of a) = true) ->
            existsb f (get_assets_with_path_prefix ds (path_str p)) = existsb f (assets ds))
    as Hsame.
  { intros f Hf. apply eq_true_iff_eq. rewrite !existsb_exists. split.
    - intros (a & Ha%list_elem_of_In & Hfa). exists a. split; [|done].
      apply list_elem_of_In. by apply list_elem_of_filter in Ha as [_ Ha].
    - intros (a & Ha%list_elem_of_In & Hfa). exists a. split; [|done].
      apply list_elem_of_In, normal_asset_listed; auto. }
  split; f_equal; apply Hsame; [|done]. intros a. apply strictly_below_prefix.
Qed.

Lemma is_dir_iff_asset_below_witness :
  is_dir (dandi "top/a" (Some store_x)) = Ok true ∧
  exists_ (dandi "top/a" (Some store_x)) = Ok true.
Proof.
  apply (is_dir_iff_asset_below store_x (dandi "top/a" (Some store_x)));
    [reflexivity| |discriminate]. split; [reflexivity|]. split; reflexivity.
Defined.

(** ** What [glob] yields exists *)

(** [scandir] of a directory, by the listing. *)
Lemma scandir_spec ds p :
  store_ok ds = true -> bound_to ds p -> is_dir p = Ok true ->
  scandir p
  = ((fun c => _make_child_relpath p (child_name c)) <$> children_of p ds, Returned).
Proof.
  intros Hstore (Hwf & Hcls & Hrem) Hd. unfold scandir. rewrite Hd, Hrem. cbn [Gen.lift negb].
  change (scandir_loop p (get_assets_with_path_prefix ds (path_str p)) [])
    with (scandir_loop p (get_assets_with_path_prefix ds (path_str p))
            (_make_child_relpath p <$> [])).
  apply scandir_loop_spec; [done..|]. by apply listing_ok.
Qed.

Lemma scandir_not_dir p : is_dir p = Ok false -> scandir p = Gen.raise NotADirectoryError.
Proof. intros Hd. unfold scandir. by rewrite Hd. Qed.

(** On a store of normal assets every child of a directory exists. *)
Lemma child_exists ds p c :
  normal_store ds = true -> bound_to ds p -> c ∈ children_of p ds ->
  wf_segb (child_name c) = true ∧
  exists_ (_make_child_relpath p (child_name c)) = Ok true.
Proof.
  intros Hnormal Hp Hc. pose proof (normal_store_ok _ Hnormal) as Hstore.
  unfold children_of in Hc.
  assert (wf_segb (child_name c) = true) as Hseg.
  { pose proof (children_from_wf (_parts p) [] _ (listing_ok ds (path_str p) Hstore)) as Hall.
    rewrite Forall_forall in Hall. by apply Hall. }
  split; [done|].
  pose proof (bound_to_child ds p _ Hp Hseg) as Hchild.
  rewrite (exists_spec ds _ Hstore Hchild). f_equal. apply existsb_exists.
  apply children_from_origin in Hc.
  assert (∃ b rest, b ∈ assets ds ∧ parts_of b = (_parts p ++ [child_name c]) ++ rest)
    as (b & rest & Hb & Hparts).
  { destruct c as [n|n].
    - destruct Hc as (b & Hb & Hparts). exists b, []. rewrite app_nil_r.
      split; [|done]. by apply list_elem_of_filter in Hb as [_ Hb].
    - destruct Hc as (_ & b & y & rest & Hb & Hparts). exists b, (y :: rest).
      rewrite <- app_assoc. split; [|done]. by apply list_elem_of_filter in Hb as [_ Hb]. }
  assert (is_prefixb (_parts (_make_child_relpath p (child_name c))) (parts_of b) = true)
    as Hpre by (apply is_prefixb_spec; by exists rest).
  exists b. split; [|done]. apply list_elem_of_In.
  destruct Hchild as (Hwfc & _ & _).
  apply normal_asset_listed; [done|done| |done|done].
  cbn. by destruct (_parts p).
Qed.

Section Sound.

Variable compile_pattern : string -> Result (string -> bool).
Variable ds : Dandiset.
Hypothesis Hnormal : normal_store ds = true.

Lemma present_entry p entries e :
  bound_to ds p -> Gen.to_list (scandir p) = Ok entries -> e ∈ entries ->
  present ds e ∧ _make_child_relpath p (name e) = e.
Proof.
  intros Hp Hscan He. pose proof (normal_store_ok _ Hnormal) as Hstore.
  destruct (is_dir_ok ds p Hstore Hp) as [[|] Hd].
  - rewrite (scandir_spec ds p Hstore Hp Hd) in Hscan. cbn in Hscan.
    injection Hscan as <-. apply list_elem_of_fmap in He as (c & -> & Hc).
    destruct (child_exists ds p c Hnormal Hp Hc) as [Hseg Hex].
    destruct Hp as (Hwf & Hcls & Hrem).
    rewrite (name_child_relpath p _ Hwf). split; [|done].
    split; [|done]. by apply bound_to_child.
  - by rewrite (scandir_not_dir p Hd) in Hscan.
Qed.

Lemma iterate_directories_present fuel p q :
  present ds p -> q ∈ (_iterate_directories fuel p).1 -> present ds q.
Proof.
  pose proof (normal_store_ok _ Hnormal) as Hstore.
  revert p. induction fuel as [|fuel IH]; intros p Hp; [by intros ?%elem_of_nil|].
  cbn [_iterate_directories]. unfold Gen.yield. cbn [fst].
  intros [->|Hq]%elem_of_cons; [done|].
  rewrite except_PermissionError_yields in Hq.
  apply lift_elem_of in Hq as (entries & Hscan & Hq).
  apply for_list_elem_of in Hq as (entry & He & Hq).
  apply lift_elem_of in Hq as ([|] & Hd & Hq); [|by apply elem_of_nil in Hq].
  destruct Hp as [Hp _].
  destruct (present_entry p entries entry Hp Hscan He) as [Hpe Heq].
  rewrite Heq in Hq. by apply (IH entry).
Qed.

Lemma select_from_present fuel sel p q :
  wf_selector sel = true -> present ds p ->
  q ∈ (_select_from fuel sel p).1 -> present ds q.
Proof.
  pose proof (normal_store_ok _ Hnormal) as Hstore.
  intros Hsel. revert p.
  induction sel as [|nm d succ IH|pat d succ IH|d succ IH]; intros p Hp;
    cbn [_select_from wf_selector] in *.
  - unfold Gen.yield. cbn. by intros [->|?%elem_of_nil]%elem_of_cons.
  - apply andb_true_iff in Hsel as [Hnm Hsucc].
    rewrite except_PermissionError_yields.
    intros ([|] & Hfound & Hq)%lift_elem_of; [|by apply elem_of_nil in Hq].
    destruct Hp as [Hp _].
    pose proof (bound_to_child ds p nm Hp Hnm) as Hchild.
    apply (IH Hsucc (_make_child_relpath p nm)); [|done]. split; [done|].
    destruct d; [by apply (is_dir_exists ds)|done].
  - rewrite except_PermissionError_yields.
    intros (entries & Hscan & Hq)%lift_elem_of.
    apply for_list_elem_of in Hq as (entry & He & Hq).
    apply lift_elem_of in Hq as ([|] & _ & Hq); [|by apply elem_of_nil in Hq].
    destruct (pat (name entry)); [|by apply elem_of_nil in Hq].
    destruct Hp as [Hp _].
    destruct (present_entry p entries entry Hp Hscan He) as [Hpe Heq].
    rewrite Heq in Hq. by apply (IH Hsel entry).
  - rewrite except_PermissionError_yields. cbn [fst].
    intros [_ Hq]%yield_new_fresh. unfold Gen.for_gen in Hq.
    apply seq_elem_of in Hq as [Hq|Hq]; [|by apply elem_of_nil in Hq].
    apply for_list_elem_of in Hq as (sp & Hsp & Hq).
    apply (IH Hsel sp); [|done]. by apply (iterate_directories_present fuel p).
Qed.

End Sound.

(** A path yielded by a selector run was yielded by the chain of the
    pattern's components, started in a directory. *)
Lemma run_selector_elem compile_pattern self parts r q :
  forallb wf_segb parts = true ->
  q ∈ (run_selector compile_pattern self (mkPath ClsDandiPath "" "" parts r)).1 ->
  is_dir self = Ok true ∧
  q ∈ (_select_from (walk_fuel self) (chain_of compile_pattern parts) self).1.
Proof.
  intros Hparts. rewrite (run_selector_wf _ _ _ _ _ Hparts).
  destruct parts as [|pat rest]; [by intros ?%elem_of_nil|].
  destruct (refusal compile_pattern (pat :: rest)); [by intros ?%elem_of_nil|].
  unfold select_from.
  destruct (chain_of compile_pattern (pat :: rest)) eqn:Hchain; [by intros ?%elem_of_nil|..];
    intros ([|] & Hd & Hq)%lift_elem_of; done || by apply elem_of_nil in Hq.
Qed.

Lemma parsed_relative_segs s :
  relative_pattern s = true -> forallb wf_segb (Flavour.parse_parts [s]).2 = true.
Proof.
  intros Hrel. rewrite (parse_single_relative _ Hrel). simpl.
  rewrite forallb_reverse. apply append_names_wf.
Qed.

(** What [glob] or [rglob] yields comes out of a chain run from [self],
    which is a directory. *)
Lemma glob_rglob_elem compile_pattern self s q :
  q ∈ (glob compile_pattern self s).1 ∨ q ∈ (rglob compile_pattern self s).1 ->
  is_dir self = Ok true ∧
  ∃ sel, wf_selector sel = true ∧
         q ∈ (_select_from (walk_fuel self) sel self).1.
Proof.
  destruct (relative_pattern s) eqn:Hrel.
  2:{ rewrite glob_absolute, rglob_absolute by done. by intros [?%elem_of_nil|?%elem_of_nil]. }
  pose proof (parsed_relative_segs s Hrel) as Hsegs.
  intros [Hq|Hq].
  - destruct (truthy s) eqn:Hs.
    + rewrite (glob_relative _ _ _ Hs Hrel) in Hq.
      apply run_selector_elem in Hq as [Hd Hq]; [|done].
      split; [done|]. eexists. split; [|done]. by apply chain_of_wf.
    + unfold glob in Hq. rewrite Hs in Hq. by apply elem_of_nil in Hq.
  - rewrite (rglob_relative _ _ _ Hrel) in Hq.
    apply run_selector_elem in Hq as [Hd Hq]; [|simpl; by rewrite Hsegs].
    split; [done|]. eexists. split; [|done]. apply chain_of_wf. simpl. by rewrite Hsegs.
Qed.

(** ** Globbing from a path that is no directory *)

Lemma glob_rglob_not_dir compile_pattern self s :
  is_dir self = Ok false ->
  (glob compile_pattern self s).1 = [] ∧ (rglob compile_pattern self s).1 = [].
Proof.
  intros Hd.
  assert (∀ q, ¬ (q ∈ (glob compile_pattern self s).1 ∨ q ∈ (rglob compile_pattern self s).1))
    as Hnone.
  { intros q Hq. apply glob_rglob_elem in Hq as [Hd' _]. congruence. }
  split.
  - destruct (glob compile_pattern self s).1 as [|q l] eqn:Hg; [done|].
    exfalso. apply (Hnone q). left. left.
  - destruct (rglob compile_pattern self s).1 as [|q l] eqn:Hg; [done|].
    exfalso. apply (Hnone q). right. left.
Qed.

(** ** Patterns of one component *)

Lemma for_list_filter {A} (f : A -> bool) (g : A -> A) (items : list A) :
  (∀ x, x ∈ items -> g x = x) ->
  Gen.for_list items (fun x => if f x then Gen.yield (g x) Gen.stop else Gen.stop)
  = (filter (fun x => f x = true) items, Returned).
Proof.
  induction items as [|x items IH]; intros Hg; [done|].
  cbn [Gen.for_list]. rewrite IH by (intros y Hy; apply Hg; by right).
  rewrite filter_cons. rewrite (Hg x) by left.
  destruct (f x) eqn:Hf.
  - by rewrite decide_True.
  - by rewrite decide_False by congruence.
Qed.

Lemma split_snoc_sep c s : split c (s +:+ String c "") = split c s ++ [""].
Proof.
  induction s as [|a s IH].
  - simpl. by rewrite Ascii.eqb_refl.
  - rewrite str_app_cons. simpl. rewrite IH.
    destruct (Ascii.eqb a c); [done|].
    pose proof (split_nonempty c s). by destruct (split c s).
Qed.

(** A separator at the end of a relative pattern adds no component. *)
Lemma parse_trailing_sep s :
  s ≠ "" -> relative_pattern s = true ->
  Flavour.parse_parts [s +:+ "/"] = Flavour.parse_parts [s].
Proof.
  intros Hne Hrel.
  assert (relative_pattern (s +:+ "/") = true) as Hrel'.
  { destruct s as [|a s]; [done|]. rewrite str_app_cons.
    unfold relative_pattern in *. by rewrite prefix_sep in *. }
  rewrite !parse_single_relative, !append_names_split by done.
  unfold Flavour.sep_char. rewrite split_snoc_sep, reverse_app. simpl. by rewrite filter_cons.
Qed.

(** ** What [glob] yields *)

(** X10.  The empty path is written [.], so its prefix query asks for the
    assets whose path starts with a dot: bound to a store without such an
    asset, the empty [DandiPath] is no directory and does not exist,
    listing it raises [NotADirectoryError], and [glob] and [rglob] from it
    yield nothing, whatever the store holds. *)
Theorem empty_path_is_no_directory
    (compile_pattern : string -> Result (string -> bool)) (ds : Dandiset) (p : RemotePath) (s : string) :
  bound_to ds p -> _parts p = [] ->
  (∀ a, a ∈ assets ds -> String.prefix "." a = false) ->
  path_str p = "." ∧
  is_dir p = Ok false ∧ exists_ p = Ok false ∧
  iterdir p = ([], Raised NotADirectoryError) ∧
  scandir p = ([], Raised NotADirectoryError) ∧
  (glob compile_pattern p s).1 = [] ∧ (rglob compile_pattern p s).1 = [].
Proof.
  intros (Hwf & Hcls & Hrem) Hnil Hdot.
  assert (path_str p = ".") as Hstr.
  { unfold path_str, _format_parsed_parts, anchored. rewrite (wf_drv p Hwf), Hnil.
    destruct (truthy (_root p)) eqn:Hr; [|done].
    destruct (wf_rooted_parts p Hwf Hr) as (segs & Hp & _). congruence. }
  assert (get_assets_with_path_prefix ds "." = []) as Hlist.
  { unfold get_assets_with_path_prefix. induction (assets ds) as [|a l IH]; [done|].
    rewrite filter_cons, decide_False.
    - apply IH. intros b Hb. apply Hdot. by right.
    - rewrite (Hdot a) by left. done. }
  assert (is_dir p = Ok false) as Hd by (unfold is_dir; by rewrite Hrem, Hstr, Hlist).
  split; [done|]. split; [done|].
  split; [unfold exists_; by rewrite Hrem, Hstr, Hlist|].
  split; [unfold iterdir; by rewrite Hd|].
  split; [by apply scandir_not_dir|]. by apply glob_rglob_not_dir.
Qed.

Lemma empty_path_is_no_directory_witness :
  path_str (dandi "" (Some store_sub01)) = "." ∧
  is_dir (dandi "" (Some store_sub01)) = Ok false ∧
  exists_ (dandi "" (Some store_sub01)) = Ok false ∧
  iterdir (dandi "" (Some store_sub01)) = ([], Raised NotADirectoryError) ∧
  scandir (dandi "" (Some store_sub01)) = ([], Raised NotADirectoryError) ∧
  (glob simple_compile (dandi "" (Some store_sub01)) "*").1 = [] ∧
  (rglob simple_compile (dandi "" (Some store_sub01)) "*").1 = [].
Proof.
  apply (empty_path_is_no_directory simple_compile store_sub01 (dandi "" (Some store_sub01)) "*").
  - split; [reflexivity|]. split; reflexivity.
  - reflexivity.
  - intros a Ha. simpl in Ha. repeat (apply elem_of_cons in Ha as [-> | Ha]; [reflexivity|]).
    by apply elem_of_nil in Ha.
Defined.

(** X11.  [glob] and [rglob] yield only what is there: from a well-formed
    [DandiPath] bound to a store of normal assets, every path they yield
    exists, lies at or below the starting path, is a well-formed
    [DandiPath] and carries the handle of the starting path; and they
    yield something only if the starting path is a directory. *)
Theorem glob_yields_existing_paths
    (compile_pattern : string -> Result (string -> bool)) (ds : Dandiset)
    (self : RemotePath) (s : string) (q : RemotePath) :
  normal_store ds = true -> bound_to ds self ->
  q ∈ (glob compile_pattern self s).1 ∨ q ∈ (rglob compile_pattern self s).1 ->
  exists_ q = Ok true ∧ _parts self `prefix_of` _parts q ∧
  wf_path q ∧ pathcls q = ClsDandiPath ∧ remote q = remote self ∧
  is_dir self = Ok true.
Proof.
  intros Hnormal Hself Hq. pose proof (normal_store_ok _ Hnormal) as Hstore.
  apply glob_rglob_elem in Hq as (Hd & sel & Hsel & Hq).
  pose proof (select_from_extends _ _ _ _ Hq) as [Hpre _].
  apply (select_from_present ds Hnormal) in Hq as [(Hwf & Hcls & Hrem) Hex];
    [|done|split; [done|by apply (is_dir_exists ds)]].
  destruct Hself as (_ & _ & Hrem'). by rewrite Hrem, Hrem'.
Qed.

Lemma glob_yields_existing_paths_witness :
  exists_ (dandi "top/a/b/x.h5" (Some store_x)) = Ok true ∧
  _parts (dandi "top" (Some store_x)) `prefix_of` _parts (dandi "top/a/b/x.h5" (Some store_x)) ∧
  wf_path (dandi "top/a/b/x.h5" (Some store_x)) ∧
  pathcls (dandi "top/a/b/x.h5" (Some store_x)) = ClsDandiPath ∧
  remote (dandi "top/a/b/x.h5" (Some store_x)) = remote (dandi "top" (Some store_x)) ∧
  is_dir (dandi "top" (Some store_x)) = Ok true.
Proof.
  apply (glob_yields_existing_paths simple_compile store_x (dandi "top" (Some store_x))
           "**/x.h5" (dandi "top/a/b/x.h5" (Some store_x))).
  - reflexivity.
  - split; [reflexivity|]. split; reflexivity.
  - left. vm_compute. right. left.
Defined.

(** X12.  A pattern of one component.  From a well-formed [DandiPath]
    bound to a store of relative assets, [glob] with a single wildcard
    component (not [**]) first compiles it: if that fails, [glob] raises
    the error of [compile_pattern], whether the starting path is a
    directory or not; otherwise it yields the entries of [scandir] whose
    name the compiled pattern matches, in the order of the listing.  With
    a single literal name it yields the child of that name if it exists,
    and nothing otherwise.  From a path that is no directory it then
    yields nothing and returns, where [scandir] raises. *)
Theorem glob_one_component
    (compile_pattern : string -> Result (string -> bool)) (ds : Dandiset)
    (self : RemotePath) (pat : string) :
  store_ok ds = true -> bound_to ds self ->
  wf_segb pat = true -> contains "**" pat = false ->
  ∃ d e, is_dir self = Ok d ∧ exists_ (_make_child_relpath self pat) = Ok e ∧
         glob compile_pattern self pat
         = if _is_wildcard_pattern pat
           then
             match compile_pattern pat with
             | Raise err => ([], Raised err)
             | Ok m =>
                 if d then (filter (fun entry => m (name entry) = true) (scandir self).1,
                            Returned)
                 else ([], Returned)
             end
           else
             if d then (if e then [_make_child_relpath self pat] else [], Returned)
             else ([], Returned).
Proof.
  intros Hstore Hself Hpat Hstars. pose proof Hself as (Hwf & Hcls & Hrem).
  destruct (is_dir_ok ds self Hstore Hself) as [d Hd].
  destruct (exists_ok ds _ Hstore (bound_to_child ds self pat Hself Hpat)) as [e He].
  exists d, e. split; [done|]. split; [done|].
  pose proof Hpat as (Hne & _ & Hc)%wf_segb_spec.
  assert (relative_pattern pat = true) as Hrel.
  { destruct pat as [|a pat]; [done|]. unfold relative_pattern. rewrite prefix_sep.
    simpl in Hc. apply orb_false_iff in Hc as [Hc _].
    unfold Flavour.sep_char in Hc. by rewrite Hc. }
  rewrite (glob_relative _ _ _ (proj2 (truthy_true _) Hne) Hrel).
  rewrite (parse_single_relative _ Hrel), (append_names_seg _ Hpat). cbn [snd reverse rev_append].
  change (reverse [pat]) with [pat].
  rewrite run_selector_wf by (simpl; by rewrite Hpat).
  assert (bad_component pat = false) as Hbad
    by (unfold bad_component; by rewrite Hstars, andb_false_r).
  cbn [refusal chain_of]. rewrite Hbad. unfold wildcard_component, matcher.
  rewrite Hstars. cbn [negb andb].
  assert ((pat =? "**")%string = false) as ->.
  { apply String.eqb_neq. intros ->. done. }
  destruct (_is_wildcard_pattern pat).
  - destruct (compile_pattern pat) as [m|err]; [|done].
    unfold select_from; rewrite Hd; cbn [Gen.lift]. destruct d; [|done]. cbn [_select_from].
    rewrite (scandir_spec ds self Hstore Hself Hd). cbn [Gen.to_list Gen.lift fst snd].
    rewrite for_list_filter; [done|].
    intros entry (c & -> & Hc')%list_elem_of_fmap. by rewrite (name_child_relpath _ _ Hwf).
  - unfold select_from; rewrite Hd; cbn [Gen.lift]. destruct d; [|done]. cbn [_select_from].
    rewrite He. cbn [Gen.lift]. by destruct e.
Qed.

Lemma glob_one_component_witness :
  ∃ d e, is_dir (dandi "sub-01/ses-1" (Some store_sub01)) = Ok d ∧
         exists_ (_make_child_relpath (dandi "sub-01/ses-1" (Some store_sub01)) "*.h5") = Ok e ∧
         glob simple_compile (dandi "sub-01/ses-1" (Some store_sub01)) "*.h5"
         = if _is_wildcard_pattern "*.h5"
           then
             match simple_compile "*.h5" with
             | Raise err => ([], Raised err)
             | Ok m =>
                 if d then (filter (fun entry => m (name entry) = true)
                              (scandir (dandi "sub-01/ses-1" (Some store_sub01))).1,
                            Returned)
                 else ([], Returned)
             end
           else
             if d then (if e then [_make_child_relpath (dandi "sub-01/ses-1" (Some store_sub01))
                                    "*.h5"]
                        else [], Returned)
             else ([], Returned).
Proof.
  apply (glob_one_component simple_compile store_sub01 (dandi "sub-01/ses-1" (Some store_sub01))
           "*.h5"); [reflexivity| |reflexivity|reflexivity].
  split; [reflexivity|]. split; reflexivity.
Defined.

Example glob_one_component_ex :
  Gen.map path_str (glob simple_compile (dandi "sub-01/ses-1" (Some store_sub01)) "*.h5")
  = (["sub-01/ses-1/a.h5"], Returned) ∧
  glob simple_compile (dandi "sub-01/ses-1/a.h5" (Some store_sub01)) "[z-a]"
  = ([], Raised (re_error "bad character range z-a")) ∧
  glob simple_compile (dandi "sub-01" (Some store_sub01)) "[z-a]/x**"
  = ([], Raised (re_error "bad character range z-a")) ∧
  glob simple_compile (dandi "sub-01" (Some store_sub01)) "x**/[z-a]"
  = ([], Raised invalid_pattern).
Proof. repeat split; by vm_compute. Qed.

(** X13.  [glob] and [rglob] read a pattern through its parsed
    components only: two non-empty patterns with the same parsed form give
    the same run (two patterns, for [rglob]).  So a separator at the end
    of a relative pattern changes nothing: [glob(s + '/')] is [glob(s)],
    and does not restrict the matches to directories. *)
Theorem glob_reads_parsed_pattern
    (compile_pattern : string -> Result (string -> bool)) (self : RemotePath) (s s' : string) :
  (Flavour.parse_parts [s] = Flavour.parse_parts [s'] ->
   rglob compile_pattern self s = rglob compile_pattern self s' ∧
   (s ≠ "" -> s' ≠ "" -> glob compile_pattern self s = glob compile_pattern self s')) ∧
  (s ≠ "" -> relative_pattern s = true ->
   glob compile_pattern self (s +:+ "/") = glob compile_pattern self s ∧
   rglob compile_pattern self (s +:+ "/") = rglob compile_pattern self s).
Proof.
  assert (∀ a b, Flavour.parse_parts [a] = Flavour.parse_parts [b] ->
                 rglob compile_pattern self a = rglob compile_pattern self b ∧
                 (a ≠ "" -> b ≠ "" ->
                  glob compile_pattern self a = glob compile_pattern self b)) as Hsame.
  { intros a b Hparse.
    assert (relative_pattern a = relative_pattern b) as Hrels
      by (by rewrite !parse_single_root_relative, Hparse).
    destruct (relative_pattern b) eqn:Hb.
    - split.
      + by rewrite !rglob_relative, Hparse by done.
      + intros Ha%truthy_true Hb'%truthy_true. by rewrite !glob_relative, Hparse by done.
    - split; [by rewrite !rglob_absolute|]. intros _ _. by rewrite !glob_absolute. }
  split; [apply Hsame|].
  intros Hne Hrel. pose proof (parse_trailing_sep s Hne Hrel) as Hparse.
  destruct (Hsame _ _ Hparse) as [Hr Hg]. split; [|done].
  apply Hg; [|done]. by destruct s.
Qed.

Lemma glob_reads_parsed_pattern_witness :
  glob simple_compile (dandi "sub-01" (Some store_sub01)) ("*/a.h5" +:+ "/")
  = glob simple_compile (dandi "sub-01" (Some store_sub01)) "*/a.h5" ∧
  rglob simple_compile (dandi "sub-01" (Some store_sub01)) ("*/a.h5" +:+ "/")
  = rglob simple_compile (dandi "sub-01" (Some store_sub01)) "*/a.h5".
Proof.
  apply (proj2 (glob_reads_parsed_pattern simple_compile (dandi "sub-01" (Some store_sub01))
                  "*/a.h5" "")); [discriminate|reflexivity].
Defined.

(** ** Addresses *)

Lemma index_spec c s :
  has_char c s = true ->
  ∃ i rest, Str.index c s = Ok i ∧ has_char c (Str.take i s) = false ∧
            s = Str.take i s +:+ String c rest.
Proof.
  induction s as [|a s IH]; [done|]. cbn [has_char Str.index].
  destruct (Ascii.eqb a c) eqn:Hac.
  - intros _. apply Ascii.eqb_eq in Hac as ->. by exists 0, s.
  - cbn [orb]. intros (i & rest & -> & Hno & Hs)%IH. exists (S i), rest.
    split; [done|]. cbn [Str.take has_char]. rewrite Hac. split; [done|].
    by rewrite str_app_cons, <- Hs.
Qed.

Lemma str_slice_to_nat s (i : nat) : Str.slice_to s (Z.of_nat i) = Str.take i s.
Proof.
  unfold Str.slice_to. assert ((Z.of_nat i <? 0)%Z = false) as -> by (apply Z.ltb_ge; lia).
  by rewrite Nat2Z.id.
Qed.

(** ** Addresses of a path *)

(** X14.  [as_uri] refuses a path without dandiset with a [ValueError];
    for a path of a dandiset it is [dandi://dandiset/<identifier>/],
    then [<version>/] when the dandiset has a non-empty version, then the
    string of the path; so two well-formed paths of one dandiset with the
    same URI have the same drive, root and parts. *)
Theorem as_uri_names_the_path (ds : Dandiset) :
  (∀ p, remote p = None -> as_uri p = Raise (ValueError "Missing dandiset")) ∧
  (∀ p, remote p = Some ds ->
        as_uri p = Ok ("dandi://dandiset/" +:+ identifier ds +:+ "/" +:+
                       version_segment ds +:+ path_str p)) ∧
  (∀ p q, wf_path p -> wf_path q -> remote p = Some ds -> remote q = Some ds ->
          as_uri p = as_uri q ->
          (_drv p, _root p, _parts p) = (_drv q, _root q, _parts q)).
Proof.
  split; [intros p Hrem; unfold as_uri; by rewrite Hrem|].
  assert (∀ p, remote p = Some ds ->
               as_uri p = Ok (("dandi://dandiset/" +:+ identifier ds +:+ "/" +:+
                               version_segment ds) +:+ path_str p)) as Huri.
  { intros p Hrem. unfold as_uri, _make_uri_dandi, dandiset_id, path_version_id, version_segment.
    rewrite Hrem. cbn [format_opt].
    destruct (version_id ds) as [v|].
    - destruct (truthy v); by rewrite ?str_app_assoc, ?str_app_nil_r.
    - by rewrite ?str_app_assoc, ?str_app_nil_r. }
  split.
  - intros p Hrem. rewrite (Huri p Hrem). by rewrite !str_app_assoc.
  - intros p q Hp Hq Hrp Hrq. rewrite (Huri p Hrp), (Huri q Hrq).
    intros [= Heq%str_app_inv_head].
    by rewrite <- (parse_path_str p Hp), <- (parse_path_str q Hq), Heq.
Qed.

Example as_uri_ex :
  as_uri (dandi "sub-01/ses-1/a.h5" (Some (mkDandiset "000026" (Some "draft") [])))
  = Ok "dandi://dandiset/000026/draft/sub-01/ses-1/a.h5" ∧
  as_uri (dandi "sub-01/ses-1/a.h5" (Some store_sub01))
  = Ok "dandi://dandiset/000000/sub-01/ses-1/a.h5".
Proof. split; reflexivity. Qed.

(** X15.  [s3_url] is the address at which the [HEAD] request for the
    asset's download address ends, cut before its first question mark:
    when it succeeds the path names an asset of its dandiset, the result
    holds no question mark and the final address is the result followed
    by nothing or by a question mark and the rest.  A path that names no
    asset is refused with [ValueError('Not a file')]; a path without
    dandiset raises the [AttributeError] of [is_file]. *)
Theorem s3_url_strips_the_query
    (asset_download_url : string -> string) (head_request_url : string -> Result string)
    (p : RemotePath) :
  (∀ u, s3_url asset_download_url head_request_url p = Ok u ->
        ∃ ds final rest,
          remote p = Some ds ∧ path_str p ∈ assets ds ∧
          head_request_url (asset_download_url (path_str p)) = Ok final ∧
          has_char "?" u = false ∧ final = u +:+ rest ∧
          (rest = "" ∨ ∃ query, rest = String "?" query)) ∧
  (∀ ds final, remote p = Some ds -> path_str p ∈ assets ds ->
               head_request_url (asset_download_url (path_str p)) = Ok final ->
               ∃ u, s3_url asset_download_url head_request_url p = Ok u) ∧
  (∀ ds, remote p = Some ds -> path_str p ∉ assets ds ->
         s3_url asset_download_url head_request_url p = Raise (ValueError "Not a file")) ∧
  (remote p = None ->
   s3_url asset_download_url head_request_url p
   = Raise (AttributeError "'NoneType' object has no attribute 'get_asset_by_path'")).
Proof.
  assert (∀ ds, remote p = Some ds -> path_str p ∈ assets ds ->
                s3_url asset_download_url head_request_url p
                = _get_s3_url head_request_url (asset_download_url (path_str p))) as Hfile.
  { intros ds Hrem Hin. unfold s3_url, download_url, as_asset.
    rewrite (is_file_with_remote p ds Hrem), Hrem. unfold get_asset_by_path.
    by rewrite bool_decide_eq_true_2. }
  assert (∀ ds, remote p = Some ds -> path_str p ∉ assets ds ->
                s3_url asset_download_url head_request_url p
                = Raise (ValueError "Not a file")) as Hnofile.
  { intros ds Hrem Hin. unfold s3_url, download_url, as_asset.
    rewrite (is_file_with_remote p ds Hrem). by rewrite bool_decide_eq_false_2. }
  assert (remote p = None ->
          s3_url asset_download_url head_request_url p
          = Raise (AttributeError "'NoneType' object has no attribute 'get_asset_by_path'"))
    as Hnone.
  { intros Hrem. unfold s3_url, download_url, as_asset, is_file. by rewrite Hrem. }
  split; [|split; [|split]]; [| |done|done].
  - intros u Hu. destruct (remote p) as [ds|] eqn:Hrem; [|by rewrite Hnone in Hu].
    destruct (decide (path_str p ∈ assets ds)) as [Hin|Hin];
      [|by rewrite (Hnofile ds) in Hu].
    rewrite (Hfile ds eq_refl Hin) in Hu. unfold _get_s3_url in Hu.
    destruct (head_request_url _) as [final|e] eqn:Hhead; [|done].
    cbn [mbind Result_bind Py.bind] in Hu.
    exists ds, final. destruct (has_char "?" final) eqn:Hq.
    + destruct (index_spec _ _ Hq) as (i & rest & Hi & Hno & Hsplit).
      rewrite Hi in Hu. cbn in Hu. injection Hu as <-.
      rewrite str_slice_to_nat. exists (String "?" rest).
      split; [done|]. split; [done|]. split; [done|]. split; [done|].
      split; [done|]. right. by exists rest.
    + injection Hu as <-. exists "". rewrite str_app_nil_r.
      split; [done|]. split; [done|]. split; [done|]. split; [done|].
      split; [done|]. by left.
  - intros ds final Hrem Hin Hhead. rewrite (Hfile ds Hrem Hin). unfold _get_s3_url.
    rewrite Hhead. cbn [mbind Result_bind Py.bind].
    destruct (has_char "?" final) eqn:Hq; [|by eexists].
    destruct (index_spec _ _ Hq) as (i & rest & Hi & _). rewrite Hi. by eexists.
Qed.

(** ** File names and their entities *)

Lemma join_split c s : Py.join (String c "") (split c s) = s.
Proof.
  induction s as [|a s IH]; [done|]. cbn [split].
  pose proof (split_nonempty c s) as Hne.
  destruct (Ascii.eqb a c) eqn:Hac.
  - apply Ascii.eqb_eq in Hac as ->. destruct (split c s) as [|h t] eqn:Hs; [done|].
    change (Py.join (String c "") ("" :: h :: t))
      with ("" +:+ String c "" +:+ Py.join (String c "") (h :: t)).
    by rewrite IH.
  - destruct (split c s) as [|h t] eqn:Hs; [done|].
    destruct t as [|h' t].
    + simpl in IH. by rewrite IH.
    + change (Py.join (String c "") (String a h :: h' :: t))
        with (String a (h +:+ String c "" +:+ Py.join (String c "") (h' :: t))).
      f_equal. exact IH.
Qed.

Lemma keys_loop_foldl asdict attributes :
  ∃ d, SpimInfo.keys_loop asdict attributes = Ok d.
Proof.
  revert asdict. induction attributes as [|attr rest IH]; intros asdict; [by eexists|].
  cbn [SpimInfo.keys_loop]. unfold SpimInfo.keys_step.
  pose proof (split_nonempty "-" attr) as Hne.
  destruct (split "-" attr) as [|key [|v values]]; [done|..]; apply IH.
Qed.

Lemma keys_step_render asdict kv :
  entity_ok kv = true ->
  SpimInfo.keys_step asdict (render_attr kv) = Ok (<[kv.1 := kv.2]> asdict).
Proof.
  destruct kv as [k [v|]]; unfold entity_ok, render_attr, SpimInfo.keys_step; cbn [fst snd].
  - intros [[[Hk _]%andb_true_iff _]%andb_true_iff _]%andb_true_iff.
    apply negb_true_iff in Hk.
    change (k +:+ "-" +:+ v) with (k +:+ String "-" v).
    rewrite (split_app_sep "-" k v Hk).
    pose proof (split_nonempty "-" v) as Hne. pose proof (join_split "-" v) as Hj.
    destruct (split "-" v) as [|x l]; [done|]. by rewrite Hj.
  - intros [[[Hk _]%andb_true_iff _]%andb_true_iff _]%andb_true_iff.
    apply negb_true_iff in Hk. by rewrite (split_without_sep _ _ Hk).
Qed.

Lemma keys_loop_render asdict kvs :
  forallb entity_ok kvs = true ->
  SpimInfo.keys_loop asdict (render_attr <$> kvs)
  = Ok (foldl (fun d kv => <[kv.1 := kv.2]> d) asdict kvs).
Proof.
  revert asdict. induction kvs as [|kv kvs IH]; intros asdict; [done|].
  cbn [forallb]. intros [Hkv Hkvs]%andb_true_iff.
  cbn [fmap list_fmap SpimInfo.keys_loop]. fold (fmap (M:=list) render_attr kvs).
  rewrite (keys_step_render _ _ Hkv). cbn [mbind Result_bind Py.bind foldl].
  by apply IH.
Qed.

Lemma foldl_insert_map (kvs : list (string * option string)) (d : gmap string (option string)) :
  foldl (fun d kv => <[kv.1 := kv.2]> d) d kvs = list_to_map (reverse kvs) ∪ d.
Proof.
  revert d. induction kvs as [|[k v] kvs IH]; intros d.
  - cbn. by rewrite (left_id_L ∅ (∪)).
  - cbn [foldl]. rewrite IH, reverse_cons, list_to_map_app.
    rewrite list_to_map_cons, list_to_map_nil.
    rewrite (insert_union_singleton_l d), (insert_union_singleton_l ∅).
    by rewrite (right_id_L ∅ (∪)), (assoc_L (∪)).
Qed.

Lemma render_attr_no_sep kv c :
  has_char c kv.1 = false -> c ≠ "-"%char ->
  match kv.2 with Some v => has_char c v = false | None => True end ->
  has_char c (render_attr kv) = false.
Proof.
  destruct kv as [k [v|]]; unfold render_attr; cbn [fst snd]; [|done].
  intros Hk Hc Hv. rewrite !has_char_app, Hk, Hv. cbn [has_char orb].
  rewrite !orb_false_r. apply Ascii.eqb_neq. congruence.
Qed.

Lemma entity_ok_no_sep kv :
  entity_ok kv = true ->
  has_char "_" (render_attr kv) = false ∧ has_char "." (render_attr kv) = false.
Proof.
  unfold entity_ok.
  intros [[[_ Hu%negb_true_iff]%andb_true_iff Hd%negb_true_iff]%andb_true_iff Hv]%andb_true_iff.
  split; apply render_attr_no_sep; try done.
  - destruct (kv.2); [|done]. apply andb_true_iff in Hv as [Hv _]. by apply negb_true_iff.
  - destruct (kv.2); [|done]. apply andb_true_iff in Hv as [_ Hv]. by apply negb_true_iff.
Qed.

Lemma join_no_char c d l :
  c ≠ d -> Forall (fun x => has_char c x = false) l ->
  has_char c (Py.join (String d "") l) = false.
Proof.
  intros Hcd. induction 1 as [|x l Hx Hl IH]; [done|].
  destruct l as [|y l]; [done|].
  change (Py.join (String d "") (x :: y :: l))
    with (x +:+ String d "" +:+ Py.join (String d "") (y :: l)).
  rewrite !has_char_app, Hx, IH. cbn [has_char orb]. rewrite !orb_false_r.
  apply Ascii.eqb_neq. congruence.
Qed.

(** The first dot-separated piece of a rendered name followed by its
    extensions is the rendered name. *)
Lemma first_piece base rest :
  has_char "." base = false -> rest = "" ∨ (∃ r, rest = String "." r) ->
  item_first (split "." (base +:+ rest)) = Ok base.
Proof.
  intros Hb [-> | [r ->]].
  - by rewrite str_app_nil_r, split_without_sep.
  - by rewrite split_app_sep.
Qed.

(** ** Entities of a file name *)

(** X16.  [name_to_keys] never raises on a [str] or a path, and it reads
    back the entities of a name: when the name of the file is a sequence
    of entities joined by underscores (each a key, or a key and a value
    joined by a dash, keys without dash, underscore or dot, values without
    underscore or dot) followed by nothing or by extensions, the
    dictionary maps each key to its value, everything after the first
    dash, and the last entity wins when a key is repeated. *)
Theorem name_to_keys_reads_entities
    (p : RemotePath) (kvs : list (string * option string)) (rest : string) :
  (∀ s, ∃ d, SpimInfo.name_to_keys (ArgStr s) = Ok d) ∧
  (∃ d, SpimInfo.name_to_keys (ArgPath p) = Ok d) ∧
  (kvs ≠ [] -> forallb entity_ok kvs = true ->
   rest = "" ∨ (∃ r, rest = String "." r) ->
   name p = render_name kvs +:+ rest ->
   SpimInfo.name_to_keys (ArgPath p) = Ok (list_to_map (reverse kvs)) ∧
   (∀ k v, NoDup kvs.*1 -> (k, v) ∈ kvs ->
           (λ d : gmap string (option string), d !! k) <$> SpimInfo.name_to_keys (ArgPath p)
           = Ok (Some v))).
Proof.
  assert (∀ basename, ∃ d,
            (first ← item_first (split "." basename);
             SpimInfo.keys_loop ∅ (split "_" first)) = Ok d) as Htotal.
  { intros basename. pose proof (split_nonempty "." basename) as Hne.
    destruct (split "." basename) as [|first l]; [done|]. apply keys_loop_foldl. }
  split; [intros s; apply Htotal|]. split; [apply Htotal|].
  intros Hne Hok Hrest Hname.
  assert (SpimInfo.name_to_keys (ArgPath p) = Ok (list_to_map (reverse kvs))) as Hres.
  { unfold SpimInfo.name_to_keys. cbn [mbind Result_bind Py.bind]. rewrite Hname.
    assert (Forall (fun x => has_char "_" x = false) (render_attr <$> kvs) ∧
            Forall (fun x => has_char "." x = false) (render_attr <$> kvs)) as [Hu Hd].
    { rewrite forallb_forall in Hok.
      split; apply Forall_fmap, Forall_forall; intros kv Hkv%list_elem_of_In;
        apply Hok, entity_ok_no_sep in Hkv; by destruct Hkv. }
    rewrite first_piece; [|by apply join_no_char|done].
    cbn [mbind Result_bind Py.bind]. unfold render_name.
    rewrite split_join; [|by destruct kvs|done].
    rewrite (keys_loop_render _ _ Hok), foldl_insert_map. f_equal.
    by rewrite (right_id_L ∅ (∪)). }
  split; [done|]. intros k v Hnd Hin. rewrite Hres. cbn. f_equal.
  apply elem_of_list_to_map_1.
  - by rewrite fmap_reverse, reverse_Permutation.
  - by apply elem_of_reverse.
Qed.

Lemma name_to_keys_reads_entities_witness :
  SpimInfo.name_to_keys (ArgPath (dandi "sub-01/sub-01_sample-12a_stain-Neu-N_chunk-3.tar.h5" None))
  = Ok (list_to_map (reverse [("sub", Some "01"); ("sample", Some "12a");
                              ("stain", Some "Neu-N"); ("chunk", Some "3")])).
Proof.
  refine (proj1 (proj2 (proj2 (name_to_keys_reads_entities
            (dandi "sub-01/sub-01_sample-12a_stain-Neu-N_chunk-3.tar.h5" None)
            [("sub", Some "01"); ("sample", Some "12a"); ("stain", Some "Neu-N");
             ("chunk", Some "3")] ".tar.h5")) _ eq_refl _ eq_refl)).
  - discriminate.
  - right. by exists "tar.h5".
Defined.

(** ** The files of a chunk *)

Lemma split_pieces_no_char c d s :
  has_char d s = false -> Forall (fun x => has_char d x = false) (split c s).
Proof.
  induction s as [|a s IH]; [by repeat constructor|].
  cbn [has_char split]. intros [Ha Hs]%orb_false_iff. specialize (IH Hs).
  destruct (Ascii.eqb a c).
  - by constructor.
  - destruct (split c s) as [|h t]; [repeat constructor; cbn; by rewrite Ha|].
    inversion IH; subst. constructor; [|done]. cbn. by rewrite Ha.
Qed.

Lemma wf_segb_app st ext :
  st ≠ "" -> ext ≠ "" -> has_char Flavour.sep_char st = false ->
  has_char Flavour.sep_char ext = false -> wf_segb (st +:+ ext) = true.
Proof.
  intros Hst Hext Hc1 Hc2. apply wf_segb_spec. rewrite has_char_app, Hc1, Hc2.
  split; [by destruct st|]. split; [|done].
  destruct st as [|a st]; [done|]. rewrite str_app_cons.
  destruct st; [|done]. by destruct ext.
Qed.

Lemma with_last_name_parent p nm :
  name p ≠ "" ->
  name (with_last p nm) = nm ∧ parent (with_last p nm) = parent p ∧
  remote (with_last p nm) = remote p ∧ pathcls (with_last p nm) = pathcls p.
Proof.
  intros Hn. destruct (replace_last_name_parent p nm Hn) as [H1 H2]. done.
Qed.

Lemma with_last_wf p nm :
  wf_path p -> name p ≠ "" -> wf_segb nm = true -> wf_path (with_last p nm).
Proof.
  intros Hwf Hn Hnm. unfold wf_path, with_last. cbn [_drv _root _parts].
  rewrite slice_to_last. by apply wf_replace_last.
Qed.

Lemma with_last_own_name p : name p ≠ "" -> with_last p (name p) = p.
Proof.
  intros Hn. destruct (name_last p Hn) as [Hlast _]. unfold with_last.
  by rewrite slice_to_last, (take_init_last _ _ Hlast), path_eta.
Qed.

Lemma slice_to_last_snoc {A} (l : list A) x : Py.slice_to (l ++ [x]) (-1) = l.
Proof.
  rewrite slice_to_last, length_app. simpl.
  replace (length l + 1 - 1) with (length l) by lia. by rewrite take_app_length.
Qed.

Lemma with_last_twice p a b : name p ≠ "" -> with_last (with_last p a) b = with_last p b.
Proof.
  intros Hn. destruct (name_last p Hn) as [Hlast _].
  apply last_Some in Hlast as [l' Hl]. unfold with_last. cbn [_drv _root _parts pathcls remote].
  by rewrite Hl, !slice_to_last_snoc.
Qed.

Lemma stem_suffix_with_last p st ext :
  name p ≠ "" -> st ≠ "" -> ext ≠ "" -> has_char "." ext = false ->
  stem (with_last p (st +:+ String "." ext)) = st ∧
  suffix (with_last p (st +:+ String "." ext)) = String "." ext.
Proof.
  intros Hn Hst Hext Hc.
  destruct (with_last_name_parent p (st +:+ String "." ext) Hn) as [Hname _].
  destruct (has_suffix_at_app st ext Hst Hext Hc) as [Hat Hr].
  rewrite stem_unfold, suffix_unfold, Hname, Hat, Hr, Nat2Z.id.
  by rewrite str_take_app, str_drop_app.
Qed.

(** A sibling of a well-formed [DandiPath] that has a name: the path with
    its last part replaced, bound to the same handle. *)
Lemma sibling_ok cls path nm :
  wf_path path -> pathcls path = ClsDandiPath -> name path ≠ "" -> wf_segb nm = true ->
  SpimInfo.sibling cls path nm = Ok (with_last path nm).
Proof.
  intros Hwf Hcls Hn Hnm. unfold SpimInfo.sibling.
  assert (construct cls [ArgPath (parent path); ArgStr nm]
          = Ok (set_remote (with_last path nm) None)) as ->.
  { assert (construct cls [ArgPath (parent path); ArgStr nm]
            = RemotePath__new__ cls [ArgPath (parent path); ArgStr nm] None) as ->
      by by destruct cls.
    unfold RemotePath__new__, _from_parts, _parse_args_with_remote. cbn [collect_args app].
    cbn [mbind Result_bind Py.bind].
    destruct (name_last path Hn) as [Hlast Hlen].
    assert (parent path = mkPath (pathcls path) (_drv path) (_root path)
                            (Py.slice_to (_parts path) (-1)) (remote path)) as Hparent.
    { unfold parent. unfold anchored in Hlen.
      destruct (truthy (_drv path) || truthy (_root path)); [|by rewrite andb_false_r].
      apply Nat.eqb_neq in Hlen. by rewrite Hlen. }
    rewrite Hparent. cbn [_parts remote].
    pose proof (with_last_wf path nm Hwf Hn Hnm) as Hwf'. unfold wf_path, with_last in Hwf'.
    cbn [_drv _root _parts] in Hwf'. rewrite (parse_parts_id _ _ _ Hwf').
    cbn [mbind Result_bind Py.bind]. unfold set_remote, with_last. cbn. by rewrite Hcls. }
  cbn [mbind Result_bind Py.bind]. rewrite Hcls, bool_decide_eq_true_2 by done.
  unfold set_remote, with_last. done.
Qed.

Lemma suffix_has_name p : suffix p ≠ "" -> name p ≠ "".
Proof.
  intros Hs Hn. apply Hs. pose proof (stem_suffix p) as H. rewrite Hn in H.
  destruct (stem p); [done|]. done.
Qed.

Lemma basepath_no_sep st :
  has_char Flavour.sep_char st = false -> has_char Flavour.sep_char (basepath_of st) = false.
Proof.
  intros Hc. unfold basepath_of. apply join_no_char; [done|].
  rewrite slice_to_last. apply Forall_take. by apply split_pieces_no_char.
Qed.

Lemma chunk_files_spec path :
  wf_path path -> pathcls path = ClsDandiPath ->
  suffix path = ".h5" ∨ suffix path = ".json" ->
  SpimInfo.chunk_files path
  = Ok (with_last path (stem path +:+ ".h5"), with_last path (stem path +:+ ".json"),
        with_last path (basepath_of (stem path) +:+ "_transforms.json")).
Proof.
  intros Hwf Hcls Hsuf.
  assert (name path ≠ "") as Hn
    by (apply suffix_has_name; destruct Hsuf as [-> | ->]; done).
  pose proof (wf_name_seg path Hwf Hn) as (_ & _ & Hc)%wf_segb_spec.
  pose proof (stem_suffix path) as Hss. rewrite <- Hss, has_char_app in Hc.
  apply orb_false_iff in Hc as [Hcst _].
  pose proof (stem_nonempty path Hn) as Hst.
  assert (wf_segb (stem path +:+ ".h5") = true) as Hh5 by by apply wf_segb_app.
  assert (wf_segb (stem path +:+ ".json") = true) as Hjson by by apply wf_segb_app.
  assert (wf_segb (basepath_of (stem path) +:+ "_transforms.json") = true) as Htrf.
  { apply wf_segb_spec. rewrite has_char_app, (basepath_no_sep _ Hcst).
    split; [by destruct (basepath_of (stem path))|]. split; [|done].
    destruct (basepath_of (stem path)) as [|a [|b s]]; done. }
  unfold SpimInfo.chunk_files. fold (basepath_of (stem path)).
  destruct Hsuf as [Hsuf|Hsuf]; rewrite Hsuf.
  - rewrite bool_decide_eq_true_2 by set_solver. cbn [negb].
    change ((".h5" =? ".h5")%string) with true. cbv iota.
    rewrite (sibling_ok _ _ _ Hwf Hcls Hn Hjson). cbn [mbind Result_bind Py.bind].
    rewrite (sibling_ok _ _ _ Hwf Hcls Hn Htrf). cbn [mbind Result_bind Py.bind].
    rewrite <- Hsuf at 1. rewrite Hss, (with_last_own_name _ Hn). done.
  - rewrite bool_decide_eq_true_2 by set_solver. cbn [negb].
    change ((".json" =? ".h5")%string) with false. cbv iota.
    rewrite (sibling_ok _ _ _ Hwf Hcls Hn Hh5). cbn [mbind Result_bind Py.bind].
    rewrite (sibling_ok _ _ _ Hwf Hcls Hn Htrf). cbn [mbind Result_bind Py.bind].
    rewrite <- Hsuf at 2. rewrite Hss, (with_last_own_name _ Hn). done.
Qed.

(** ** The files of a chunk *)

(** X17.  [chunk_info] accepts the data file of a chunk or its JSON
    sidecar and looks at the same three files either way.  For a
    well-formed [DandiPath]: a suffix other than [.h5] and [.json] is
    refused with a [ValueError]; otherwise the data file and the sidecar
    are the path with its suffix changed to [.h5] and to [.json] (as
    [with_suffix] does it), the given path is one of the two, the
    transforms file is a sibling, all three are well-formed and carry the
    handle of the path, and starting from the data file or from the
    sidecar gives the same three files. *)
Theorem chunk_files_same_from_either (path : RemotePath) :
  wf_path path -> pathcls path = ClsDandiPath ->
  (suffix path ≠ ".h5" -> suffix path ≠ ".json" ->
   SpimInfo.chunk_files path = Raise (ValueError "Expected h5 or json file")) ∧
  (∀ h5path jsonpath trfpath,
     SpimInfo.chunk_files path = Ok (h5path, jsonpath, trfpath) ->
     (path = h5path ∨ path = jsonpath) ∧
     with_suffix path ".h5" = Ok h5path ∧ with_suffix path ".json" = Ok jsonpath ∧
     SpimInfo.chunk_files h5path = Ok (h5path, jsonpath, trfpath) ∧
     SpimInfo.chunk_files jsonpath = Ok (h5path, jsonpath, trfpath) ∧
     Forall (fun q => wf_path q ∧ remote q = remote path ∧ parent q = parent path)
       [h5path; jsonpath; trfpath]).
Proof.
  intros Hwf Hcls. split.
  - intros H1 H2. unfold SpimInfo.chunk_files.
    rewrite bool_decide_eq_false_2; [done|]. set_solver.
  - intros h j t Hfiles.
    assert (suffix path = ".h5" ∨ suffix path = ".json") as Hsuf.
    { unfold SpimInfo.chunk_files in Hfiles.
      destruct (bool_decide (suffix path ∈ [".h5"; ".json"])) eqn:Hin; [|done].
      apply bool_decide_eq_true in Hin. set_solver. }
    rewrite (chunk_files_spec path Hwf Hcls Hsuf) in Hfiles. injection Hfiles as <- <- <-.
    assert (name path ≠ "") as Hn
      by (apply suffix_has_name; destruct Hsuf as [-> | ->]; done).
    pose proof (wf_name_seg path Hwf Hn) as (_ & _ & Hc)%wf_segb_spec.
    pose proof (stem_suffix path) as Hss. rewrite <- Hss, has_char_app in Hc.
    apply orb_false_iff in Hc as [Hcst _].
    pose proof (stem_nonempty path Hn) as Hst.
    assert (wf_segb (stem path +:+ ".h5") = true) as Hh5 by by apply wf_segb_app.
    assert (wf_segb (stem path +:+ ".json") = true) as Hjson by by apply wf_segb_app.
    assert (wf_segb (basepath_of (stem path) +:+ "_transforms.json") = true) as Htrf.
    { apply wf_segb_spec. rewrite has_char_app, (basepath_no_sep _ Hcst).
      split; [by destruct (basepath_of (stem path))|]. split; [|done].
      destruct (basepath_of (stem path)) as [|a [|b s]]; done. }
    assert (∀ ext, ext = "h5" ∨ ext = "json" ->
              SpimInfo.chunk_files (with_last path (stem path +:+ String "." ext))
              = Ok (with_last path (stem path +:+ ".h5"),
                    with_last path (stem path +:+ ".json"),
                    with_last path (basepath_of (stem path) +:+ "_transforms.json")))
      as Hagain.
    { intros ext Hext.
      assert (ext ≠ "" ∧ has_char "." ext = false ∧
              wf_segb (stem path +:+ String "." ext) = true) as (Hne & Hnd & Hseg)
        by (destruct Hext as [-> | ->]; done).
      destruct (stem_suffix_with_last path (stem path) ext Hn Hst Hne Hnd) as [Hstem Hsuffix].
      destruct (with_last_name_parent path (stem path +:+ String "." ext) Hn)
        as (Hname & _ & _ & Hcls').
      rewrite chunk_files_spec;
        [|by apply with_last_wf|by rewrite Hcls'|
         rewrite Hsuffix; destruct Hext as [-> | ->]; [by left|by right]].
      assert (name (with_last path (stem path +:+ String "." ext)) ≠ "") as Hn'
        by (rewrite Hname; by destruct (stem path)).
      by rewrite Hstem, !(with_last_twice _ _ _ Hn). }
    split; [|split; [|split; [|split; [|split]]]].
    + destruct Hsuf as [Hsuf|Hsuf]; [left|right];
        by rewrite <- Hsuf, Hss, (with_last_own_name _ Hn).
    + rewrite with_suffix_unfold. apply truthy_true in Hn. by rewrite Hn.
    + rewrite with_suffix_unfold. apply truthy_true in Hn. by rewrite Hn.
    + apply (Hagain "h5"). by left.
    + apply (Hagain "json"). by right.
    + assert (∀ nm, wf_segb nm = true ->
                wf_path (with_last path nm) ∧ remote (with_last path nm) = remote path ∧
                parent (with_last path nm) = parent path) as Hq.
      { intros nm Hnm. split; [by apply with_last_wf|].
        by destruct (with_last_name_parent path nm Hn) as (_ & ? & ? & _). }
      constructor; [by apply Hq|]. constructor; [by apply Hq|].
      constructor; [by apply Hq|]. constructor.
Qed.

Lemma chunk_files_same_from_either_witness :
  (dandi "sub-01/sub-01_sample-12_chunk-3.json" (Some store_sub01)
   = dandi "sub-01/sub-01_sample-12_chunk-3.h5" (Some store_sub01) ∨
   dandi "sub-01/sub-01_sample-12_chunk-3.json" (Some store_sub01)
   = dandi "sub-01/sub-01_sample-12_chunk-3.json" (Some store_sub01)) ∧
  with_suffix (dandi "sub-01/sub-01_sample-12_chunk-3.json" (Some store_sub01)) ".h5"
  = Ok (dandi "sub-01/sub-01_sample-12_chunk-3.h5" (Some store_sub01)) ∧
  with_suffix (dandi "sub-01/sub-01_sample-12_chunk-3.json" (Some store_sub01)) ".json"
  = Ok (dandi "sub-01/sub-01_sample-12_chunk-3.json" (Some store_sub01)) ∧
  SpimInfo.chunk_files (dandi "sub-01/sub-01_sample-12_chunk-3.h5" (Some store_sub01))
  = Ok (dandi "sub-01/sub-01_sample-12_chunk-3.h5" (Some store_sub01),
        dandi "sub-01/sub-01_sample-12_chunk-3.json" (Some store_sub01),
        dandi "sub-01/sub-01_sample-12_transforms.json" (Some store_sub01)) ∧
  SpimInfo.chunk_files (dandi "sub-01/sub-01_sample-12_chunk-3.json" (Some store_sub01))
  = Ok (dandi "sub-01/sub-01_sample-12_chunk-3.h5" (Some store_sub01),
        dandi "sub-01/sub-01_sample-12_chunk-3.json" (Some store_sub01),
        dandi "sub-01/sub-01_sample-12_transforms.json" (Some store_sub01)) ∧
  Forall (fun q => wf_path q ∧ remote q = Some store_sub01 ∧
                   parent q = dandi "sub-01" (Some store_sub01))
    [dandi "sub-01/sub-01_sample-12_chunk-3.h5" (Some store_sub01);
     dandi "sub-01/sub-01_sample-12_chunk-3.json" (Some store_sub01);
     dandi "sub-01/sub-01_sample-12_transforms.json" (Some store_sub01)].
Proof.
  exact (proj2 (chunk_files_same_from_either
                  (dandi "sub-01/sub-01_sample-12_chunk-3.json" (Some store_sub01))
                  eq_refl eq_refl)
           (dandi "sub-01/sub-01_sample-12_chunk-3.h5" (Some store_sub01))
           (dandi "sub-01/sub-01_sample-12_chunk-3.json" (Some store_sub01))
           (dandi "sub-01/sub-01_sample-12_transforms.json" (Some store_sub01))
           eq_refl).
Defined.

(** ** The bookkeeping of [slab_info] *)

Section SlabChecks.

Context {num : Type}.
Variable of_int : Z -> num.
Variable zero : num.
Variable add sub : num -> num -> num.
Variable ltb eqb : num -> num -> bool.

#[local] Abbreviation loop_body := (SpimInfo.loop_body of_int zero add ltb eqb).
#[local] Abbreviation loop := (SpimInfo.loop of_int zero add ltb eqb).
#[local] Abbreviation slab_info := (SpimInfo.slab_info of_int zero add sub ltb eqb).

#[local] Abbreviation agree := (@chunks_agree num).

Lemma loop_body_spec st c st' :
  loop_body st c = Ok st' ->
  SpimInfo.MetaChunks (SpimInfo.st_info st') = SpimInfo.MetaChunks (SpimInfo.st_info st) ++ [c] ∧
  SpimInfo.Subject _ (SpimInfo.st_info st') = SpimInfo.ci_Subject c ∧
  SpimInfo.SlabIndex _ (SpimInfo.st_info st') = SpimInfo.ci_SlabIndex c ∧
  SpimInfo.Shape _ (SpimInfo.st_info st') = SpimInfo.ci_Shape c ∧
  SpimInfo.st_stainings st' = SpimInfo.st_stainings st ++ [SpimInfo.ci_SampleStaining c] ∧
  (∃ chunk, SpimInfo.ci_Chunk c = Some chunk ∧
            SpimInfo.st_chunks st' = SpimInfo.st_chunks st ++ [chunk]) ∧
  is_Some (SpimInfo.ci_Shape c) ∧
  (SpimInfo.truthy_str (SpimInfo.Subject _ (SpimInfo.st_info st)) = true ->
   SpimInfo.ci_Subject c = SpimInfo.Subject _ (SpimInfo.st_info st)) ∧
  (SpimInfo.truthy_int (SpimInfo.SlabIndex _ (SpimInfo.st_info st)) = true ->
   SpimInfo.ci_SlabIndex c = SpimInfo.SlabIndex _ (SpimInfo.st_info st)) ∧
  (SpimInfo.truthy_list (SpimInfo.Shape _ (SpimInfo.st_info st)) = true ->
   SpimInfo.ci_Shape c = SpimInfo.Shape _ (SpimInfo.st_info st)).
Proof.
  unfold SpimInfo.loop_body.
  destruct (SpimInfo.truthy_str _ && _) eqn:H1; [done|].
  destruct (SpimInfo.truthy_int _ && _) eqn:H2; [done|].
  destruct (_ && negb (SpimInfo.pixel_size_eqb _ _ _)) eqn:H3; [done|].
  destruct (SpimInfo.truthy_list (SpimInfo.Shape _ _) && _) eqn:H4; [done|].
  destruct (SpimInfo.chunk_corners of_int zero add c) as [[mn1 mx1]|e] eqn:Hc; [|done].
  cbn [mbind Result_bind Py.bind].
  destruct (SpimInfo.ci_Chunk c) as [chunk|] eqn:Hchunk; [|done].
  intros [= <-]. cbn.
  split; [done|]. split; [done|]. split; [done|]. split; [done|]. split; [done|].
  split; [by exists chunk|]. split.
  { unfold SpimInfo.chunk_corners in Hc. by destruct (SpimInfo.ci_Shape c). }
  split; [|split].
  - intros Ht. rewrite Ht in H1. cbn in H1. apply negb_false_iff in H1.
    by apply bool_decide_eq_true in H1.
  - intros Ht. rewrite Ht in H2. cbn in H2. apply negb_false_iff in H2.
    by apply bool_decide_eq_true in H2.
  - intros Ht. rewrite Ht in H4. cbn in H4. apply negb_false_iff in H4.
    by apply bool_decide_eq_true in H4.
Qed.

Lemma loop_spec st h5files st' :
  loop st h5files = Ok st' ->
  SpimInfo.MetaChunks (SpimInfo.st_info st')
  = SpimInfo.MetaChunks (SpimInfo.st_info st) ++ h5files ∧
  SpimInfo.st_stainings st'
  = SpimInfo.st_stainings st ++ (SpimInfo.ci_SampleStaining <$> h5files) ∧
  SpimInfo.st_chunks st' = SpimInfo.st_chunks st ++ omap SpimInfo.ci_Chunk h5files ∧
  Forall (fun c => is_Some (SpimInfo.ci_Chunk c) ∧ is_Some (SpimInfo.ci_Shape c)) h5files ∧
  match last h5files with
  | Some c =>
      SpimInfo.Subject _ (SpimInfo.st_info st') = SpimInfo.ci_Subject c ∧
      SpimInfo.SlabIndex _ (SpimInfo.st_info st') = SpimInfo.ci_SlabIndex c ∧
      SpimInfo.Shape _ (SpimInfo.st_info st') = SpimInfo.ci_Shape c
  | None => st' = st
  end ∧
  (∀ c, head h5files = Some c ->
        (SpimInfo.truthy_str (SpimInfo.Subject _ (SpimInfo.st_info st)) = true ->
         SpimInfo.ci_Subject c = SpimInfo.Subject _ (SpimInfo.st_info st)) ∧
        (SpimInfo.truthy_int (SpimInfo.SlabIndex _ (SpimInfo.st_info st)) = true ->
         SpimInfo.ci_SlabIndex c = SpimInfo.SlabIndex _ (SpimInfo.st_info st)) ∧
        (SpimInfo.truthy_list (SpimInfo.Shape _ (SpimInfo.st_info st)) = true ->
         SpimInfo.ci_Shape c = SpimInfo.Shape _ (SpimInfo.st_info st))) ∧
  (∀ i a b, h5files !! i = Some a -> h5files !! S i = Some b -> agree a b).
Proof.
  revert st. induction h5files as [|c rest IH]; intros st.
  - cbn. intros [= <-]. rewrite !app_nil_r. repeat split; try done.
  - cbn [SpimInfo.loop]. destruct (loop_body st c) as [st1|e] eqn:Hbody; [|done].
    cbn [mbind Result_bind Py.bind]. intros Hloop.
    apply loop_body_spec in Hbody
      as (Hm & Hsub & Hslab & Hshape & Hst & (chunk & Hchunk & Hch) & Hsh & Hc1 & Hc2 & Hc3).
    apply IH in Hloop as (Hm' & Hst' & Hch' & Hall & Hlast & Hhead & Hadj).
    split; [by rewrite Hm', Hm, <- app_assoc|].
    split; [by rewrite Hst', Hst, <- app_assoc|].
    split; [cbn [omap list_omap]; rewrite Hchunk, Hch', Hch; by rewrite <- app_assoc|].
    split; [constructor; [by rewrite Hchunk|done]|].
    split; [|split].
    + destruct rest as [|c' rest']; [cbn in Hlast |- *; by subst|].
      change (last (c :: c' :: rest')) with (last (c' :: rest')).
      destruct (last (c' :: rest')) eqn:Hl; [exact Hlast|by apply last_None in Hl].
    + intros c0 [= <-]. done.
    + intros [|i] a b; cbn.
      * intros [= <-] Hb. destruct rest as [|c' rest']; [done|]. cbn in Hb.
        injection Hb as <-. specialize (Hhead c' eq_refl).
        rewrite Hsub, Hslab, Hshape in Hhead. exact Hhead.
      * apply Hadj.
Qed.

Lemma agree_all (h5files : list (SpimInfo.ChunkInfo num)) c0 :
  (∀ i a b, h5files !! i = Some a -> h5files !! S i = Some b -> agree a b) ->
  head h5files = Some c0 ->
  (SpimInfo.truthy_str (SpimInfo.ci_Subject c0) = true ->
   Forall (fun c => SpimInfo.ci_Subject c = SpimInfo.ci_Subject c0) h5files) ∧
  (SpimInfo.truthy_int (SpimInfo.ci_SlabIndex c0) = true ->
   Forall (fun c => SpimInfo.ci_SlabIndex c = SpimInfo.ci_SlabIndex c0) h5files) ∧
  (SpimInfo.truthy_list (SpimInfo.ci_Shape c0) = true ->
   Forall (fun c => SpimInfo.ci_Shape c = SpimInfo.ci_Shape c0) h5files).
Proof.
  revert c0. induction h5files as [|c rest IH]; intros c0 Hadj; [done|].
  intros [= <-].
  assert (∀ i a b, rest !! i = Some a -> rest !! S i = Some b -> agree a b) as Hadj'
    by (intros i a b; apply (Hadj (S i))).
  destruct rest as [|c' rest'].
  - repeat split; intros _; by repeat constructor.
  - destruct (Hadj 0 c c' eq_refl eq_refl) as (H1 & H2 & H3).
    destruct (IH c' Hadj' eq_refl) as (I1 & I2 & I3).
    repeat split; intros Ht; (constructor; [done|]).
    + specialize (H1 Ht). rewrite <- H1. apply I1. by rewrite H1.
    + specialize (H2 Ht). rewrite <- H2. apply I2. by rewrite H2.
    + specialize (H3 Ht). rewrite <- H3. apply I3. by rewrite H3.
Qed.


Lemma slab_info_unfold h5files info :
  slab_info h5files = Ok info ->
  ∃ st fov, loop SpimInfo.initial h5files = Ok st ∧
            SpimInfo.fov_of sub (SpimInfo.st_mx st) (SpimInfo.st_mn st) = Ok fov ∧
            info = SpimInfo.mkSlabInfo num (list_to_set (SpimInfo.st_stainings st))
                     (list_to_set (SpimInfo.st_chunks st))
                     (SpimInfo.SlabIndex _ (SpimInfo.st_info st))
                     (SpimInfo.Subject _ (SpimInfo.st_info st))
                     (SpimInfo.PixelSize _ (SpimInfo.st_info st))
                     (SpimInfo.Shape _ (SpimInfo.st_info st))
                     fov (SpimInfo.MetaChunks (SpimInfo.st_info st)).
Proof.
  unfold SpimInfo.slab_info.
  destruct (loop SpimInfo.initial h5files) as [st|e]; [|done].
  cbn [mbind Result_bind Py.bind].
  destruct (SpimInfo.fov_of sub _ _) as [fov|e] eqn:Hfov; [|done].
  cbn [mbind Result_bind Py.bind]. intros [= <-]. by exists st, fov.
Qed.

(** A bound that every step of the accumulation keeps is a bound of what
    the accumulation ends with. *)
Lemma fold_accumulate_bound (R : num -> num -> Prop) (f : num -> num -> num) :
  (∀ x, R x x) -> (∀ x y z, R x y -> R y z -> R x z) ->
  (∀ a y, R a (f a y) ∧ R y (f a y)) ->
  ∀ (cs : list (list num)) (acc : list (option num)) i v,
    fold_left (SpimInfo.accumulate f) cs acc !! i = Some (Some v) ->
    (∀ a0, acc !! i = Some (Some a0) -> R a0 v) ∧
    (∀ c x, c ∈ cs -> c !! i = Some x -> R x v).
Proof.
  intros Hrefl Htrans Hf. induction cs as [|c cs IH]; intros acc i v; cbn [fold_left].
  - intros Hv. split.
    + intros a0 Ha. rewrite Ha in Hv. injection Hv as ->. apply Hrefl.
    + by intros c x ?%elem_of_nil.
  - intros Hv. destruct (IH _ _ _ Hv) as [Hacc Hrest].
    rewrite accumulate_lookup in Hacc.
    assert (is_Some (SpimInfo.accumulate f acc c !! i)) as [w Hw].
    { apply fold_accumulate_lookup in Hv.
      destruct (SpimInfo.accumulate f acc c !! i) as [[?|]|]; [by eexists..|done]. }
    rewrite accumulate_lookup in Hw.
    destruct (acc !! i) as [[a|]|] eqn:Hai; destruct (c !! i) as [y|] eqn:Hci; try done.
    + specialize (Hacc _ eq_refl). destruct (Hf a y) as [Ha Hy]. split.
      * intros a0 [= <-]. by eapply Htrans.
      * intros c' x [-> | Hin]%elem_of_cons Hx; [|by eapply Hrest].
        rewrite Hci in Hx. injection Hx as <-. by eapply Htrans.
    + specialize (Hacc _ eq_refl). split; [done|].
      intros c' x [-> | Hin]%elem_of_cons Hx; [|by eapply Hrest].
      rewrite Hci in Hx. by injection Hx as <-.
Qed.

End SlabChecks.

(** ** What [slab_info] returns *)

Section SlabProps.

Context {num : Type}.
Variable of_int : Z -> num.
Variable zero : num.
Variable add sub : num -> num -> num.
Variable ltb eqb : num -> num -> bool.

#[local] Abbreviation chunk_corners := (SpimInfo.chunk_corners of_int zero add).
#[local] Abbreviation py_min := (SpimInfo.py_min ltb).
#[local] Abbreviation py_max := (SpimInfo.py_max ltb).
#[local] Abbreviation slab_info := (SpimInfo.slab_info of_int zero add sub ltb eqb).

(** X18.  [slab_info] keeps every chunk: on a folder without chunk it
    raises the [TypeError] of subtracting [None] from [None]; when it
    succeeds the folder has at least one chunk, [MetaChunks] is the list
    of the chunks in iteration order, [Stainings] and [Chunks] are the
    sets of their stainings and chunk labels (every chunk has a label and
    a shape), and [Subject], [SlabIndex] and [Shape] are those of the
    chunk iterated last. *)
Theorem slab_info_keeps_every_chunk (h5files : list (SpimInfo.ChunkInfo num)) :
  slab_info []
  = Raise (TypeError "unsupported operand type(s) for -: 'NoneType' and 'NoneType'") ∧
  (∀ info, slab_info h5files = Ok info ->
     h5files ≠ [] ∧ SpimInfo.MetaChunks info = h5files ∧
     SpimInfo.Stainings _ info = list_to_set (SpimInfo.ci_SampleStaining <$> h5files) ∧
     SpimInfo.Chunks _ info = list_to_set (omap SpimInfo.ci_Chunk h5files) ∧
     Forall (fun c => is_Some (SpimInfo.ci_Chunk c) ∧ is_Some (SpimInfo.ci_Shape c)) h5files ∧
     ∃ c, last h5files = Some c ∧
          SpimInfo.Subject _ info = SpimInfo.ci_Subject c ∧
          SpimInfo.SlabIndex _ info = SpimInfo.ci_SlabIndex c ∧
          SpimInfo.Shape _ info = SpimInfo.ci_Shape c).
Proof.
  split; [done|]. intros info Hinfo.
  assert (h5files ≠ []) as Hne by (intros ->; done).
  apply slab_info_unfold in Hinfo as (st & fov & Hloop & _ & ->).
  apply loop_spec in Hloop as (Hm & Hst & Hch & Hall & Hlast & _).
  cbn. split; [done|]. split; [done|]. split; [by rewrite Hst|]. split; [by rewrite Hch|].
  split; [done|].
  destruct (last h5files) as [c|] eqn:Hl; [by exists c|]. by apply last_None in Hl.
Qed.

(** X19.  [slab_info] checks one chunk against the one before it: when it
    succeeds, a chunk whose subject is set (not [None] and not empty) is
    followed by a chunk of the same subject, and likewise for a slab index
    that is set (not [None] and not 0) and for a shape that is set (not
    [None] and not the empty tuple).  So when the subject, the slab index
    or the shape of the first chunk is set, every chunk of the folder has
    that one, and it is the one returned. *)
Theorem slab_info_checks_neighbours
    (h5files : list (SpimInfo.ChunkInfo num)) (info : SpimInfo.SlabInfo num) :
  slab_info h5files = Ok info ->
  (∀ i a b, h5files !! i = Some a -> h5files !! S i = Some b -> chunks_agree a b) ∧
  ∃ c0, head h5files = Some c0 ∧
        (SpimInfo.truthy_str (SpimInfo.ci_Subject c0) = true ->
         Forall (fun c => SpimInfo.ci_Subject c = SpimInfo.ci_Subject c0) h5files ∧
         SpimInfo.Subject _ info = SpimInfo.ci_Subject c0) ∧
        (SpimInfo.truthy_int (SpimInfo.ci_SlabIndex c0) = true ->
         Forall (fun c => SpimInfo.ci_SlabIndex c = SpimInfo.ci_SlabIndex c0) h5files ∧
         SpimInfo.SlabIndex _ info = SpimInfo.ci_SlabIndex c0) ∧
        (SpimInfo.truthy_list (SpimInfo.ci_Shape c0) = true ->
         Forall (fun c => SpimInfo.ci_Shape c = SpimInfo.ci_Shape c0) h5files ∧
         SpimInfo.Shape _ info = SpimInfo.ci_Shape c0).
Proof.
  intros Hinfo.
  assert (h5files ≠ []) as Hne by (intros ->; done).
  apply slab_info_unfold in Hinfo as (st & fov & Hloop & _ & ->).
  apply loop_spec in Hloop as (_ & _ & _ & _ & Hlast & _ & Hadj).
  split; [done|].
  destruct h5files as [|c0 rest] eqn:Hfiles; [done|]. rewrite <- Hfiles in *.
  assert (head h5files = Some c0) as Hhead by by rewrite Hfiles.
  exists c0. split; [done|].
  destruct (agree_all h5files c0 Hadj Hhead) as (H1 & H2 & H3).
  destruct (last h5files) as [c|] eqn:Hl; [|by apply last_None in Hl].
  destruct Hlast as (L1 & L2 & L3).
  assert (c ∈ h5files) as Hc by (apply last_Some in Hl as [l' ->]; set_solver).
  cbn [SpimInfo.Subject SpimInfo.SlabIndex SpimInfo.Shape].
  split; [|split]; intros Ht.
  - specialize (H1 Ht). split; [done|]. rewrite L1. rewrite Forall_forall in H1. by apply H1.
  - specialize (H2 Ht). split; [done|]. rewrite L2. rewrite Forall_forall in H2. by apply H2.
  - specialize (H3 Ht). split; [done|]. rewrite L3. rewrite Forall_forall in H3. by apply H3.
Qed.

(** The order of the numbers: [<] is irreflexive and asymmetric, [<=] is
    transitive, and subtraction is monotone. *)
Hypothesis ltb_irrefl : ∀ x, ltb x x = false.
Hypothesis ltb_asym : ∀ x y, ltb x y = true -> ltb y x = false.
Hypothesis le_trans : ∀ x y z, ltb y x = false -> ltb z y = false -> ltb z x = false.
Hypothesis sub_mono :
  ∀ a a' b b', ltb a' a = false -> ltb b b' = false -> ltb (sub a' b') (sub a b) = false.

(** X20.  The field of view covers every chunk: when comparison is a
    strict order without incomparable values and subtraction is monotone,
    each entry of [FOV] is at least the extent of every chunk of the
    folder along that axis (its upper corner minus its lower corner, shift
    included). *)
Theorem fov_covers_every_chunk
    (h5files : list (SpimInfo.ChunkInfo num)) (fov : list num)
    (c : SpimInfo.ChunkInfo num) (mn1 mx1 : list num) (i : nat) (v lo hi : num) :
  SpimInfo.FOV <$> slab_info h5files = Ok fov ->
  c ∈ h5files -> chunk_corners c = Ok (mn1, mx1) ->
  fov !! i = Some v -> mn1 !! i = Some lo -> mx1 !! i = Some hi ->
  ltb v (sub hi lo) = false.
Proof.
  intros Hfov Hc Hcorners Hv Hlo Hhi.
  destruct (slab_info h5files) as [info|e] eqn:Hinfo; [|done].
  cbn in Hfov. injection Hfov as <-.
  apply slab_info_unfold in Hinfo as (st & fov & Hloop & Hfov & ->). cbn in Hv.
  destruct (fov_of_lookup _ _ _ _ _ _ Hfov Hv) as (a & b & Ha & Hb & ->).
  apply loop_accumulates in Hloop as (corners & Hall & Hmn & Hmx).
  rewrite Hmx in Ha. rewrite Hmn in Hb.
  assert ((mn1, mx1) ∈ corners) as Hin.
  { apply list_elem_of_lookup in Hc as [k Hk].
    destruct (Forall2_lookup_l _ _ _ _ _ Hall Hk) as (cc & Hcc & Heq).
    rewrite Hcorners in Heq. injection Heq as <-. by eapply list_elem_of_lookup_2. }
  apply sub_mono.
  - apply (fold_accumulate_bound (fun x v => ltb v x = false) py_max) in Ha as [_ Ha].
    + apply (Ha mx1 hi); [|done]. apply list_elem_of_fmap. by exists (mn1, mx1).
    + done.
    + intros x y z. apply le_trans.
    + intros x y. unfold SpimInfo.py_max. destruct (ltb x y) eqn:Hxy; auto.
  - apply (fold_accumulate_bound (fun x v => ltb x v = false) py_min) in Hb as [_ Hb].
    + apply (Hb mn1 lo); [|done]. apply list_elem_of_fmap. by exists (mn1, mx1).
    + done.
    + intros x y z H1 H2. by apply (le_trans z y x).
    + intros x y. unfold SpimInfo.py_min. destruct (ltb y x) eqn:Hxy; auto.
Qed.

End SlabProps.

Lemma slab_info_checks_neighbours_witness :
  Forall (fun c => SpimInfo.ci_Subject c = Some "01") [SpimInfo.chunk_a; SpimInfo.chunk_b].
Proof.
  destruct (SpimInfo.slab_info_Z [SpimInfo.chunk_a; SpimInfo.chunk_b]) as [info|e] eqn:Hinfo.
  - destruct (slab_info_checks_neighbours _ _ _ _ _ _ _ info Hinfo)
      as (_ & c0 & [= <-] & Hsubject & _).
    exact (proj1 (Hsubject eq_refl)).
  - vm_compute in Hinfo. discriminate.
Defined.

Lemma fov_covers_every_chunk_witness :
  (15 <? 15 + 5 - (0 + 5))%Z = false.
Proof.
  apply (fov_covers_every_chunk (fun z : Z => z) 0%Z Z.add Z.sub Z.ltb Z.eqb
           Z.ltb_irrefl
           (fun x y H => proj2 (Z.ltb_ge y x) (Z.lt_le_incl _ _ (proj1 (Z.ltb_lt x y) H)))
           (fun x y z H1 H2 =>
              proj2 (Z.ltb_ge z x) (Z.le_trans _ _ _ (proj1 (Z.ltb_ge y x) H1)
                                      (proj1 (Z.ltb_ge z y) H2)))
           (fun a a' b b' H1 H2 =>
              proj2 (Z.ltb_ge _ _)
                (Z.sub_le_mono _ _ _ _ (proj1 (Z.ltb_ge a' a) H1) (proj1 (Z.ltb_ge b b') H2)))
           [SpimInfo.chunk_a; SpimInfo.chunk_b] [15; 15; 15]%Z SpimInfo.chunk_b
           [5; 5; 5]%Z [15; 15; 15]%Z 0 15%Z 5%Z 15%Z).
  - by vm_compute.
  - right. left.
  - reflexivity.
  - reflexivity.
  - reflexivity.
  - reflexivity.
Defined.

(** ** [glob] returns *)

Lemma chain_of_dironly compile_pattern parts : dironly_ok (chain_of compile_pattern parts) = true.
Proof.
  induction parts as [|pat rest IH]; [done|]. cbn [chain_of].
  assert (Bool.eqb (match rest with [] => false | _ => true end)
            (negb (is_terminating (chain_of compile_pattern rest))) = true) as Hd.
  { destruct rest as [|pat' rest']; [done|]. cbn [chain_of].
    destruct (String.eqb pat' "**"); [done|]. by destruct (_is_wildcard_pattern pat'). }
  destruct (String.eqb pat "**"); [|destruct (_is_wildcard_pattern pat)];
    cbn [dironly_ok]; by rewrite Hd, IH.
Qed.

Lemma seq_returned {A} (g rest : Gen A) :
  returned g -> returned rest -> returned (Gen.seq g rest).
Proof. unfold returned, Gen.seq. intros Hg Hr. by rewrite Hg. Qed.

Lemma for_list_returned {A B} (P : A -> Prop) (items : list B) (body : B -> Gen A) :
  (∀ x, x ∈ items -> returned (body x) ∧ Forall P (body x).1) ->
  returned (Gen.for_list items body) ∧ Forall P (Gen.for_list items body).1.
Proof.
  induction items as [|x items IH]; intros Hbody; [by split|].
  cbn [Gen.for_list]. destruct (Hbody x) as [Hr Hall]; [left|].
  destruct IH as [Hr' Hall']; [intros y Hy; apply Hbody; by right|].
  split; [by apply seq_returned|]. by apply seq_yields_Forall.
Qed.

Lemma except_PermissionError_returned {A} (g : Gen A) :
  returned g -> returned (Gen.except_PermissionError g).
Proof. unfold returned, Gen.except_PermissionError. intros Hg. by rewrite Hg. Qed.

(** A value found in the run of one item is found in the run of the whole
    loop, when no run raises. *)
Lemma for_list_elem_of_2 {A B} (items : list B) (body : B -> Gen A) i x :
  (∀ j, j ∈ items -> returned (body j)) ->
  i ∈ items -> x ∈ (body i).1 -> x ∈ (Gen.for_list items body).1.
Proof.
  induction items as [|j items IH]; intros Hret Hi Hx; [by apply elem_of_nil in Hi|].
  cbn [Gen.for_list]. unfold Gen.seq. rewrite (Hret j) by left. cbn [fst].
  apply elem_of_app. apply elem_of_cons in Hi as [-> | Hi]; [by left|].
  right. apply IH; [|done..]. intros k Hk. apply Hret. by right.
Qed.

Section Returns.

Variable compile_pattern : string -> Result (string -> bool).
Variable ds : Dandiset.
Hypothesis Hstore : store_ok ds = true.

Lemma scandir_directory p :
  directory ds p ->
  ∃ names, Forall (fun n => wf_segb n = true) names ∧
           scandir p = (_make_child_relpath p <$> names, Returned) ∧
           names = child_name <$> children_of p ds.
Proof.
  intros [Hp Hd]. rewrite (scandir_spec ds p Hstore Hp Hd).
  exists (child_name <$> children_of p ds). split; [|split; [|done]].
  - apply Forall_fmap. apply children_from_wf. by apply listing_ok.
  - by rewrite <- list_fmap_compose.
Qed.

Lemma iterate_directories_returns fuel p :
  directory ds p -> S (max_depth ds) ≤ fuel + length (_parts p) -> 1 ≤ fuel ->
  returned (_iterate_directories fuel p) ∧
  Forall (directory ds) (_iterate_directories fuel p).1.
Proof.
  revert p. induction fuel as [|fuel IH]; intros p Hdir Hsum Hpos; [lia|].
  cbn [_iterate_directories].
  match goal with
  | |- context [Gen.yield p ?g] =>
      assert (returned g ∧ Forall (directory ds) g.1) as [Hf Hall]
  end.
  2:{ split; [done|]. cbn. by constructor. }
  match goal with
  | |- returned ?g ∧ Forall _ (?g).1 =>
      match g with
      | Gen.except_PermissionError ?h =>
          assert (returned h ∧ Forall (directory ds) h.1) as [Hf Hall]
      end
  end.
  2:{ split; [by apply except_PermissionError_returned|].
      by rewrite except_PermissionError_yields. }
  destruct (scandir_directory p Hdir) as (names & Hnames & -> & _).
  cbn [Gen.to_list snd fst Gen.lift]. destruct Hdir as [Hp Hd].
  apply for_list_returned. intros entry (n & -> & Hn)%list_elem_of_fmap.
  rewrite Forall_forall in Hnames. specialize (Hnames n Hn).
  pose proof (bound_to_child ds p n Hp Hnames) as Hentry.
  destruct (is_dir_ok ds _ Hstore Hentry) as [[|] Hde]; rewrite Hde; cbn [Gen.lift];
    [|by split].
  destruct Hp as (Hwf & Hcls & Hrem). rewrite (name_child_relpath p n Hwf).
  pose proof (is_dir_depth ds _ Hstore Hentry Hde) as Hdepth.
  unfold _make_child_relpath, _from_parsed_parts in Hdepth. cbn [_parts] in Hdepth.
  rewrite length_app in Hdepth. simpl in Hdepth.
  apply IH; [by split| |lia].
  unfold _make_child_relpath, _from_parsed_parts. cbn [_parts].
  rewrite length_app. simpl. lia.
Qed.

Lemma select_from_returns fuel sel p :
  bound_to ds p -> wf_selector sel = true -> dironly_ok sel = true ->
  S (max_depth ds) ≤ fuel ->
  (is_terminating sel = false -> is_dir p = Ok true) ->
  returned (_select_from fuel sel p).
Proof.
  intros Hp Hsel Hdo Hfuel. revert p Hp.
  induction sel as [|nm d succ IH|pat d succ IH|d succ IH]; intros p Hp Hdir;
    cbn [_select_from wf_selector dironly_ok] in *.
  - done.
  - apply andb_true_iff in Hsel as [Hnm Hsucc].
    apply andb_true_iff in Hdo as [Hd%Bool.eqb_prop Hdo].
    pose proof (bound_to_child ds p nm Hp Hnm) as Hchild.
    apply except_PermissionError_returned.
    destruct (is_terminating succ) eqn:Hterm; cbn [negb] in Hd; subst d.
    + destruct (exists_ok ds _ Hstore Hchild) as [[|] ->]; cbn [Gen.lift]; [|done].
      by apply IH.
    + destruct (is_dir_ok ds _ Hstore Hchild) as [[|] Hdc]; rewrite Hdc; cbn [Gen.lift];
        [|done]. by apply IH.
  - apply andb_true_iff in Hdo as [Hd%Bool.eqb_prop Hdo].
    apply except_PermissionError_returned.
    destruct (scandir_directory p (conj Hp (Hdir eq_refl))) as (names & Hnames & -> & _).
    cbn [Gen.to_list snd fst Gen.lift].
    apply (for_list_returned (fun _ => True)).
    intros entry (n & -> & Hn)%list_elem_of_fmap. split; [|by apply Forall_true].
    rewrite Forall_forall in Hnames. specialize (Hnames n Hn).
    pose proof (bound_to_child ds p n Hp Hnames) as Hentry.
    destruct Hp as (Hwf & Hcls & Hrem). rewrite (name_child_relpath p n Hwf).
    destruct (is_terminating succ) eqn:Hterm; cbn [negb] in Hd; subst d; cbn [Gen.lift].
    + destruct (pat n); [|done]. by apply IH.
    + destruct (is_dir_ok ds _ Hstore Hentry) as [[|] Hde]; rewrite Hde; cbn [Gen.lift];
        [|done].
      destruct (pat n); [|done]. by apply IH.
  - apply andb_true_iff in Hdo as [Hd%Bool.eqb_prop Hdo].
    apply except_PermissionError_returned. unfold returned. cbn [snd].
    destruct (iterate_directories_returns fuel p (conj Hp (Hdir eq_refl))) as [Hr Hall];
      [lia..|].
    unfold Gen.for_gen. apply seq_returned; [|exact Hr].
    apply (for_list_returned (fun _ => True)). intros sp Hsp.
    split; [|by apply Forall_true].
    rewrite Forall_forall in Hall. destruct (Hall sp Hsp) as [Hbsp Hdsp].
    by apply IH.
Qed.

End Returns.

(** A selector run over a store of relative assets returns, unless the
    pattern is refused. *)
Lemma run_selector_returns compile_pattern self parts :
  wf_path self -> pathcls self = ClsDandiPath ->
  (∀ ds, remote self = Some ds -> store_ok ds = true) ->
  forallb wf_segb parts = true -> parts ≠ [] -> existsb bad_component parts = false ->
  Forall (compiles compile_pattern) parts ->
  returned (run_selector compile_pattern self (mkPath ClsDandiPath "" "" parts (remote self))).
Proof.
  intros Hwf Hcls Hstore Hparts Hne Hbad Hcomp. rewrite (run_selector_wf _ _ _ _ _ Hparts).
  destruct parts as [|pat rest]; [done|]. rewrite (refusal_none _ _ Hbad Hcomp).
  pose proof (chain_of_wf compile_pattern _ Hparts) as Hsel.
  pose proof (chain_of_dironly compile_pattern (pat :: rest)) as Hdo.
  unfold select_from.
  destruct (chain_of compile_pattern (pat :: rest)) eqn:Hchain.
  { cbn [chain_of] in Hchain. destruct (String.eqb pat "**"); [done|].
    by destruct (_is_wildcard_pattern pat). }
  all: destruct (remote self) as [ds|] eqn:Hrem; [|unfold is_dir; by rewrite Hrem].
  all: assert (bound_to ds self) as Hb by done.
  all: destruct (is_dir_ok ds self (Hstore ds eq_refl) Hb) as [[|] Hd]; rewrite Hd;
    cbn [Gen.lift]; [|done].
  all: apply (select_from_returns ds (Hstore ds eq_refl)); try done.
  all: unfold walk_fuel, max_depth; by rewrite Hrem.
Qed.

(** X21.  [glob] and [rglob] return normally on every pattern they do not
    refuse: from a well-formed [DandiPath] over a store of relative
    assets (or without dandiset), for a relative pattern no component of
    which holds [**] beside other characters and every wildcard component
    of which compiles, [rglob] runs to its end without raising, and so
    does [glob] when the pattern is not empty and has at least one
    component; a non-empty pattern without component, such as [.], makes
    [glob] raise [IndexError]. *)
Theorem glob_returns_normally
    (compile_pattern : string -> Result (string -> bool)) (self : RemotePath) (s : string) :
  wf_path self -> pathcls self = ClsDandiPath ->
  (∀ ds, remote self = Some ds -> store_ok ds = true) ->
  relative_pattern s = true ->
  existsb bad_component (Flavour.parse_parts [s]).2 = false ->
  Forall (compiles compile_pattern) (Flavour.parse_parts [s]).2 ->
  returned (rglob compile_pattern self s) ∧
  (s ≠ "" ->
   if bool_decide ((Flavour.parse_parts [s]).2 = [])
   then glob compile_pattern self s = ([], Raised IndexError_list_index)
   else returned (glob compile_pattern self s)).
Proof.
  intros Hwf Hcls Hstore Hrel Hbad Hcomp.
  pose proof (parsed_relative_segs s Hrel) as Hsegs. split.
  - rewrite (rglob_relative _ _ _ Hrel).
    apply run_selector_returns; try done.
    constructor; [|done]. by intros ?.
  - intros Hne%truthy_true. rewrite (glob_relative _ _ _ Hne Hrel).
    destruct (bool_decide _) eqn:Hnil.
    + apply bool_decide_eq_true in Hnil. rewrite Hnil.
      by rewrite run_selector_wf.
    + apply bool_decide_eq_false in Hnil. by apply run_selector_returns.
Qed.

Lemma glob_returns_normally_witness :
  returned (rglob simple_compile (dandi "top" (Some store_x)) "*/b") ∧
  ("*/b" ≠ "" ->
   if bool_decide ((Flavour.parse_parts ["*/b"]).2 = [])
   then glob simple_compile (dandi "top" (Some store_x)) "*/b"
        = ([], Raised IndexError_list_index)
   else returned (glob simple_compile (dandi "top" (Some store_x)) "*/b")).
Proof.
  apply (glob_returns_normally simple_compile (dandi "top" (Some store_x)) "*/b");
    try reflexivity.
  - by intros ds [= <-].
  - repeat constructor; intros _; by eexists.
Defined.

(** ** [rglob] finds what is there *)

(** Two paths bound to one store with the same parts are the same path. *)
Lemma bound_parts_eq ds p q :
  bound_to ds p -> bound_to ds q -> _parts p = _parts q -> p = q.
Proof.
  intros (Hp & Hcp & Hrp) (Hq & Hcq & Hrq) Hparts.
  assert (_root p = _root q) as Hroot.
  { destruct (truthy (_root p)) eqn:Htp, (truthy (_root q)) eqn:Htq.
    - destruct (wf_rooted_parts p Hp Htp) as (s1 & H1 & _).
      destruct (wf_rooted_parts q Hq Htq) as (s2 & H2 & _). congruence.
    - destruct (wf_rooted_parts p Hp Htp) as (s1 & H1 & Hn).
      pose proof (wf_unrooted_segs q Hq Htq) as Hs. rewrite <- Hparts, H1 in Hs.
      simpl in Hs. by rewrite Hn in Hs.
    - destruct (wf_rooted_parts q Hq Htq) as (s1 & H1 & Hn).
      pose proof (wf_unrooted_segs p Hp Htp) as Hs. rewrite Hparts, H1 in Hs.
      simpl in Hs. by rewrite Hn in Hs.
    - apply truthy_false in Htp, Htq. congruence. }
  pose proof (wf_drv p Hp) as Hdp. pose proof (wf_drv q Hq) as Hdq.
  destruct p, q; simpl in *. congruence.
Qed.

(** On a store of normal assets, the prefix query of a non-empty path
    finds every asset at or below it. *)
Lemma prefix_query_complete ds p (f : string -> bool) :
  normal_store ds = true -> wf_path p -> _parts p ≠ [] ->
  (∀ a, f a = true -> is_prefixb (_parts p) (parts_of a) = true) ->
  existsb f (get_assets_with_path_prefix ds (path_str p)) = existsb f (assets ds).
Proof.
  intros Hnormal Hwf Hne Hf. apply eq_true_iff_eq. rewrite !existsb_exists. split.
  - intros (a & Ha%list_elem_of_In & Hfa). exists a. split; [|done].
    apply list_elem_of_In. by apply list_elem_of_filter in Ha as [_ Ha].
  - intros (a & Ha%list_elem_of_In & Hfa). exists a. split; [|done].
    apply list_elem_of_In, normal_asset_listed; auto.
Qed.

Lemma is_dir_normal ds p :
  normal_store ds = true -> bound_to ds p -> _parts p ≠ [] ->
  is_dir p = Ok (existsb (fun a => strictly_below (_parts p) (parts_of a)) (assets ds)).
Proof.
  intros Hnormal Hp Hne. pose proof Hp as (Hwf & _ & _).
  rewrite (is_dir_spec ds p (normal_store_ok _ Hnormal) Hp). f_equal.
  apply prefix_query_complete; try done. intros a. apply strictly_below_prefix.
Qed.

Lemma exists_normal ds p :
  normal_store ds = true -> bound_to ds p -> _parts p ≠ [] ->
  exists_ p = Ok (existsb (fun a => is_prefixb (_parts p) (parts_of a)) (assets ds)).
Proof.
  intros Hnormal Hp Hne. pose proof Hp as (Hwf & _ & _).
  rewrite (exists_spec ds p (normal_store_ok _ Hnormal) Hp). f_equal.
  by apply prefix_query_complete.
Qed.

Lemma strictly_below_spec P Q :
  strictly_below P Q = true <-> ∃ x rest, Q = P ++ x :: rest.
Proof.
  unfold strictly_below. destruct (below P Q) as [[|x rest]|] eqn:Hb.
  - apply below_Some in Hb. split; [done|]. intros (x & rest & Hq).
    rewrite Hq, app_nil_r in Hb. apply (f_equal length) in Hb.
    rewrite length_app in Hb. simpl in Hb. lia.
  - apply below_Some in Hb. split; [|done]. intros _. by exists x, rest.
  - apply below_None in Hb. split; [done|]. intros (x & rest & Hq).
    exfalso. apply Hb. by exists (x :: rest).
Qed.

(** A path strictly above something that exists is a directory. *)
Lemma directory_above ds d q :
  normal_store ds = true -> bound_to ds d -> _parts d ≠ [] ->
  present ds q -> strictly_below (_parts d) (_parts q) = true ->
  directory ds d.
Proof.
  intros Hnormal Hd Hne [Hq Hex] (x & rest & Hparts)%strictly_below_spec.
  split; [done|]. rewrite (is_dir_normal ds d Hnormal Hd Hne). f_equal.
  rewrite (exists_normal ds q Hnormal Hq) in Hex by (rewrite Hparts; by destruct (_parts d)).
  injection Hex as Hex. apply existsb_exists in Hex as (a & Ha & [r Hr]%is_prefixb_spec).
  apply existsb_exists. exists a. split; [done|]. apply strictly_below_spec.
  exists x, (rest ++ r). by rewrite Hr, Hparts, <- !app_assoc.
Qed.

(** Every child that exists is listed. *)
Lemma child_complete ds p n :
  normal_store ds = true -> directory ds p -> _parts p ≠ [] -> wf_segb n = true ->
  exists_ (_make_child_relpath p n) = Ok true ->
  n ∈ child_name <$> children_of p ds.
Proof.
  intros Hnormal [Hp Hd] Hne Hn Hex.
  pose proof (bound_to_child ds p n Hp Hn) as Hchild.
  rewrite (exists_normal ds _ Hnormal Hchild) in Hex by (cbn; by destruct (_parts p)).
  injection Hex as Hex.
  apply existsb_exists in Hex as (a & Ha%list_elem_of_In & [r Hr]%is_prefixb_spec).
  cbn [_make_child_relpath _from_parsed_parts _parts] in Hr.
  destruct Hp as (Hwf & _ & _).
  assert (a ∈ get_assets_with_path_prefix ds (path_str p)) as Hlisted.
  { apply normal_asset_listed; try done. apply is_prefixb_spec. exists ([n] ++ r).
    by rewrite Hr, <- app_assoc. }
  assert (below (_parts p) (Flavour.parse_parts [a]).2 = Some (n :: r)) as Hb.
  { apply below_Some. fold (parts_of a). by rewrite Hr, <- app_assoc. }
  unfold children_of. apply list_elem_of_fmap. destruct r as [|y r].
  - exists (File n). split; [done|].
    assert (n ∈ file_names (children_from (_parts p) []
                              (get_assets_with_path_prefix ds (path_str p)))) as Hin.
    { rewrite children_from_files. apply list_elem_of_omap. exists (File n). split; [|done].
      apply list_elem_of_omap. exists a. split; [done|]. unfold classify. by rewrite Hb. }
    apply list_elem_of_omap in Hin as ([m|m] & Hc & Hm); [|done]. by injection Hm as ->.
  - exists (Dir n). split; [done|].
    assert (n ∈ dir_names (children_from (_parts p) []
                             (get_assets_with_path_prefix ds (path_str p)))) as Hin.
    { apply children_from_dirs. split; [by intros ?%elem_of_nil|].
      apply list_elem_of_omap. exists (Dir n). split; [|done].
      apply list_elem_of_omap. exists a. split; [done|]. unfold classify. by rewrite Hb. }
    apply list_elem_of_omap in Hin as ([m|m] & Hc & Hm); [done|]. by injection Hm as ->.
Qed.

Lemma seq_elem_of_l {A} (g rest : Gen A) x : x ∈ g.1 -> x ∈ (Gen.seq g rest).1.
Proof.
  unfold Gen.seq. destruct g as [l []]; cbn; [|done..]. intros ?. apply elem_of_app. by left.
Qed.

Lemma descend_parts p mid :
  _parts (foldl _make_child_relpath p mid) = _parts p ++ mid ∧
  pathcls (foldl _make_child_relpath p mid) = pathcls p.
Proof.
  revert p. induction mid as [|m mid IH]; intros p; cbn [foldl].
  - by rewrite app_nil_r.
  - destruct (IH (_make_child_relpath p m)) as [-> ->]. cbn. by rewrite <- app_assoc.
Qed.

Lemma descend_bound ds p mid :
  bound_to ds p -> forallb wf_segb mid = true ->
  bound_to ds (foldl _make_child_relpath p mid).
Proof.
  revert p. induction mid as [|m mid IH]; intros p Hp; cbn [foldl forallb]; [done|].
  intros [Hm Hmid]%andb_true_iff. apply IH; [|done]. by apply bound_to_child.
Qed.

Section Complete.

Variable compile_pattern : string -> Result (string -> bool).
Variable ds : Dandiset.
Hypothesis Hnormal : normal_store ds = true.

(** The walk passes every directory below its starting point. *)
Lemma iterate_directories_reaches fuel p mid :
  directory ds p -> _parts p ≠ [] -> forallb wf_segb mid = true ->
  directory ds (foldl _make_child_relpath p mid) ->
  S (max_depth ds) ≤ fuel + length (_parts p) -> 1 ≤ fuel ->
  foldl _make_child_relpath p mid ∈ (_iterate_directories fuel p).1.
Proof.
  pose proof (normal_store_ok _ Hnormal) as Hstore.
  revert fuel p. induction mid as [|m mid IH]; intros fuel p Hdir Hne Hmid Hd Hsum Hpos.
  - destruct fuel as [|fuel]; [lia|]. cbn. left.
  - destruct fuel as [|fuel]; [lia|]. cbn [foldl forallb] in *.
    apply andb_true_iff in Hmid as [Hm Hmid].
    destruct Hdir as [Hp Hdp].
    pose proof (bound_to_child ds p m Hp Hm) as Hchild.
    set (c := _make_child_relpath p m) in *.
    assert (_parts c ≠ []) as Hnec by (cbn; by destruct (_parts p)).
    assert (directory ds c) as Hdc.
    { destruct mid as [|m' mid']; [exact Hd|].
      apply (directory_above ds c (foldl _make_child_relpath c (m' :: mid'))); try done.
      - destruct Hd as [Hb Hdd]. split; [done|]. by apply (is_dir_exists ds).
      - apply strictly_below_spec. exists m', mid'.
        by destruct (descend_parts c (m' :: mid')) as [-> _]. }
    cbn [_iterate_directories]. unfold Gen.yield. cbn [fst]. right.
    rewrite except_PermissionError_yields.
    destruct (scandir_directory ds Hstore p (conj Hp Hdp)) as (names & Hnames & -> & Heq).
    cbn [Gen.to_list snd fst Gen.lift].
    assert (m ∈ names) as Hin.
    { rewrite Heq. apply child_complete; try done.
      destruct Hdc as [? ?]. by apply (is_dir_exists ds). }
    pose proof (is_dir_depth ds c Hstore Hchild (proj2 Hdc)) as Hdepth.
    assert (length (_parts c) = S (length (_parts p))) as Hlen
      by (cbn; rewrite length_app; simpl; lia).
    apply (for_list_elem_of_2 _ _ c).
    + intros e (n & -> & Hn)%list_elem_of_fmap.
      rewrite Forall_forall in Hnames. specialize (Hnames n Hn).
      pose proof (bound_to_child ds p n Hp Hnames) as Hentry.
      destruct (is_dir_ok ds _ Hstore Hentry) as [[|] Hde]; rewrite Hde; cbn [Gen.lift];
        [|done].
      destruct Hp as (Hwf & ? & ?). rewrite (name_child_relpath p n Hwf).
      pose proof (is_dir_depth ds _ Hstore Hentry Hde) as Hdn.
      assert (length (_parts (_make_child_relpath p n)) = S (length (_parts p))) as Hln
        by (cbn; rewrite length_app; simpl; lia).
      apply (iterate_directories_returns ds Hstore); [by split|lia|lia].
    + apply list_elem_of_fmap. by exists m.
    + rewrite (proj2 Hdc). cbn [Gen.lift].
      destruct Hp as (Hwf & ? & ?). unfold c. rewrite (name_child_relpath p m Hwf).
      fold c. apply IH; [exact Hdc|done|done|done|lia|lia].
Qed.

(** A selector for one last component finds the child it describes. *)
Lemma last_selector_finds fuel d pat n :
  directory ds d -> _parts d ≠ [] -> wf_segb n = true ->
  contains "**" pat = false ->
  exists_ (_make_child_relpath d n) = Ok true ->
  (if _is_wildcard_pattern pat
   then ∃ m, compile_pattern pat = Ok m ∧ m n = true
   else n = pat) ->
  _make_child_relpath d n ∈ (_select_from fuel (chain_of compile_pattern [pat]) d).1.
Proof.
  pose proof (normal_store_ok _ Hnormal) as Hstore.
  intros Hdir Hne Hn Hstars Hex Hmatch. cbn [chain_of].
  assert ((pat =? "**")%string = false) as -> by (apply String.eqb_neq; by intros ->).
  destruct (_is_wildcard_pattern pat); cbn [_select_from];
    rewrite except_PermissionError_yields.
  - destruct Hmatch as (m & Hm & Hmatch). unfold matcher. rewrite Hm.
    destruct (scandir_directory ds Hstore d Hdir) as (names & Hnames & -> & Heq).
    cbn [Gen.to_list snd fst Gen.lift].
    destruct Hdir as [(Hwf & ? & ?) ?].
    apply (for_list_elem_of_2 _ _ (_make_child_relpath d n)).
    + intros e (k & -> & Hk)%list_elem_of_fmap. cbn [Gen.lift].
      rewrite (name_child_relpath d k Hwf). by destruct (m k).
    + apply list_elem_of_fmap. exists n. split; [done|]. rewrite Heq.
      by apply child_complete.
    + cbn [Gen.lift]. rewrite (name_child_relpath d n Hwf), Hmatch. cbn. left.
  - subst pat. rewrite Hex. cbn. left.
Qed.

End Complete.

Lemma wf_tail_segs q P l :
  wf_path q -> _parts q = P ++ l -> P ≠ [] -> forallb wf_segb l = true.
Proof.
  intros Hq Hparts Hne. destruct (truthy (_root q)) eqn:Hr.
  - unfold wf_path in Hq.
    apply wf_tripleb_spec in Hq as (_ & [[Hroot _]|[_ (segs & Hp & Hsegs)]]).
    + by rewrite Hroot in Hr.
    + rewrite Hp in Hparts. destruct P as [|x P]; [done|]. simpl in Hparts.
      injection Hparts as _ ->. apply forallb_app_iff in Hsegs. tauto.
  - pose proof (wf_unrooted_segs q Hq Hr) as Hs. rewrite Hparts in Hs.
    apply forallb_app_iff in Hs. tauto.
Qed.

(** A path that exists strictly below a non-empty path bound to the same
    store of normal assets is the child, by its name, of a directory that
    is reached from that path by descending through directories. *)
Lemma descend_to_parent ds self q :
  normal_store ds = true -> bound_to ds self -> _parts self ≠ [] ->
  present ds q -> strictly_below (_parts self) (_parts q) = true ->
  ∃ mid, forallb wf_segb mid = true ∧ wf_segb (name q) = true ∧
         directory ds self ∧
         directory ds (foldl _make_child_relpath self mid) ∧
         _make_child_relpath (foldl _make_child_relpath self mid) (name q) = q ∧
         _parts q = _parts self ++ mid ++ [name q].
Proof.
  intros Hnormal Hself Hne [Hq Hex] Hbelow.
  pose proof Hbelow as (x & rest & Hparts)%strictly_below_spec.
  destruct (exists_last (l:=x :: rest)) as (mid & n & Hlast); [done|].
  rewrite Hlast in Hparts.
  pose proof Hq as (Hwfq & _ & _).
  pose proof (wf_tail_segs q _ _ Hwfq Hparts Hne) as Hsegs.
  apply forallb_app_iff in Hsegs as [Hmid Hn]. simpl in Hn. rewrite andb_true_r in Hn.
  pose proof (descend_bound ds self mid Hself Hmid) as Hd.
  destruct (descend_parts self mid) as [Hdparts _].
  pose proof (bound_to_child ds _ n Hd Hn) as Hchild.
  assert (_make_child_relpath (foldl _make_child_relpath self mid) n = q) as Heq.
  { apply (bound_parts_eq ds); [done..|]. cbn. by rewrite Hdparts, Hparts, app_assoc. }
  assert (name q = n) as Hname.
  { rewrite <- Heq. apply name_child_relpath. by destruct Hd. }
  exists mid. rewrite Hname. split; [done|]. split; [done|].
  split; [by apply (directory_above ds self q)|]. split; [|done].
  apply (directory_above ds _ q); try done.
  - rewrite Hdparts. by destruct (_parts self).
  - apply strictly_below_spec. exists n, []. by rewrite Hdparts, Hparts, app_assoc.
Qed.

(** X22.  [rglob] finds every match: from a well-formed, non-empty
    [DandiPath] bound to a store of normal assets, with a pattern of one
    component other than [**], every path of the store that exists
    strictly below the starting path and whose name the pattern matches
    (the compiled pattern for a wildcard component, equality for a literal
    one) is yielded by [rglob]; and it is yielded by [glob] when it is a
    child of the starting path. *)
Theorem rglob_finds_every_match
    (compile_pattern : string -> Result (string -> bool)) (ds : Dandiset)
    (self : RemotePath) (pat : string) (q : RemotePath) :
  normal_store ds = true -> bound_to ds self -> _parts self ≠ [] ->
  wf_segb pat = true -> contains "**" pat = false ->
  bound_to ds q -> exists_ q = Ok true ->
  strictly_below (_parts self) (_parts q) = true ->
  (if _is_wildcard_pattern pat
   then ∃ m, compile_pattern pat = Ok m ∧ m (name q) = true
   else name q = pat) ->
  q ∈ (rglob compile_pattern self pat).1 ∧
  (_parts q = _parts self ++ [name q] -> q ∈ (glob compile_pattern self pat).1).
Proof.
  intros Hnormal Hself Hne Hpat Hstars Hq Hex Hbelow Hmatch.
  pose proof (normal_store_ok _ Hnormal) as Hstore.
  destruct (descend_to_parent ds self q Hnormal Hself Hne (conj Hq Hex) Hbelow)
    as (mid & Hmid & Hn & Hdself & Hd & Heq & Hparts).
  set (d := foldl _make_child_relpath self mid) in *.
  assert (_parts d ≠ []) as Hned.
  { unfold d. destruct (descend_parts self mid) as [-> _]. by destruct (_parts self). }
  pose proof Hpat as (Hnepat & _ & Hc)%wf_segb_spec.
  assert (relative_pattern pat = true) as Hrel.
  { destruct pat as [|a pat]; [done|]. unfold relative_pattern. rewrite prefix_sep.
    simpl in Hc. apply orb_false_iff in Hc as [Hc _].
    unfold Flavour.sep_char in Hc. by rewrite Hc. }
  assert ((Flavour.parse_parts [pat]).2 = [pat]) as Hparse
    by (by rewrite (parse_single_relative _ Hrel), (append_names_seg _ Hpat)).
  assert (bad_component pat = false) as Hbad
    by (unfold bad_component; by rewrite Hstars, andb_false_r).
  assert (refusal compile_pattern [pat] = None) as Href.
  { cbn [refusal]. rewrite Hbad. unfold wildcard_component. rewrite Hstars. cbn [negb andb].
    destruct (_is_wildcard_pattern pat); [|done]. by destruct Hmatch as (m & -> & _). }
  assert (∃ succ, chain_of compile_pattern [pat] = succ ∧ is_terminating succ = false)
    as (succ & Hsucc & Hterm).
  { eexists. split; [done|]. cbn [chain_of]. destruct (String.eqb pat "**"); [done|].
    by destruct (_is_wildcard_pattern pat). }
  assert (∀ fuel dir, directory ds dir -> _parts dir ≠ [] ->
            exists_ (_make_child_relpath dir (name q)) = Ok true ->
            _make_child_relpath dir (name q) ∈ (_select_from fuel succ dir).1)
    as Hfinds.
  { intros fuel dir Hdir Hnedir Hexq. rewrite <- Hsucc.
    by apply (last_selector_finds compile_pattern ds Hnormal). }
  pose proof (chain_of_wf compile_pattern [pat]) as Hwfsel. rewrite Hsucc in Hwfsel.
  specialize (Hwfsel ltac:(cbn; by rewrite Hpat)).
  pose proof (chain_of_dironly compile_pattern [pat]) as Hdosel. rewrite Hsucc in Hdosel.
  assert (walk_fuel self = S (max_depth ds)) as Hfuel.
  { unfold walk_fuel, max_depth. destruct Hself as (_ & _ & ->). done. }
  split.
  - rewrite (rglob_relative _ _ _ Hrel), Hparse.
    rewrite run_selector_wf by (cbn; by rewrite Hpat).
    rewrite refusal_stars, Href.
    change (chain_of compile_pattern ["**"; pat])
      with (RecursiveWildcardSelector true (chain_of compile_pattern [pat])).
    rewrite Hsucc. unfold select_from. rewrite (proj2 Hdself). cbn [Gen.lift].
    assert (present ds self) as Hpself
      by (split; [done|]; by apply (is_dir_exists ds), Hdself).
    assert (∀ q', q' ∈ (_select_from (walk_fuel self)
                          (RecursiveWildcardSelector true succ) self).1 ->
                  bound_to ds q') as Hbound.
    { intros q' Hq'.
      by apply (select_from_present ds Hnormal) in Hq' as [? _]. }
    cbn [_select_from] in Hbound |- *. rewrite except_PermissionError_yields in Hbound |- *.
    cbn [fst] in Hbound |- *.
    match goal with
    | |- q ∈ yield_new ∅ ?ps =>
        assert (q ∈ ps) as Hfound
    end.
    { unfold Gen.for_gen. apply seq_elem_of_l.
      destruct (iterate_directories_returns ds Hstore (walk_fuel self) self Hdself)
        as [_ Hall]; [lia..|].
      apply (for_list_elem_of_2 _ _ d).
      - intros sp Hsp. rewrite Forall_forall in Hall. destruct (Hall sp Hsp) as [Hbsp Hdsp].
        apply (select_from_returns ds Hstore); try done. lia.
      - apply (iterate_directories_reaches ds Hnormal); try done; lia.
      - rewrite <- Heq at 1. apply Hfinds; [done|done|]. by rewrite Heq. }
    apply (yield_new_complete ∅) in Hfound as [?%elem_of_empty|Hkey]; [done|].
    apply list_elem_of_fmap in Hkey as (q' & Hkey & Hq').
    assert (q' = q) as <-; [|done].
    apply (bound_parts_eq ds); [by apply Hbound|done|].
    symmetry in Hkey. apply path_key_eq, path_eq_spec in Hkey as [Hkey _]. exact Hkey.
  - intros Hchild.
    assert (mid = []) as Hnil.
    { rewrite Hparts in Hchild. apply app_inv_head in Hchild.
      destruct mid as [|m mid']; [done|]. apply (f_equal length) in Hchild.
      rewrite length_app in Hchild. simpl in Hchild. lia. }
    unfold d in *. rewrite Hnil in *. cbn [foldl] in *.
    rewrite (glob_relative _ _ _ (proj2 (truthy_true _) Hnepat) Hrel), Hparse.
    rewrite run_selector_wf by (cbn; by rewrite Hpat).
    rewrite Href, Hsucc. unfold select_from.
    destruct succ; [done|..]; rewrite (proj2 Hdself); cbn [Gen.lift];
      rewrite <- Heq at 1; apply Hfinds; try done; by rewrite Heq.
Qed.

Lemma rglob_finds_every_match_witness :
  dandi "top/a/b/x.h5" (Some store_x)
    ∈ (rglob simple_compile (dandi "top" (Some store_x)) "*.h5").1 ∧
  (_parts (dandi "top/a/b/x.h5" (Some store_x))
   = _parts (dandi "top" (Some store_x)) ++ [name (dandi "top/a/b/x.h5" (Some store_x))] ->
   dandi "top/a/b/x.h5" (Some store_x)
     ∈ (glob simple_compile (dandi "top" (Some store_x)) "*.h5").1).
Proof.
  apply (rglob_finds_every_match simple_compile store_x (dandi "top" (Some store_x)) "*.h5"
           (dandi "top/a/b/x.h5" (Some store_x))); try reflexivity.
  - split; [reflexivity|]. split; reflexivity.
  - discriminate.
  - split; [reflexivity|]. split; reflexivity.
  - exists (simple_fnmatch "*.h5"). split; reflexivity.
Defined.
